(** * Write-ahead log blob subsystem: db/log_writer.cc

    A shallow embedding of [rocksdb::log::Writer], [Blob],
    [WalBlobReader] and the directory lookup of the WAL index file,
    together with the properties of the fragmenting writer and of the
    reconstructing reader.

    Conventions.
    - A [char] of the file is a [Z]; a buffer or a file is a [list Z].
    - [uint32_t], [uint64_t] and [size_t] values are [Z] with the
      wrap-around written out ([wrap32], [wrap64]).
    - Sums that count bytes and blocks of one file ([block_offset_ +=],
      [block_counts_++], file sizes) are written without wrap-around;
      differences of sizes, where the code can go below zero, are
      wrapped.
    - A failing [assert] is the outcome [Abort]: the model is the checked
      build, where an assertion stops the process.
    - A pointer into a buffer is its (signed) distance from the start of
      the buffer. *)

From Stdlib Require Import ZArith Lia List Bool.
From stdpp Require Import base option list gmap.

Local Open Scope Z_scope.

(** ** Constants of db/log_format.h *)

(** Modelled from the spec: db/log_format.h is not among the sources; the
    block is "exactly 32768 bytes", the legacy header 7 bytes, the
    recyclable header 11 bytes, and the record types are numbered 0..8. *)
Definition kBlockSize : Z := 32768.
Definition kHeaderSize : Z := 7.
Definition kRecyclableHeaderSize : Z := 11.

Inductive RecordType : Set :=
  | kZeroType
  | kFullType
  | kFirstType
  | kMiddleType
  | kLastType
  | kRecyclableFullType
  | kRecyclableFirstType
  | kRecyclableMiddleType
  | kRecyclableLastType.

Definition type_code (t : RecordType) : Z :=
  match t with
  | kZeroType => 0
  | kFullType => 1
  | kFirstType => 2
  | kMiddleType => 3
  | kLastType => 4
  | kRecyclableFullType => 5
  | kRecyclableFirstType => 6
  | kRecyclableMiddleType => 7
  | kRecyclableLastType => 8
  end.

Definition kMaxRecordType : Z := type_code kRecyclableLastType.

(** ** Machine integers *)

Definition wrap32 (x : Z) : Z := x mod 2 ^ 32.
Definition wrap64 (x : Z) : Z := x mod 2 ^ 64.

(** [static_cast<int64_t>] of a 64-bit unsigned value. *)
Definition to_int64 (x : Z) : Z :=
  if wrap64 x <? 2 ^ 63 then wrap64 x else wrap64 x - 2 ^ 64.

(** [uint64_t(-1)], the "unset" mark of a recorded offset. *)
Definition kUnsetOffset : Z := 2 ^ 64 - 1.

(** ** util/coding.h and util/crc32c.h *)

(** [EncodeFixed32]: four bytes, least significant first. *)
Definition EncodeFixed32 (v : Z) : list Z :=
  [ Z.land v 255;
    Z.land (Z.shiftr v 8) 255;
    Z.land (Z.shiftr v 16) 255;
    Z.land (Z.shiftr v 24) 255 ].

(** The [i]-th [char] of a buffer seen as an unsigned byte; the model reads
    0 outside the buffer. *)
Definition byte_at (buf : list Z) (i : Z) : Z :=
  if i <? 0 then 0 else Z.land (nth (Z.to_nat i) buf 0) 255.

(** [DecodeFixed32] at the position [p] of a buffer. *)
Definition DecodeFixed32 (buf : list Z) (p : Z) : Z :=
  Z.lor (byte_at buf p)
    (Z.lor (Z.shiftl (byte_at buf (p + 1)) 8)
       (Z.lor (Z.shiftl (byte_at buf (p + 2)) 16)
          (Z.shiftl (byte_at buf (p + 3)) 24))).

Definition kMaskDelta : Z := 0xa282ead8.

(** Modelled from the spec: util/crc32c.h is not among the sources.
    [mask(x) = ((x >> 15) | (x << 17)) + 0xa282ead8] modulo 2^32. *)
Definition Mask (crc : Z) : Z :=
  wrap32 (Z.lor (Z.shiftr crc 15) (wrap32 (Z.shiftl crc 17)) + kMaskDelta).

(** Modelled from the spec: the inverse transform that [GetBlob] applies
    to a stored checksum: take the delta away, then rotate the other way. *)
Definition Unmask (masked_crc : Z) : Z :=
  let rot := wrap32 (masked_crc - kMaskDelta) in
  Z.lor (Z.shiftr rot 17) (wrap32 (Z.shiftl rot 15)).


(** ** Outcomes *)

(** [rocksdb::Status], as far as this file produces it. *)
Inductive Status : Set :=
  | OK
  | IOError.

Definition ok (s : Status) : bool :=
  match s with OK => true | IOError => false end.

(** What running a member function leads to: it returns ([Done]), an
    [assert] fails ([Abort]), [memmove] leaves the buffer ([Fault]), or a
    loop of the model used up its fuel ([Diverge]). *)
Inductive Outcome (A : Type) : Type :=
  | Done (a : A)
  | Abort
  | Fault
  | Diverge.

Arguments Done {A} a.
Arguments Abort {A}.
Arguments Fault {A}.
Arguments Diverge {A}.

Definition bind {A B : Type} (m : Outcome A) (k : A -> Outcome B) : Outcome B :=
  match m with
  | Done a => k a
  | Abort => Abort
  | Fault => Fault
  | Diverge => Diverge
  end.

#[global] Instance Outcome_bind : MBind Outcome :=
  fun A B k m => bind m k.

(** [assert(c)] of the checked build. *)
Definition assert (c : bool) : Outcome unit :=
  if c then Done tt else Abort.

(** ** The appendable file behind the writer *)

(** Modelled from the spec: util/file_reader_writer.h is not among the
    sources.  The file offers [append], [flush] and [file_size].  The model
    keeps the bytes appended so far and a script of faults: the head of
    [wf_faults] tells whether the next [Append] or [Flush] fails; when the
    script is used up every call succeeds.  A failing [Append] adds
    nothing. *)
Record WritableFileWriter : Type := {
  wf_data : list Z;
  wf_faults : list bool
}.

Definition Append (f : WritableFileWriter) (bytes : list Z)
  : Status * WritableFileWriter :=
  match wf_faults f with
  | true :: fs => (IOError, {| wf_data := wf_data f; wf_faults := fs |})
  | false :: fs => (OK, {| wf_data := wf_data f ++ bytes; wf_faults := fs |})
  | [] => (OK, {| wf_data := wf_data f ++ bytes; wf_faults := [] |})
  end.

Definition Flush (f : WritableFileWriter) : Status * WritableFileWriter :=
  match wf_faults f with
  | true :: fs => (IOError, {| wf_data := wf_data f; wf_faults := fs |})
  | false :: fs => (OK, {| wf_data := wf_data f; wf_faults := fs |})
  | [] => (OK, f)
  end.

Definition GetFileSize (f : WritableFileWriter) : Z :=
  Z.of_nat (length (wf_data f)).

(** ** The handle a write thread passes to [AddRecord] *)

Record WriteThreadWriter : Type := {
  is_recycle : bool;
  wal_offset_of_wb_content_ : Z
}.

(** Modelled from the spec: [GetFirstEntryPhysicalOffset] is declared in
    db/log_writer.h, which is not among the sources.  It gives "the
    absolute file offset of the first payload byte of the record about to
    be written, that is, current file size + header_size", where "the
    starting block is either the current block (when avail >= header_size)
    or the next one". *)
Definition GetFirstEntryPhysicalOffset (file_size header_size avail : Z) : Z :=
  if header_size <=? avail
  then file_size + header_size
  else (file_size / kBlockSize + 1) * kBlockSize + header_size.

(** Modelled from the spec: [GetPhysicalLength] is declared in
    db/log_writer.h.  "avail_first = BLOCK_SIZE - (offset mod BLOCK_SIZE)";
    a record of at most [avail_first] bytes occupies its own length;
    otherwise, with [rest] bytes after the head and [per_block =
    BLOCK_SIZE - header_size], "physical = head + full * BLOCK_SIZE +
    (tail == 0 ? 0 : header_size + tail)". *)
Definition GetPhysicalLength (logical_length offset header_size : Z) : Z :=
  let avail_first := kBlockSize - offset mod kBlockSize in
  if logical_length <=? avail_first then logical_length
  else
    let rest := logical_length - avail_first in
    let per_block := kBlockSize - header_size in
    let full := rest / per_block in
    let tail := rest mod per_block in
    avail_first + full * kBlockSize
    + (if tail =? 0 then 0 else header_size + tail).

(** Modelled from the spec: [DefaultLogHandle] is declared in
    db/log_writer.h: offset (8 bytes), length (4), head_crc (2) and
    tail_crc (2), packed, least significant byte first. *)
Module Handle.
Record DefaultLogHandle : Type := {
  offset : Z;
  length : Z;
  head_crc : Z;
  tail_crc : Z
}.
End Handle.
Abbreviation DefaultLogHandle := Handle.DefaultLogHandle.

Definition EncodeFixed16 (v : Z) : list Z :=
  [ Z.land v 255; Z.land (Z.shiftr v 8) 255 ].

Definition EncodeFixed64 (v : Z) : list Z :=
  EncodeFixed32 (Z.land v (2 ^ 32 - 1)) ++ EncodeFixed32 (Z.shiftr v 32).

(** The sixteen bytes of a handle, as the index file stores them and as
    the cache key repeats them. *)
Definition handle_bytes (h : DefaultLogHandle) : list Z :=
  EncodeFixed64 (Handle.offset h) ++ EncodeFixed32 (Handle.length h)
  ++ EncodeFixed16 (Handle.head_crc h) ++ EncodeFixed16 (Handle.tail_crc h).

(** ** The writer *)

Record Writer : Type := {
  dest_ : WritableFileWriter;
  block_offset_ : Z;
  num_entries_ : Z;
  block_counts_ : Z;
  log_number_ : Z;
  recycle_log_files_ : bool;
  manual_flush_ : bool;
  type_crc_ : list Z
}.

Definition set_dest (w : Writer) (d : WritableFileWriter) : Writer :=
  {| dest_ := d;
     block_offset_ := block_offset_ w;
     num_entries_ := num_entries_ w;
     block_counts_ := block_counts_ w;
     log_number_ := log_number_ w;
     recycle_log_files_ := recycle_log_files_ w;
     manual_flush_ := manual_flush_ w;
     type_crc_ := type_crc_ w |}.

Definition set_block (w : Writer) (off counts : Z) : Writer :=
  {| dest_ := dest_ w;
     block_offset_ := off;
     num_entries_ := num_entries_ w;
     block_counts_ := counts;
     log_number_ := log_number_ w;
     recycle_log_files_ := recycle_log_files_ w;
     manual_flush_ := manual_flush_ w;
     type_crc_ := type_crc_ w |}.

Definition set_num_entries (w : Writer) (n : Z) : Writer :=
  {| dest_ := dest_ w;
     block_offset_ := block_offset_ w;
     num_entries_ := n;
     block_counts_ := block_counts_ w;
     log_number_ := log_number_ w;
     recycle_log_files_ := recycle_log_files_ w;
     manual_flush_ := manual_flush_ w;
     type_crc_ := type_crc_ w |}.

(** The type of a fragment, from its place in the record. *)
Definition fragment_type (recycle begin end_ : bool) : RecordType :=
  if begin && end_ then
    if recycle then kRecyclableFullType else kFullType
  else if begin then
    if recycle then kRecyclableFirstType else kFirstType
  else if end_ then
    if recycle then kRecyclableLastType else kLastType
  else
    if recycle then kRecyclableMiddleType else kMiddleType.

Section Checksums.

(** The checksum routines live in util/crc32c.h and terark/util/crc.hpp,
    outside this file: the model takes them as parameters. *)
Variable crc32c_Value : list Z -> Z.
Variable crc32c_Extend : Z -> list Z -> Z.
Variable Crc16c_update : Z -> list Z -> Z.

(** [Writer::Writer]: a writer at the start of a block, with the checksum
    of every one-byte type tag computed once. *)
Definition NewWriter (dest : WritableFileWriter) (log_number : Z)
    (recycle_log_files manual_flush : bool) : Writer :=
  {| dest_ := dest;
     block_offset_ := 0;
     num_entries_ := 0;
     block_counts_ := 0;
     log_number_ := log_number;
     recycle_log_files_ := recycle_log_files;
     manual_flush_ := manual_flush;
     type_crc_ :=
       map (fun i => crc32c_Value [Z.of_nat i])
         (seq 0 (Z.to_nat (kMaxRecordType + 1))) |}.

(** [Writer::EmitPhysicalRecord(t, ptr, n)]; [data] is the [n] bytes at
    [ptr]. *)
Definition EmitPhysicalRecord (w : Writer) (t : RecordType) (data : list Z)
  : Outcome (Status * Writer) :=
  let n := Z.of_nat (length data) in
  assert (n <=? 0xffff);;
  let crc0 := nth (Z.to_nat (type_code t)) (type_crc_ w) 0 in
  '(header_size, crc1, log_no) ←
    (if type_code t <? type_code kRecyclableFullType then
       assert (block_offset_ w + kHeaderSize + n <=? kBlockSize);;
       Done (kHeaderSize, crc0, [])
     else
       assert (block_offset_ w + kRecyclableHeaderSize + n <=? kBlockSize);;
       let b := EncodeFixed32 (wrap32 (log_number_ w)) in
       Done (kRecyclableHeaderSize, crc32c_Extend crc0 b, b));
  let crc := Mask (crc32c_Extend crc1 data) in
  let buf :=
    EncodeFixed32 crc
    ++ [Z.land n 255; Z.land (Z.shiftr n 8) 255; type_code t] ++ log_no in
  let '(s1, d1) := Append (dest_ w) buf in
  let '(s, d) :=
    if ok s1 then
      let '(s2, d2) := Append d1 data in
      if ok s2 then
        if negb (manual_flush_ w) then Flush d2 else (s2, d2)
      else (s2, d2)
    else (s1, d1) in
  Done (s, set_block (set_dest w d) (block_offset_ w + header_size + n)
             (block_counts_ w)).

(** The first part of the loop body of [AddRecord]: pad the block and
    start the next one when no header fits.  [inl] is the [break]. *)
Definition switch_block (w : Writer) (header_size : Z)
  : Outcome (Status * Writer + Writer) :=
  let leftover := to_int64 (kBlockSize - block_offset_ w) in
  assert (0 <=? leftover);;
  if leftover <? header_size then
    if 0 <? leftover then
      assert (header_size <=? 11);;
      let '(s, d) := Append (dest_ w) (repeat 0 (Z.to_nat leftover)) in
      if ok s
      then Done (inr (set_block (set_dest w d) 0 (block_counts_ w + 1)))
      else Done (inl (s, set_dest w d))
    else Done (inr (set_block w 0 (block_counts_ w + 1)))
  else Done (inr w).

(** Recording the offset of the payload, once, in the handle of the write
    thread. *)
Definition record_offset (w : Writer) (header_size avail : Z)
    (wt : option WriteThreadWriter) : Outcome (option WriteThreadWriter) :=
  match wt with
  | Some t =>
      if wal_offset_of_wb_content_ t =? kUnsetOffset then
        assert (GetFileSize (dest_ w) =?
                     wrap64 (block_counts_ w * kBlockSize + block_offset_ w));;
        let off :=
          GetFirstEntryPhysicalOffset (GetFileSize (dest_ w)) header_size avail in
        assert (header_size <=? off mod kBlockSize);;
        Done (Some {| is_recycle := is_recycle t;
                      wal_offset_of_wb_content_ := off |})
      else Done wt
  | None => Done None
  end.

(** The [do ... while] loop of [AddRecord]; [rest] is the [left] bytes at
    [ptr]. *)
Fixpoint AddRecord_loop (fuel : nat) (header_size : Z) (w : Writer)
    (wt : option WriteThreadWriter) (rest : list Z) (begin : bool)
  : Outcome (Status * Writer * option WriteThreadWriter) :=
  match fuel with
  | O => Diverge
  | S fuel' =>
      let left := Z.of_nat (length rest) in
      r ← switch_block w header_size;
      match r with
      | inl (s, w1) => Done (s, w1, wt)
      | inr w1 =>
          assert (header_size <=? to_int64 (kBlockSize - block_offset_ w1));;
          let avail := wrap64 (kBlockSize - block_offset_ w1 - header_size) in
          let fragment_length := if left <? avail then left else avail in
          let end_ := left =? fragment_length in
          let type := fragment_type (recycle_log_files_ w1) begin end_ in
          wt1 ← record_offset w1 header_size avail wt;
          '(s, w2) ← EmitPhysicalRecord w1 type
                        (firstn (Z.to_nat fragment_length) rest);
          let rest' := skipn (Z.to_nat fragment_length) rest in
          if ok s && (0 <? Z.of_nat (length rest'))
          then AddRecord_loop fuel' header_size w2 wt1 rest' false
          else Done (s, w2, wt1)
      end
  end.

(** [Writer::AddRecord(slice, num_entries, wt)].  The loop runs at most
    once more than there are bytes, plus once for a block switch. *)
Definition AddRecord (w : Writer) (slice : list Z) (num_entries : Z)
    (wt : option WriteThreadWriter)
  : Outcome (Status * Writer * option WriteThreadWriter) :=
  assert (negb (recycle_log_files_ w));;
  let header_size :=
    if recycle_log_files_ w then kRecyclableHeaderSize else kHeaderSize in
  let wt0 :=
    match wt with
    | Some t => Some {| is_recycle := recycle_log_files_ w;
                        wal_offset_of_wb_content_ := wal_offset_of_wb_content_ t |}
    | None => None
    end in
  '(s, w1, wt1) ← AddRecord_loop (S (S (length slice))) header_size w wt0 slice true;
  Done (s, set_num_entries w1 (wrap64 (num_entries_ w1 + num_entries)), wt1).

(** ** The random-access file behind the reader *)

(** Modelled from the spec: the random-access file offers [read(offset,
    len)] and [unique_id].  A read gives the bytes present from [offset]
    on, at most [len] of them; [ra_healthy = false] makes every read fail;
    [ra_reads] counts the reads issued. *)
Record RandomAccessFile : Type := {
  ra_data : list Z;
  ra_unique_id : list Z;
  ra_healthy : bool;
  ra_reads : nat
}.

(** The [n] bytes at the position [p] of a buffer (fewer at its end). *)
Definition bytes_at (buf : list Z) (p n : Z) : list Z :=
  firstn (Z.to_nat n) (skipn (Z.to_nat p) buf).

Definition Read (f : RandomAccessFile) (off n : Z)
  : Status * list Z * RandomAccessFile :=
  let f' := {| ra_data := ra_data f;
               ra_unique_id := ra_unique_id f;
               ra_healthy := ra_healthy f;
               ra_reads := S (ra_reads f) |} in
  if ra_healthy f then (OK, bytes_at (ra_data f) off n, f')
  else (IOError, [], f').

(** ** Blob *)

(** [slice_] holds the bytes the slice shows; it points into [buf_] as
    soon as a read has filled the buffer. *)
Record Blob : Type := {
  slice_ : list Z;
  buf_ : list Z;
  size_ : Z
}.

(** [Blob::Blob(capacity)]. *)
Definition NewBlob (capacity : Z) : Blob :=
  {| slice_ := []; buf_ := repeat 0 (Z.to_nat capacity); size_ := capacity |}.

Definition DataSize (b : Blob) : Z := size_ b.

(** [memmove(buf + dst, buf + src, n)] inside one buffer; [None] when a
    range leaves the buffer. *)
Definition memmove (buf : list Z) (dst src n : Z) : option (list Z) :=
  if n =? 0 then Some buf
  else if (0 <=? dst) && (0 <=? src) && (0 <? n)
          && (dst + n <=? Z.of_nat (length buf))
          && (src + n <=? Z.of_nat (length buf))
  then Some (firstn (Z.to_nat dst) buf
             ++ bytes_at buf src n
             ++ skipn (Z.to_nat (dst + n)) buf)
  else None.

(** The [while] loop of [Blob::ShrinkVal]; gives the buffer and the final
    [cur_offset]. *)
Fixpoint ShrinkVal_loop (fuel : nat) (record_header_size kBlockAvailSize : Z)
    (buf : list Z) (cur_offset remain_bytes : Z) : Outcome (list Z * Z) :=
  if 0 <? remain_bytes then
    match fuel with
    | O => Diverge
    | S fuel' =>
        let cur_size :=
          if kBlockAvailSize <? remain_bytes then kBlockAvailSize
          else remain_bytes in
        let actual_data := cur_offset + record_header_size in
        let actual_size := wrap64 (cur_size - record_header_size) in
        match memmove buf cur_offset actual_data actual_size with
        | None => Fault
        | Some buf' =>
            ShrinkVal_loop fuel' record_header_size kBlockAvailSize buf'
              (cur_offset + actual_size) (remain_bytes - cur_size)
        end
    end
  else Done (buf, cur_offset).

(** [Blob::ShrinkVal(head_size, record_header_size)]. *)
Definition ShrinkVal (b : Blob) (head_size record_header_size : Z)
  : Outcome Blob :=
  assert (negb (head_size =? 0)
          && (size_ b =? Z.of_nat (length (slice_ b))));;
  let kBlockAvailSize := wrap64 (kBlockSize - record_header_size) in
  let remain_bytes := wrap64 (size_ b - head_size) in
  '(buf, cur_offset) ←
    ShrinkVal_loop (Z.to_nat remain_bytes) record_header_size kBlockAvailSize
      (buf_ b) head_size remain_bytes;
  Done {| slice_ := firstn (Z.to_nat cur_offset) buf;
          buf_ := buf;
          size_ := cur_offset |}.

(** ** The blob reader *)

(** Modelled from the spec: the cache is "a capacity-bounded map with
    insert/lookup/release/eviction callbacks" kept outside this file.  The
    model is the map alone: an inserted entry stays (its handle is held by
    the buffer handed to the caller), and an insertion succeeds. *)
Record WalBlobReader : Type := {
  blob_cache_ : gmap (list Z) Blob;
  wal_header_size_ : Z;
  reader_log_number_ : Z;
  src_ : RandomAccessFile;
  index_file_data_ : option (list Z)
}.

Definition set_src (r : WalBlobReader) (f : RandomAccessFile) : WalBlobReader :=
  {| blob_cache_ := blob_cache_ r;
     wal_header_size_ := wal_header_size_ r;
     reader_log_number_ := reader_log_number_ r;
     src_ := f;
     index_file_data_ := index_file_data_ r |}.

Definition set_cache (r : WalBlobReader) (c : gmap (list Z) Blob)
  : WalBlobReader :=
  {| blob_cache_ := c;
     wal_header_size_ := wal_header_size_ r;
     reader_log_number_ := reader_log_number_ r;
     src_ := src_ r;
     index_file_data_ := index_file_data_ r |}.

Definition set_index_file_data (r : WalBlobReader) (d : option (list Z))
  : WalBlobReader :=
  {| blob_cache_ := blob_cache_ r;
     wal_header_size_ := wal_header_size_ r;
     reader_log_number_ := reader_log_number_ r;
     src_ := src_ r;
     index_file_data_ := d |}.

(** [WalBlobReader::GenerateCacheUniqueId]: the prefix the file gives,
    then the raw handle. *)
Definition GenerateCacheUniqueId (r : WalBlobReader) (h : DefaultLogHandle)
  : list Z :=
  ra_unique_id (src_ r) ++ handle_bytes h.

(** [head_size] and [tail_size] of [GetBlob]. *)
Definition blob_sizes (h : DefaultLogHandle) (wal_header_size : Z)
  : Outcome (Z * Z) :=
  let blob_physical_length :=
    GetPhysicalLength (Handle.length h) (Handle.offset h) wal_header_size in
  if Handle.length h <? blob_physical_length then
    let head_size := wrap64 (kBlockSize - Handle.offset h mod kBlockSize) in
    assert (negb (head_size =? 0) && negb (head_size =? kBlockSize));;
    let kBlockAvailSize := wrap64 (kBlockSize - wal_header_size) in
    Done (head_size, wrap64 (Handle.length h - head_size) mod kBlockAvailSize)
  else Done (Handle.length h, 0).

(** [const unsigned int type = header[6]]: a [char] widened. *)
Definition char_to_uint (c : Z) : Z :=
  let b := Z.land c 255 in
  if b <? 128 then b else b + 2 ^ 32 - 256.

(** The loop "check middletype crc" of [GetBlob]; [header] and [tailer]
    are distances from [slice_.data()]. *)
Fixpoint check_middle (fuel : nat) (wal_header_size : Z) (data : list Z)
    (header tailer : Z) : Outcome unit :=
  if header <=? tailer - kBlockSize then
    match fuel with
    | O => Diverge
    | S fuel' =>
        let a := byte_at data (header + 4) in
        let b := byte_at data (header + 5) in
        let type := char_to_uint (nth (Z.to_nat (header + 6)) data 0) in
        let length := Z.lor a (wrap32 (Z.shiftl b 8)) in
        assert (type =? type_code kMiddleType);;
        let expected_crc := Unmask (DecodeFixed32 data header) in
        let actual_crc :=
          crc32c_Value
            (bytes_at data (header + 6) (wrap64 (length + wal_header_size - 6))) in
        assert (actual_crc =? expected_crc);;
        check_middle fuel' wal_header_size data (header + kBlockSize) tailer
    end
  else Done tt.

(** [WalBlobReader::GetBlob(log_handle, lazy_blob)]: the status, the bytes
    [lazy_blob] shows, and the reader afterwards. *)
Definition GetBlob (r : WalBlobReader) (log_handle : DefaultLogHandle)
  : Outcome (Status * list Z * WalBlobReader) :=
  let blob_uid := GenerateCacheUniqueId r log_handle in
  match blob_cache_ r !! blob_uid with
  | Some b => Done (OK, slice_ b, r)
  | None =>
      let content := log_handle in
      let blob_physical_length :=
        GetPhysicalLength (Handle.length content) (Handle.offset content)
          (wal_header_size_ r) in
      '(head_size, tail_size) ← blob_sizes content (wal_header_size_ r);
      let blob0 := NewBlob blob_physical_length in
      let '(s, data, f) := Read (src_ r) (Handle.offset content)
                             blob_physical_length in
      let blob := {| slice_ := data;
                     buf_ := data ++ skipn (length data) (buf_ blob0);
                     size_ := size_ blob0 |} in
      assert (ok s);;
      assert (negb (Z.of_nat (length (slice_ blob)) =? 0)
              && (Z.of_nat (length (slice_ blob)) =? blob_physical_length));;
      (if negb (head_size =? 0) then
         let head_crc := Crc16c_update 0 (bytes_at (slice_ blob) 0 head_size) in
         if negb (Handle.head_crc content =? head_crc) then assert false
         else Done tt
       else Done tt);;
      (if negb (tail_size =? 0) then
         let tail_crc :=
           Crc16c_update 0
             (bytes_at (slice_ blob)
                (Z.of_nat (length (slice_ blob)) - tail_size) tail_size) in
         if negb (tail_crc =? Handle.tail_crc content) then assert false
         else Done tt
       else Done tt);;
      let header := head_size in
      let tailer := - tail_size in
      check_middle (S (Z.to_nat ((tailer - header) / kBlockSize)))
        (wal_header_size_ r) (slice_ blob) header tailer;;
      blob' ← (if negb (head_size =? Handle.length content)
               then ShrinkVal blob head_size (wal_header_size_ r)
               else Done blob);
      let cache := <[blob_uid := blob']> (blob_cache_ r) in
      Done (OK, slice_ blob', set_cache (set_src r f) cache)
  end.

End Checksums.

(** ** The index file and its directory *)

(** Modelled from the spec: [WalCfIndex], [WalIndexFooter] and
    [kWalEntrySize] are declared in db/log_writer.h.  A directory entry is
    "(cf_id: u32, offset: u64, count: u64, crc32: u32)", the footer
    "(count: u32, crc32: u32)", a tuple takes "2 * sizeof(handle) + 8"
    bytes; all are packed, least significant byte first. *)
Definition sizeof_WalCfIndex : Z := 24.
Definition sizeof_WalIndexFooter : Z := 8.
Definition kDefaultLogHandleSize : Z := 16.
Definition kWalEntrySize : Z := 2 * kDefaultLogHandleSize + 8.

Record WalCfIndex : Type := {
  id_ : Z;
  offset_ : Z;
  count_ : Z;
  crc32_ : Z
}.

Definition DecodeFixed64 (buf : list Z) (p : Z) : Z :=
  Z.lor (DecodeFixed32 buf p) (Z.shiftl (DecodeFixed32 buf (p + 4)) 32).

(** Is the range of [n] bytes at [p] inside the buffer? *)
Definition in_buffer (buf : list Z) (p n : Z) : bool :=
  (0 <=? p) && (p + n <=? Z.of_nat (length buf)).

(** The directory entry a pointer [p] into the index file shows. *)
Definition load_WalCfIndex (buf : list Z) (p : Z) : option WalCfIndex :=
  if in_buffer buf p sizeof_WalCfIndex then
    Some {| id_ := DecodeFixed32 buf p;
            offset_ := DecodeFixed64 buf (p + 4);
            count_ := DecodeFixed64 buf (p + 12);
            crc32_ := DecodeFixed32 buf (p + 20) |}
  else None.

(** The [count_] field of the footer at the end of the index file. *)
Definition load_footer_count (buf : list Z) : option Z :=
  let p := Z.of_nat (length buf) - sizeof_WalIndexFooter in
  if in_buffer buf p sizeof_WalIndexFooter
  then Some (DecodeFixed32 buf p) else None.

(** The [for] loop of [GetCFWalTupleOffsets], [todo] rounds from [i] on;
    the state is [(find, cf_offset, cf_entries)]. *)
Fixpoint scan_directory (todo : nat) (buf : list Z) (footer : Z) (cf_id : Z)
    (i : Z) (st : bool * Z * Z) : Outcome (bool * Z * Z) :=
  match todo with
  | O => Done st
  | S todo' =>
      match load_WalCfIndex buf (footer + i * sizeof_WalCfIndex) with
      | None => Fault
      | Some wci =>
          let st' :=
            if id_ wci =? cf_id then (true, offset_ wci, count_ wci) else st in
          scan_directory todo' buf footer cf_id (i + 1) st'
      end
  end.

(** [WalBlobReader::GetCFWalTupleOffsets(cf_id, &cf_offset, &cf_entries)],
    on the index file [buf] and the values the caller initialised. *)
Definition GetCFWalTupleOffsets (buf : list Z) (cf_id cf_offset cf_entries : Z)
  : Outcome (Z * Z) :=
  match load_footer_count buf with
  | None => Fault
  | Some count =>
      let cf_phy_index_size := wrap32 (count * sizeof_WalCfIndex) in
      let footer :=
        Z.of_nat (length buf) - sizeof_WalIndexFooter - cf_phy_index_size in
      '(find, off, entries) ←
        scan_directory (Z.to_nat count) buf footer cf_id 0
          (false, cf_offset, cf_entries);
      assert (find || (count =? 0));;
      Done (off, entries)
  end.

(** Modelled from the spec: the environment, as far as
    [NewIteratorWithCF] asks it about the index file of its log: the
    status and value of [GetFileSize], the status of
    [NewRandomAccessFile], the status of the read and the bytes of the
    file. *)
Record IndexEnv : Type := {
  env_size_status : Status;
  env_file_size : Z;
  env_open_status : Status;
  env_read_status : Status;
  env_index_bytes : list Z
}.

Inductive InternalIterator : Type :=
  | ErrorInternalIterator (s : Status)
  | WalBlobIterator (cf_offset cf_entries : Z).

Definition index_size (d : option (list Z)) : Z :=
  match d with Some l => Z.of_nat (length l) | None => 0 end.

Definition index_unset (d : option (list Z)) : bool :=
  match d with Some [] => true | Some _ => false | None => true end.

(** The first half of [NewIteratorWithCF]: the index file is mapped once
    and its size is compared with the size the environment reports. *)
Definition map_index_file (r : WalBlobReader) (env : IndexEnv)
  : Status * WalBlobReader :=
  let file_size := if ok (env_size_status env) then env_file_size env else 0 in
  let s0 := env_size_status env in
  let '(s1, r1) :=
    if ok s0 && index_unset (index_file_data_ r) then
      if ok (env_open_status env) then
        if ok (env_read_status env) then
          (OK, set_index_file_data r
                 (Some (bytes_at (env_index_bytes env) 0 file_size)))
        else (env_read_status env, r)
      else (env_open_status env, r)
    else (s0, r) in
  if ok s1 && negb (index_size (index_file_data_ r1) =? file_size)
  then (IOError, r1) else (s1, r1).

(** [WalBlobReader::NewIteratorWithCF(_, cf_id, ioptions, arena)]. *)
Definition NewIteratorWithCF (r : WalBlobReader) (env : IndexEnv) (cf_id : Z)
  : Outcome (InternalIterator * WalBlobReader) :=
  let '(s, r1) := map_index_file r env in
  if negb (ok s) then Done (ErrorInternalIterator s, r1)
  else
    '(cf_offset, cf_entries) ←
      GetCFWalTupleOffsets (default [] (index_file_data_ r1)) cf_id 0 0;
    assert (cf_offset mod kWalEntrySize =? 0);;
    Done (WalBlobIterator cf_offset cf_entries, r1).

(** The place of the directory in an index file whose footer counts
    [count] entries. *)
Definition directory_start (buf : list Z) (count : Z) : Z :=
  Z.of_nat (length buf) - sizeof_WalIndexFooter
  - wrap32 (count * sizeof_WalCfIndex).

(** No entry of the directory carries [cf_id]. *)
Definition cf_absent (buf : list Z) (count cf_id : Z) : Prop :=
  forall (j : Z) (wci : WalCfIndex),
    0 <= j < count ->
    load_WalCfIndex buf (directory_start buf count + j * sizeof_WalCfIndex)
    = Some wci ->
    id_ wci <> cf_id.

(** The directory lies inside the index file. *)
Definition directory_in_file (buf : list Z) (count : Z) : Prop :=
  0 <= count
  /\ count * sizeof_WalCfIndex < 2 ^ 32
  /\ count * sizeof_WalCfIndex + sizeof_WalIndexFooter
     <= Z.of_nat (length buf).

(** An index file with one directory entry, for the column family 1, and
    its environment. *)
Definition one_cf_index : list Z :=
  [1; 0; 0; 0] ++ repeat 0 20 ++ [1; 0; 0; 0] ++ [0; 0; 0; 0].

Definition one_cf_env : IndexEnv :=
  {| env_size_status := OK;
     env_file_size := 32;
     env_open_status := OK;
     env_read_status := OK;
     env_index_bytes := one_cf_index |}.

(** ** Checksums to run the model with *)

(** A CRC, bit by bit: [poly] is the reflected polynomial, [w] the width
    in bits. *)
Fixpoint crc_bits (n : nat) (poly : Z) (c : Z) : Z :=
  match n with
  | O => c
  | S n' =>
      crc_bits n' poly
        (if Z.odd c then Z.lxor (Z.shiftr c 1) poly else Z.shiftr c 1)
  end.

Definition crc_bytes (poly mask : Z) (init : Z) (data : list Z) : Z :=
  fold_left (fun c b => crc_bits 8 poly (Z.lxor c (Z.land b 255))) data
    (Z.land init mask).

(** CRC-32C (Castagnoli), as [crc32c::Extend] and [crc32c::Value] compute
    it. *)
Definition crc32c_Extend_ref (init_crc : Z) (data : list Z) : Z :=
  Z.lxor (crc_bytes 0x82F63B78 0xffffffff (Z.lxor init_crc 0xffffffff) data)
    0xffffffff.

Definition crc32c_Value_ref (data : list Z) : Z := crc32c_Extend_ref 0 data.

(** A 16-bit CRC of the same construction, standing for
    [terark::Crc16c_update]. *)
Definition Crc16c_update_ref (init_crc : Z) (data : list Z) : Z :=
  crc_bytes 0xA001 0xffff init_crc data.

(** A writer and a reader of the model, with these checksums. *)
Definition empty_file : WritableFileWriter :=
  {| wf_data := []; wf_faults := [] |}.

Definition fresh_writer : Writer :=
  NewWriter crc32c_Value_ref empty_file 1 false false.

Definition open_reader (data : list Z) : WalBlobReader :=
  {| blob_cache_ := ∅;
     wal_header_size_ := kHeaderSize;
     reader_log_number_ := 1;
     src_ := {| ra_data := data; ra_unique_id := [1];
                ra_healthy := true; ra_reads := 0 |};
     index_file_data_ := None |}.

Definition unset_wt : WriteThreadWriter :=
  {| is_recycle := false; wal_offset_of_wb_content_ := kUnsetOffset |}.

(** ** Properties the statements speak about *)

(** The writer knows where it is in the file: the file size is the blocks
    left behind plus the offset in the current block. *)
Definition block_aligned (w : Writer) : Prop :=
  GetFileSize (dest_ w) = block_counts_ w * kBlockSize + block_offset_ w
  /\ 0 <= block_offset_ w <= kBlockSize.

(** The writers a sequence of successful [AddRecord] calls leads to, from
    a new writer on an empty file. *)
Inductive reachable (crc32c_Value : list Z -> Z)
    (crc32c_Extend : Z -> list Z -> Z) : Writer -> Prop :=
  | reachable_new (faults : list bool) (log_number : Z) (manual_flush : bool) :
      reachable crc32c_Value crc32c_Extend
        (NewWriter crc32c_Value {| wf_data := []; wf_faults := faults |}
           log_number false manual_flush)
  | reachable_add (w w' : Writer) (slice : list Z) (num_entries : Z)
      (wt wt' : option WriteThreadWriter) :
      reachable crc32c_Value crc32c_Extend w ->
      AddRecord crc32c_Extend w slice num_entries wt = Done (OK, w', wt') ->
      reachable crc32c_Value crc32c_Extend w'.

(** A handle of a write thread is in order when its offset is unset or
    lies past a header in its block. *)
Definition offset_in_order (wt : option WriteThreadWriter) : Prop :=
  exists t, wt = Some t
    /\ (wal_offset_of_wb_content_ t = kUnsetOffset
        \/ kHeaderSize <= wal_offset_of_wb_content_ t mod kBlockSize).

(** ** The writer when the file refuses nothing *)

(** The header of a legacy fragment, as [EmitPhysicalRecord] lays it
    out. *)
Definition legacy_header (crc32c_Extend : Z -> list Z -> Z) (w : Writer)
    (t : RecordType) (data : list Z) : list Z :=
  let n := Z.of_nat (length data) in
  EncodeFixed32
    (Mask (crc32c_Extend (nth (Z.to_nat (type_code t)) (type_crc_ w) 0) data))
  ++ [Z.land n 255; Z.land (Z.shiftr n 8) 255; type_code t].

Definition with_data (w : Writer) (data : list Z) : Writer :=
  set_dest w {| wf_data := data; wf_faults := [] |}.

(** The writer after the first part of the loop body. *)
Definition padded (w : Writer) : Writer :=
  if kBlockSize - block_offset_ w <? kHeaderSize then
    set_block
      (with_data w
         (wf_data (dest_ w)
          ++ repeat 0 (Z.to_nat (kBlockSize - block_offset_ w))))
      0 (block_counts_ w + 1)
  else w.

(** The writer after a legacy fragment. *)
Definition emitted (crc32c_Extend : Z -> list Z -> Z) (w : Writer)
    (t : RecordType) (data : list Z) : Writer :=
  set_block
    (with_data w
       (wf_data (dest_ w) ++ legacy_header crc32c_Extend w t data ++ data))
    (block_offset_ w + kHeaderSize + Z.of_nat (length data))
    (block_counts_ w).

(** The handle after the offset has been looked at. *)
Definition recorded (w : Writer) (avail : Z) (wt : option WriteThreadWriter)
  : option WriteThreadWriter :=
  match wt with
  | Some t =>
      if wal_offset_of_wb_content_ t =? kUnsetOffset then
        Some {| is_recycle := is_recycle t;
                wal_offset_of_wb_content_ :=
                  GetFirstEntryPhysicalOffset (GetFileSize (dest_ w))
                    kHeaderSize avail |}
      else wt
  | None => None
  end.

(** ** Handles *)

(** Modelled from the spec: the handle of a payload is made outside this
    file.  Its [offset] is the recorded offset, its [length] the length of
    the payload, [head_crc] the "CRC16C over the first head_size bytes of
    the reconstructed payload, where head_size = BLOCK_SIZE - (offset mod
    BLOCK_SIZE) if the record spans blocks, else equals length", and
    [tail_crc] the "CRC16C over the last tail_size bytes; tail_size =
    (length - head_size) mod (BLOCK_SIZE - header_size)". *)
Definition make_handle (Crc16c_update : Z -> list Z -> Z)
    (header_size off : Z) (P : list Z) : DefaultLogHandle :=
  let len := Z.of_nat (length P) in
  let avail_first := kBlockSize - off mod kBlockSize in
  let head_size := if len <=? avail_first then len else avail_first in
  let tail_size :=
    if len <=? avail_first then 0
    else (len - head_size) mod (kBlockSize - header_size) in
  {| Handle.offset := off;
     Handle.length := len;
     Handle.head_crc := Crc16c_update 0 (bytes_at P 0 head_size);
     Handle.tail_crc := Crc16c_update 0 (bytes_at P (len - tail_size) tail_size) |}.

(** The room for payload in the block the next record starts in. *)
Definition first_avail (w : Writer) : Z :=
  kBlockSize - block_offset_ (padded w) - kHeaderSize.

(** Do two buffers hold the same bytes? *)
Fixpoint bytes_eqb (a b : list Z) : bool :=
  match a, b with
  | [], [] => true
  | x :: a', y :: b' => (x =? y) && bytes_eqb a' b'
  | _, _ => false
  end.

(** Writing [P] with the reference checksums, then reading it back
    through a new reader of the file written: did [P] come back? *)
Definition round_trip_ok (w : Writer) (P : list Z) : bool :=
  match AddRecord crc32c_Extend_ref w P 1 (Some unset_wt) with
  | Done (OK, w', Some t') =>
      match GetBlob crc32c_Value_ref Crc16c_update_ref
              (open_reader (wf_data (dest_ w')))
              (make_handle Crc16c_update_ref kHeaderSize
                 (wal_offset_of_wb_content_ t') P) with
      | Done (OK, out, _) => bytes_eqb out P
      | _ => false
      end
  | _ => false
  end.

(** ** A small log to run the reader on *)

(** The file a new writer leaves after the record "hi". *)
Definition hi_file : list Z :=
  match AddRecord crc32c_Extend_ref fresh_writer [104; 105] 1 (Some unset_wt)
  with
  | Done (_, w, _) => wf_data (dest_ w)
  | _ => []
  end.

(** The handle of that record: its payload starts past the header. *)
Definition hi_handle : DefaultLogHandle :=
  {| Handle.offset := 7;
     Handle.length := 2;
     Handle.head_crc := Crc16c_update_ref 0 [104; 105];
     Handle.tail_crc := 0 |}.

(** ** A record of three fragments *)

(** [n] bytes counting up from [i], modulo 251. *)
Fixpoint ramp (n : nat) (i : Z) : list Z :=
  match n with
  | O => []
  | S n' => i mod 251 :: ramp n' (i + 1)
  end.

(** Two full blocks of payload and one byte more: a new writer emits it
    as FIRST, MIDDLE and LAST. *)
Definition long_payload : list Z := ramp (Z.to_nat (2 * 32761 + 1)) 0.

Definition long_file : list Z :=
  match AddRecord crc32c_Extend_ref fresh_writer long_payload 1 (Some unset_wt)
  with
  | Done (_, w, _) => wf_data (dest_ w)
  | _ => []
  end.

(** Its handle: the head is the payload of the first block, the tail the
    single byte of the last fragment. *)
Definition long_handle : DefaultLogHandle :=
  {| Handle.offset := 7;
     Handle.length := 2 * 32761 + 1;
     Handle.head_crc := Crc16c_update_ref 0 (bytes_at long_payload 0 32761);
     Handle.tail_crc :=
       Crc16c_update_ref 0 (bytes_at long_payload (2 * 32761) 1) |}.

(** The same file with the byte at [p] replaced by [b]. *)
Definition poke (file : list Z) (p b : Z) : list Z :=
  firstn (Z.to_nat p) file ++ b :: skipn (Z.to_nat (p + 1)) file.

(** The size of the header [EmitPhysicalRecord] writes for a type. *)
Definition header_size_of (t : RecordType) : Z :=
  if type_code t <? type_code kRecyclableFullType
  then kHeaderSize else kRecyclableHeaderSize.

(** Where the loop of [AddRecord] can be left with an error: the padding
    of a block was refused (the state is the one [switch_block] leaves),
    or a fragment was (the state is the one [EmitPhysicalRecord]
    leaves). *)
Definition left_at_error (crc32c_Extend : Z -> list Z -> Z) (w' : Writer)
  : Prop :=
  (exists w0, switch_block w0 kHeaderSize = Done (inl (IOError, w')))
  \/ (exists w1 t data,
        header_size_of t = kHeaderSize
        /\ EmitPhysicalRecord crc32c_Extend w1 t data = Done (IOError, w')).

(** The two rotations inside [Mask] and [Unmask]. *)
Definition rotr15 (x : Z) : Z :=
  Z.lor (Z.shiftr x 15) (wrap32 (Z.shiftl x 17)).

Definition rotl15 (x : Z) : Z :=
  Z.lor (Z.shiftr x 17) (wrap32 (Z.shiftl x 15)).

(** ** The rounds of the loop of [AddRecord] *)

(** [fragment_length] in a round of the loop that has the writer [w1]
    behind [switch_block] and [rest] still to write. *)
Definition round_length (w1 : Writer) (rest : list Z) : Z :=
  let left := Z.of_nat (length rest) in
  let avail := wrap64 (kBlockSize - block_offset_ w1 - kHeaderSize) in
  if left <? avail then left else avail.

(** [type] in that round. *)
Definition round_type (w1 : Writer) (rest : list Z) (begin : bool)
  : RecordType :=
  fragment_type (recycle_log_files_ w1) begin
    (Z.of_nat (length rest) =? round_length w1 rest).

(** The writer, the bytes left and [begin] after [k] rounds of the loop
    of [AddRecord] that started from [w] with [rest]: rounds in which no
    call was refused and after which the loop went on. *)
Fixpoint after_rounds (crc32c_Extend : Z -> list Z -> Z) (k : nat)
    (w : Writer) (rest : list Z) (begin : bool)
  : option (Writer * list Z * bool) :=
  match k with
  | O => Some (w, rest, begin)
  | S k' =>
      match switch_block w kHeaderSize with
      | Done (inr w1) =>
          let fragment_length := round_length w1 rest in
          match EmitPhysicalRecord crc32c_Extend w1
                  (round_type w1 rest begin)
                  (firstn (Z.to_nat fragment_length) rest) with
          | Done (OK, w2) =>
              let rest' := skipn (Z.to_nat fragment_length) rest in
              if 0 <? Z.of_nat (length rest')
              then after_rounds crc32c_Extend k' w2 rest' false
              else None
          | _ => None
          end
      | _ => None
      end
  end.

(** Where the writer takes the end of the file to be. *)
Definition position (w : Writer) : Z :=
  block_counts_ w * kBlockSize + block_offset_ w.

(** A new writer on a file that refuses the first call. *)
Definition refused_writer : Writer :=
  NewWriter crc32c_Value_ref
    {| wf_data := []; wf_faults := [true] |} 1 false false.

(** ** Further notions the properties speak about *)

(** A handle of a write thread whose offset is not asked for any more. *)
Definition wt_settled (wt : option WriteThreadWriter) : Prop :=
  match wt with
  | Some t => wal_offset_of_wb_content_ t <> kUnsetOffset
  | None => True
  end.


(** ** The index writer *)

(** Modelled from the spec: the bytes of a [WalCfIndex] as [WriteFooter]
    appends them, "(cf_id: u32, offset: u64, count: u64, crc32: u32)",
    packed, least significant byte first. *)
Definition WalCfIndex_bytes (e : WalCfIndex) : list Z :=
  EncodeFixed32 (id_ e) ++ EncodeFixed64 (offset_ e)
  ++ EncodeFixed64 (count_ e) ++ EncodeFixed32 (crc32_ e).

Record WalIndexWriter : Type := {
  index_file_ : WritableFileWriter;
  cf_indexes_ : list WalCfIndex
}.

(** Modelled from the spec: a tuple starts with the handle of its key, so
    the [length] of [DefaultLogHandle content(t.second.GetSlice())] is the
    32-bit field behind the eight bytes of the offset. *)
Definition tuple_handle_length (t : list Z) : Z := DecodeFixed32 t 8.

Section IndexChecksums.

Variable crc32c_Extend : Z -> list Z -> Z.

(** The [for] loop of [WalIndexWriter::WriteCF]: the status of the last
    append, the file and the checksum so far. *)
Fixpoint WriteCF_loop (f : WritableFileWriter) (crc32 : Z)
    (entries : list (list Z)) : Outcome (Status * WritableFileWriter * Z) :=
  match entries with
  | [] => Done (OK, f, crc32)
  | t :: rest =>
      assert (negb (tuple_handle_length t =? 0));;
      let '(status, f') := Append f t in
      let crc32' := crc32c_Extend crc32 t in
      if negb (ok status) then Done (status, f', crc32')
      else WriteCF_loop f' crc32' rest
  end.

(** [WalIndexWriter::WriteCF(cf_id, sorted_entries)]; an entry is the
    slice of its [WalEntry]. *)
Definition WriteCF (iw : WalIndexWriter) (cf_id : Z)
    (sorted_entries : list (list Z)) : Outcome (Status * WalIndexWriter) :=
  let offset := GetFileSize (index_file_ iw) in
  assert (offset mod kWalEntrySize =? 0);;
  '(status, f, crc32) ← WriteCF_loop (index_file_ iw) 0 sorted_entries;
  if negb (ok status) then
    Done (status, {| index_file_ := f; cf_indexes_ := cf_indexes_ iw |})
  else
    Done (status,
          {| index_file_ := f;
             cf_indexes_ :=
               cf_indexes_ iw
               ++ [{| id_ := cf_id;
                      offset_ := offset;
                      count_ := Z.of_nat (length sorted_entries);
                      crc32_ := crc32 |}] |}).

(** The [for] loop of [WalIndexWriter::WriteFooter]. *)
Fixpoint WriteFooter_loop (f : WritableFileWriter) (crc32 : Z)
    (es : list WalCfIndex) : Status * WritableFileWriter * Z :=
  match es with
  | [] => (OK, f, crc32)
  | i :: rest =>
      let '(s, f') := Append f (WalCfIndex_bytes i) in
      if negb (ok s) then (s, f', crc32)
      else WriteFooter_loop f' (crc32c_Extend crc32 (WalCfIndex_bytes i)) rest
  end.

(** [WalIndexWriter::WriteFooter()]. *)
Definition WriteFooter (iw : WalIndexWriter) : Status * WalIndexWriter :=
  let '(s, f, crc32) := WriteFooter_loop (index_file_ iw) 0 (cf_indexes_ iw) in
  if negb (ok s) then
    (s, {| index_file_ := f; cf_indexes_ := cf_indexes_ iw |})
  else
    let count := wrap32 (Z.of_nat (length (cf_indexes_ iw))) in
    let crc := crc32c_Extend crc32 (EncodeFixed32 count) in
    let '(s2, f2) := Append f (EncodeFixed32 count ++ EncodeFixed32 crc) in
    (s2, {| index_file_ := f2; cf_indexes_ := cf_indexes_ iw |}).

End IndexChecksums.

(** A directory entry whose fields fit their widths. *)
Definition entry_fits (e : WalCfIndex) : Prop :=
  0 <= id_ e < 2 ^ 32 /\ 0 <= offset_ e < 2 ^ 64
  /\ 0 <= count_ e < 2 ^ 64 /\ 0 <= crc32_ e < 2 ^ 32.

(** A tuple of the index file: forty bytes, the key handle first, with a
    length that is not zero. *)
Definition sample_tuple (key_length : Z) : list Z :=
  EncodeFixed64 7 ++ EncodeFixed32 key_length ++ repeat 0 28.

(** The environment that shows an index file with the bytes [bytes] and
    refuses nothing. *)
Definition index_env (bytes : list Z) : IndexEnv :=
  {| env_size_status := OK;
     env_file_size := Z.of_nat (length bytes);
     env_open_status := OK;
     env_read_status := OK;
     env_index_bytes := bytes |}.

(** A new index writer on an empty file. *)
Definition new_index_writer (faults : list bool) : WalIndexWriter :=
  {| index_file_ := {| wf_data := []; wf_faults := faults |};
     cf_indexes_ := [] |}.

(** A directory in which the id 5 is listed twice. *)
Definition twice_listed : list WalCfIndex :=
  [ {| id_ := 5; offset_ := 0; count_ := 1; crc32_ := 0 |};
    {| id_ := 9; offset_ := 40; count_ := 1; crc32_ := 0 |};
    {| id_ := 5; offset_ := 80; count_ := 2; crc32_ := 0 |} ].

(** An index file that ends with that directory and its footer. *)
Definition twice_listed_index : list Z :=
  repeat 0 160 ++ concat (map WalCfIndex_bytes twice_listed)
  ++ EncodeFixed32 3 ++ EncodeFixed32 0.

(** An index writer that holds that directory, behind four tuples. *)
Definition twice_listed_writer : WalIndexWriter :=
  {| index_file_ := {| wf_data := repeat 0 160; wf_faults := [] |};
     cf_indexes_ := twice_listed |}.

(** An environment that still reports the size of the index file, but
    can no longer open or read it. *)
Definition closed_env (file_size : Z) : IndexEnv :=
  {| env_size_status := OK;
     env_file_size := file_size;
     env_open_status := IOError;
     env_read_status := IOError;
     env_index_bytes := [] |}.

(** An index file whose footer counts three entries, with no room for
    them in front of it. *)
Definition overcounted_index : list Z :=
  repeat 0 40 ++ EncodeFixed32 3 ++ EncodeFixed32 0.

(** A new writer on a file that takes one call and refuses the next. *)
Definition refusing_writer : Writer :=
  NewWriter crc32c_Value_ref
    {| wf_data := []; wf_faults := [false; true] |} 1 false false.

(** A reader of the file [hi_file] whose reads fail. *)
Definition unhealthy_reader : WalBlobReader :=
  {| blob_cache_ := ∅;
     wal_header_size_ := kHeaderSize;
     reader_log_number_ := 1;
     src_ := {| ra_data := hi_file; ra_unique_id := [1];
                ra_healthy := false; ra_reads := 0 |};
     index_file_data_ := None |}.

(** A reader that has mapped the index file [twice_listed_index]. *)
Definition mapped_reader : WalBlobReader :=
  set_index_file_data (open_reader []) (Some twice_listed_index).

(** ** Bit-level facts about the rotation *)

Lemma wrap32_range (x : Z) : 0 <= wrap32 x < 2 ^ 32.
Proof. unfold wrap32. apply Z.mod_pos_bound. lia. Qed.

Lemma wrap32_small (x : Z) : 0 <= x < 2 ^ 32 -> wrap32 x = x.
Proof. intros H. unfold wrap32. apply Z.mod_small. exact H. Qed.

Lemma wrap32_testbit (x n : Z) :
  Z.testbit (wrap32 x) n = (n <? 32) && Z.testbit x n.
Proof.
  unfold wrap32. destruct (Z.ltb_spec n 32) as [Hlt | Hge]; simpl.
  - destruct (Z.ltb_spec n 0) as [Hneg | Hnn].
    + rewrite !Z.testbit_neg_r by lia. reflexivity.
    + apply Z.mod_pow2_bits_low. lia.
  - apply Z.mod_pow2_bits_high. lia.
Qed.

Lemma testbit_high_32 (x n : Z) :
  0 <= x < 2 ^ 32 -> 32 <= n -> Z.testbit x n = false.
Proof.
  intros Hx Hn. rewrite <- (wrap32_small x Hx), wrap32_testbit.
  destruct (Z.ltb_spec n 32); [lia | reflexivity].
Qed.

Lemma rotr15_range (x : Z) : 0 <= x < 2 ^ 32 -> 0 <= rotr15 x < 2 ^ 32.
Proof.
  intros Hx. unfold rotr15.
  pose proof (wrap32_range (Z.shiftl x 17)) as Hw.
  assert (Hs : 0 <= Z.shiftr x 15 < 2 ^ 32).
  { rewrite Z.shiftr_div_pow2 by lia. split.
    - apply Z.div_pos; lia.
    - apply Z.div_lt_upper_bound; lia. }
  split.
  - apply Z.lor_nonneg. lia.
  - destruct (Z.eq_dec (Z.lor (Z.shiftr x 15) (wrap32 (Z.shiftl x 17))) 0)
      as [E | NE]; [rewrite E; lia |].
    apply Z.log2_lt_pow2.
    + assert (0 <= Z.lor (Z.shiftr x 15) (wrap32 (Z.shiftl x 17)))
        by (apply Z.lor_nonneg; lia). lia.
    + rewrite Z.log2_lor by lia.
      apply Z.max_lub_lt.
      * destruct (Z.eq_dec (Z.shiftr x 15) 0) as [E0 | N0];
          [rewrite E0; simpl; lia | apply Z.log2_lt_pow2; lia].
      * destruct (Z.eq_dec (wrap32 (Z.shiftl x 17)) 0) as [E0 | N0];
          [rewrite E0; simpl; lia | apply Z.log2_lt_pow2; lia].
Qed.

Lemma rotl15_rotr15 (x : Z) : 0 <= x < 2 ^ 32 -> rotl15 (rotr15 x) = x.
Proof.
  intros Hx. apply Z.bits_inj'. intros n Hn.
  unfold rotl15, rotr15.
  rewrite Z.lor_spec, Z.shiftr_spec by lia.
  rewrite wrap32_testbit, Z.lor_spec, Z.shiftr_spec by lia.
  rewrite wrap32_testbit.
  destruct (Z.ltb_spec n 32) as [Hlt | Hge]; simpl.
  - destruct (Z.ltb_spec n 15) as [Hl | Hg].
    + rewrite (Z.shiftl_spec_low _ 15 n) by lia.
      rewrite orb_false_r.
      rewrite (testbit_high_32 x (n + 17 + 15)) by lia. simpl.
      destruct (Z.ltb_spec (n + 17) 32); [| lia]. simpl.
      rewrite Z.shiftl_spec by lia. f_equal. lia.
    + rewrite (Z.shiftl_spec _ 15 n) by lia.
      rewrite Z.lor_spec, wrap32_testbit, Z.shiftr_spec by lia.
      rewrite (testbit_high_32 x (n + 17 + 15)) by lia. simpl.
      destruct (Z.ltb_spec (n + 17) 32) as [H1 | H1]; simpl; [lia |].
      destruct (Z.ltb_spec (n - 15) 32) as [H2 | H2]; simpl; [| lia].
      rewrite (Z.shiftl_spec_low _ 17 (n - 15)) by lia.
      rewrite orb_false_r. f_equal. lia.
  - rewrite (testbit_high_32 x n) by lia.
    rewrite orb_false_r.
    rewrite (testbit_high_32 x (n + 17 + 15)) by lia. simpl.
    destruct (Z.ltb_spec (n + 17) 32); [lia | reflexivity].
Qed.

(** C8. For every 32-bit value [x], [Unmask (Mask x) = x]: the reader
    recovers the checksum the writer stored. *)
Theorem Unmask_Mask (x : Z) : 0 <= x < 2 ^ 32 -> Unmask (Mask x) = x.
Proof.
  intros Hx. unfold Unmask, Mask. fold (rotr15 x).
  pose proof (rotr15_range x Hx) as Hr.
  assert (E : wrap32 (wrap32 (rotr15 x + kMaskDelta) - kMaskDelta) = rotr15 x).
  { unfold wrap32. rewrite Zminus_mod_idemp_l.
    replace (rotr15 x + kMaskDelta - kMaskDelta) with (rotr15 x) by lia.
    apply Z.mod_small. exact Hr. }
  rewrite E. fold (rotl15 (rotr15 x)). apply rotl15_rotr15. exact Hx.
Qed.

Lemma Unmask_Mask_witness :
  0 <= 0xdeadbeef < 2 ^ 32 /\ Unmask (Mask 0xdeadbeef) = 0xdeadbeef.
Proof. split; [lia | apply (Unmask_Mask 0xdeadbeef); lia]. Defined.

(** ** Machine arithmetic inside its range *)

Lemma wrap64_small (x : Z) : 0 <= x < 2 ^ 64 -> wrap64 x = x.
Proof. intros H. unfold wrap64. apply Z.mod_small. exact H. Qed.

Lemma wrap64_range (x : Z) : 0 <= wrap64 x < 2 ^ 64.
Proof. unfold wrap64. apply Z.mod_pos_bound. lia. Qed.

Lemma to_int64_small (x : Z) : 0 <= x < 2 ^ 63 -> to_int64 x = x.
Proof.
  intros H. unfold to_int64. rewrite wrap64_small by lia.
  destruct (Z.ltb_spec x (2 ^ 63)); [reflexivity | lia].
Qed.

Lemma to_int64_range (x : Z) : - 2 ^ 63 <= to_int64 x < 2 ^ 63.
Proof.
  unfold to_int64. pose proof (wrap64_range x).
  destruct (Z.ltb_spec (wrap64 x) (2 ^ 63)); lia.
Qed.

(** ** Outcomes of the steps *)

Ltac obind := unfold mbind, Outcome_bind, bind in *.

Lemma assert_Done (c : bool) (u : unit) : assert c = Done u -> c = true.
Proof. destruct c; [reflexivity | discriminate]. Qed.

Lemma bind_assert_Done {A : Type} (c : bool) (k : Outcome A) (a : A) :
  (assert c;; k) = Done a -> c = true /\ k = Done a.
Proof. destruct c; obind; simpl; [auto | discriminate]. Qed.

Lemma bind_assert_true {A : Type} (c : bool) (k : Outcome A) :
  c = true -> (assert c;; k) = k.
Proof. intros ->. reflexivity. Qed.

Lemma bind_Done_inv {A B : Type} (m : Outcome A) (k : A -> Outcome B) (b : B) :
  (m ≫= k) = Done b -> exists a, m = Done a /\ k a = Done b.
Proof. destruct m; obind; try discriminate. intros H. eauto. Qed.

(** ** The file under [Append] and [Flush] *)

Lemma Append_spec (f f' : WritableFileWriter) (bytes : list Z) (s : Status) :
  Append f bytes = (s, f') ->
  (s = OK /\ wf_data f' = wf_data f ++ bytes)
  \/ (s = IOError /\ wf_data f' = wf_data f
      /\ exists fs, wf_faults f = true :: fs).
Proof.
  unfold Append. destruct (wf_faults f) as [| [|] fs] eqn:E;
    intros [= <- <-]; simpl; eauto 6.
Qed.

Lemma Append_no_fault (f : WritableFileWriter) (bytes : list Z) :
  wf_faults f = [] ->
  Append f bytes = (OK, {| wf_data := wf_data f ++ bytes; wf_faults := [] |}).
Proof. intros E. unfold Append. rewrite E. reflexivity. Qed.

Lemma Flush_spec (f f' : WritableFileWriter) (s : Status) :
  Flush f = (s, f') -> wf_data f' = wf_data f.
Proof.
  unfold Flush. destruct (wf_faults f) as [| [|] fs];
    intros [= <- <-]; reflexivity.
Qed.

Lemma Flush_no_fault (f : WritableFileWriter) :
  wf_faults f = [] -> Flush f = (OK, f).
Proof. intros E. unfold Flush. rewrite E. reflexivity. Qed.

(** ** One physical record *)

Section EmitFacts.

Variable crc32c_Extend : Z -> list Z -> Z.

(** Whatever the status, [EmitPhysicalRecord] leaves the block offset
    [header_size + n] further, inside the block; with status [OK] the file
    has grown by one header and the payload. *)
Lemma EmitPhysicalRecord_inv (w w2 : Writer) (t : RecordType)
    (data : list Z) (s : Status) :
  EmitPhysicalRecord crc32c_Extend w t data = Done (s, w2) ->
  block_offset_ w2
  = block_offset_ w + header_size_of t + Z.of_nat (length data)
  /\ block_offset_ w + header_size_of t + Z.of_nat (length data) <= kBlockSize
  /\ block_counts_ w2 = block_counts_ w
  /\ num_entries_ w2 = num_entries_ w
  /\ recycle_log_files_ w2 = recycle_log_files_ w
  /\ (s = OK -> exists hdr,
        Z.of_nat (length hdr) = header_size_of t
        /\ wf_data (dest_ w2) = wf_data (dest_ w) ++ hdr ++ data).
Proof.
  unfold EmitPhysicalRecord, header_size_of.
  intros H. apply bind_assert_Done in H as [_ H].
  destruct (type_code t <? type_code kRecyclableFullType).
  - obind. simpl in H.
    destruct (block_offset_ w + kHeaderSize + Z.of_nat (length data)
              <=? kBlockSize) eqn:Hfit; simpl in H; [| discriminate].
    apply Z.leb_le in Hfit.
    destruct (Append (dest_ w) _) as [s1 d1] eqn:A1.
    apply Append_spec in A1.
    destruct s1; simpl in H.
    + destruct (Append d1 data) as [s2 d2] eqn:A2.
      apply Append_spec in A2.
      destruct A1 as [[_ E1] | [? _]]; [| discriminate].
      destruct s2; simpl in H.
      * destruct A2 as [[_ E2] | [? _]]; [| discriminate].
        destruct (negb (manual_flush_ w)).
        -- destruct (Flush d2) as [s3 d3] eqn:F3. apply Flush_spec in F3.
           injection H as <- <-. simpl. repeat split; try lia; try reflexivity.
           intros _. eexists. split; [| rewrite F3, E2, E1, <- app_assoc;
                                          reflexivity].
           reflexivity.
        -- injection H as <- <-. simpl. repeat split; try lia; try reflexivity.
           intros _. eexists. split; [| rewrite E2, E1, <- app_assoc;
                                          reflexivity].
           reflexivity.
      * injection H as <- <-. simpl. repeat split; try lia; try reflexivity.
        discriminate.
    + injection H as <- <-. simpl. repeat split; try lia; try reflexivity.
      discriminate.
  - obind. simpl in H.
    destruct (block_offset_ w + kRecyclableHeaderSize + Z.of_nat (length data)
              <=? kBlockSize) eqn:Hfit; simpl in H; [| discriminate].
    apply Z.leb_le in Hfit.
    destruct (Append (dest_ w) _) as [s1 d1] eqn:A1.
    apply Append_spec in A1.
    destruct s1; simpl in H.
    + destruct (Append d1 data) as [s2 d2] eqn:A2.
      apply Append_spec in A2.
      destruct A1 as [[_ E1] | [? _]]; [| discriminate].
      destruct s2; simpl in H.
      * destruct A2 as [[_ E2] | [? _]]; [| discriminate].
        destruct (negb (manual_flush_ w)).
        -- destruct (Flush d2) as [s3 d3] eqn:F3. apply Flush_spec in F3.
           injection H as <- <-. simpl. repeat split; try lia; try reflexivity.
           intros _. eexists. split; [| rewrite F3, E2, E1, <- app_assoc;
                                          reflexivity].
           reflexivity.
        -- injection H as <- <-. simpl. repeat split; try lia; try reflexivity.
           intros _. eexists. split; [| rewrite E2, E1, <- app_assoc;
                                          reflexivity].
           reflexivity.
      * injection H as <- <-. simpl. repeat split; try lia; try reflexivity.
        discriminate.
    + injection H as <- <-. simpl. repeat split; try lia; try reflexivity.
      discriminate.
Qed.

End EmitFacts.

(** ** The steps of the loop of [AddRecord] *)

Lemma switch_block_inv (w : Writer) (hs : Z)
    (r : Status * Writer + Writer) :
  0 <= block_offset_ w <= kBlockSize ->
  switch_block w hs = Done r ->
  match r with
  | inl (s, w1) =>
      s = IOError /\ kBlockSize - block_offset_ w < hs
      /\ block_offset_ w1 = block_offset_ w
      /\ block_counts_ w1 = block_counts_ w
      /\ num_entries_ w1 = num_entries_ w
  | inr w1 =>
      num_entries_ w1 = num_entries_ w
      /\ recycle_log_files_ w1 = recycle_log_files_ w
      /\ ((hs <= kBlockSize - block_offset_ w /\ w1 = w)
          \/ (kBlockSize - block_offset_ w < hs
              /\ block_offset_ w1 = 0
              /\ block_counts_ w1 = block_counts_ w + 1
              /\ wf_data (dest_ w1)
                 = wf_data (dest_ w)
                   ++ repeat 0 (Z.to_nat (kBlockSize - block_offset_ w))))
  end.
Proof.
  intros Hbo. unfold switch_block.
  rewrite to_int64_small by (unfold kBlockSize in *; lia).
  intros H. apply bind_assert_Done in H as [_ H].
  destruct (Z.ltb_spec (kBlockSize - block_offset_ w) hs) as [Hlt | Hge].
  - destruct (Z.ltb_spec 0 (kBlockSize - block_offset_ w)) as [Hpos | Hz].
    + apply bind_assert_Done in H as [_ H].
      destruct (Append (dest_ w) _) as [s d] eqn:A.
      apply Append_spec in A.
      destruct s; simpl in H; injection H as <-.
      * destruct A as [[_ E] | [? _]]; [| discriminate].
        simpl. repeat split; try reflexivity. right. repeat split; auto.
      * simpl. repeat split; auto.
    + injection H as <-. simpl. repeat split; try reflexivity. right.
      repeat split; [exact Hlt |].
      replace (kBlockSize - block_offset_ w) with 0 by lia.
      simpl. rewrite app_nil_r. reflexivity.
  - injection H as <-. repeat split; try reflexivity. left. split; [lia | auto].
Qed.

Lemma record_offset_inv (w : Writer) (hs avail : Z)
    (wt wt1 : option WriteThreadWriter) :
  record_offset w hs avail wt = Done wt1 ->
  match wt with
  | None => wt1 = None
  | Some t =>
      if wal_offset_of_wb_content_ t =? kUnsetOffset then
        exists off,
          wt1 = Some {| is_recycle := is_recycle t;
                        wal_offset_of_wb_content_ := off |}
          /\ off = GetFirstEntryPhysicalOffset (GetFileSize (dest_ w)) hs avail
          /\ hs <= off mod kBlockSize
      else wt1 = wt
  end.
Proof.
  unfold record_offset. destruct wt as [t |]; [| congruence].
  destruct (wal_offset_of_wb_content_ t =? kUnsetOffset); [| congruence].
  intros H. apply bind_assert_Done in H as [_ H].
  apply bind_assert_Done in H as [Hleg H].
  injection H as <-. eexists. repeat split. apply Z.leb_le. exact Hleg.
Qed.

(** The offset the model of [GetFirstEntryPhysicalOffset] gives lies past
    a header in its block: the assertion on it in [AddRecord] cannot
    fail for a writer that knows where it is. *)
Lemma GetFirstEntryPhysicalOffset_legal (file_size hs avail : Z) :
  0 <= file_size -> 0 <= hs < kBlockSize ->
  file_size mod kBlockSize + hs + avail = kBlockSize ->
  hs <= GetFirstEntryPhysicalOffset file_size hs avail mod kBlockSize.
Proof.
  intros Hfs Hhs Hav. unfold GetFirstEntryPhysicalOffset.
  pose proof (Z.mod_pos_bound file_size kBlockSize eq_refl) as Hm.
  destruct (Z.leb_spec hs avail) as [Hle | Hgt].
  - rewrite <- (Zplus_mod_idemp_l file_size hs kBlockSize).
    rewrite Z.mod_small; lia.
  - rewrite Z.add_comm, Z.mod_add by (unfold kBlockSize; lia).
    rewrite Z.mod_small; lia.
Qed.

Lemma header_size_of_legacy (begin end_ : bool) :
  header_size_of (fragment_type false begin end_) = kHeaderSize.
Proof. destruct begin, end_; reflexivity. Qed.

Lemma switch_block_offset (w w1 : Writer) (hs : Z) :
  0 <= block_offset_ w <= kBlockSize -> 0 <= hs <= kBlockSize ->
  switch_block w hs = Done (inr w1) ->
  0 <= block_offset_ w1 /\ block_offset_ w1 + hs <= kBlockSize.
Proof.
  intros Hbo Hhs H. apply switch_block_inv in H; [| exact Hbo].
  destruct H as (_ & _ & [[Hfit ->] | (Hs & -> & _)]); lia.
Qed.

Section LoopFacts.

Variable crc32c_Extend : Z -> list Z -> Z.

(** One round of the loop of [AddRecord], for the legacy format: either
    the padding could not be written and the loop is left, or one
    fragment of [min left avail] bytes is emitted and the loop goes on
    with the rest. *)
Lemma AddRecord_loop_step (fuel : nat) (w : Writer)
    (wt : option WriteThreadWriter) (rest : list Z) (begin : bool)
    (res : Status * Writer * option WriteThreadWriter) :
  0 <= block_offset_ w <= kBlockSize ->
  recycle_log_files_ w = false ->
  AddRecord_loop crc32c_Extend (S fuel) kHeaderSize w wt rest begin = Done res ->
  (exists w1,
     switch_block w kHeaderSize = Done (inl (IOError, w1))
     /\ res = (IOError, w1, wt))
  \/ (exists w1 wt1 s w2,
        let avail := kBlockSize - block_offset_ w1 - kHeaderSize in
        let frag := Z.min (Z.of_nat (length rest)) avail in
        switch_block w kHeaderSize = Done (inr w1)
        /\ 0 <= block_offset_ w1
        /\ 0 <= avail
        /\ recycle_log_files_ w1 = false
        /\ record_offset w1 kHeaderSize avail wt = Done wt1
        /\ EmitPhysicalRecord crc32c_Extend w1
             (fragment_type false begin (Z.of_nat (length rest) =? frag))
             (firstn (Z.to_nat frag) rest) = Done (s, w2)
        /\ (if ok s && (0 <? Z.of_nat (length (skipn (Z.to_nat frag) rest)))
            then AddRecord_loop crc32c_Extend fuel kHeaderSize w2 wt1
                   (skipn (Z.to_nat frag) rest) false = Done res
            else res = (s, w2, wt1))).
Proof.
  intros Hbo Hrc H. cbn [AddRecord_loop] in H.
  apply bind_Done_inv in H as (r & Hsw & H).
  pose proof (switch_block_inv _ _ _ Hbo Hsw) as Hinv.
  destruct r as [[s w1] | w1].
  - destruct Hinv as (-> & _). injection H as <-. left. eauto.
  - right.
    assert (Hhs : 0 <= kHeaderSize <= kBlockSize)
      by (unfold kHeaderSize, kBlockSize; lia).
    pose proof (switch_block_offset _ _ _ Hbo Hhs Hsw) as [Hlo Hhi].
    destruct Hinv as (_ & Hrc1 & _). rewrite Hrc in Hrc1.
    apply bind_assert_Done in H as [_ H].
    rewrite (wrap64_small (kBlockSize - block_offset_ w1 - kHeaderSize)) in H
      by (unfold kBlockSize, kHeaderSize in *; lia).
    set (avail := kBlockSize - block_offset_ w1 - kHeaderSize) in *.
    assert (Hfrag : (if Z.of_nat (length rest) <? avail
                     then Z.of_nat (length rest) else avail)
                    = Z.min (Z.of_nat (length rest)) avail).
    { destruct (Z.ltb_spec (Z.of_nat (length rest)) avail); lia. }
    rewrite Hfrag in H. rewrite Hrc1 in H.
    apply bind_Done_inv in H as (wt1 & Hrec & H).
    apply bind_Done_inv in H as ([s w2] & Hemit & H).
    exists w1, wt1, s, w2. cbv zeta. fold avail.
    repeat split; try assumption; try (subst avail; lia).
    destruct (ok s && _); [exact H | congruence].
Qed.

End LoopFacts.

(** ** Block alignment *)

Lemma switch_block_aligned (w w1 : Writer) (hs : Z) :
  block_aligned w ->
  switch_block w hs = Done (inr w1) -> block_aligned w1.
Proof.
  intros [Hsz Hbo] H. apply switch_block_inv in H; [| exact Hbo].
  destruct H as (_ & _ & [[_ ->] | (Hlt & Hbo1 & Hbc1 & Hdata)]).
  - split; assumption.
  - unfold block_aligned, GetFileSize in *.
    rewrite Hdata, Hbo1, Hbc1, length_app, repeat_length.
    unfold kBlockSize in *. lia.
Qed.

Lemma EmitPhysicalRecord_aligned (crc32c_Extend : Z -> list Z -> Z)
    (w w2 : Writer) (t : RecordType) (data : list Z) :
  block_aligned w -> 0 <= header_size_of t ->
  EmitPhysicalRecord crc32c_Extend w t data = Done (OK, w2) ->
  block_aligned w2.
Proof.
  intros [Hsz Hbo] Hhs H. apply EmitPhysicalRecord_inv in H.
  destruct H as (Hbo2 & Hfit & Hbc2 & _ & _ & Hdata).
  destruct (Hdata eq_refl) as (hdr & Hlen & E).
  unfold block_aligned, GetFileSize in *.
  rewrite E, Hbo2, Hbc2, !length_app. lia.
Qed.

Section Alignment.

Variable crc32c_Value : list Z -> Z.
Variable crc32c_Extend : Z -> list Z -> Z.

Lemma AddRecord_loop_aligned (fuel : nat) :
  forall (w : Writer) (wt : option WriteThreadWriter) (rest : list Z)
         (begin : bool) (w' : Writer) (wt' : option WriteThreadWriter),
    recycle_log_files_ w = false ->
    block_aligned w ->
    AddRecord_loop crc32c_Extend fuel kHeaderSize w wt rest begin
    = Done (OK, w', wt') ->
    block_aligned w' /\ recycle_log_files_ w' = false.
Proof.
  induction fuel as [| fuel IH]; intros w wt rest begin w' wt' Hrc Hal H;
    [discriminate |].
  apply AddRecord_loop_step in H; [| apply Hal | exact Hrc].
  destruct H as [(w1 & _ & [=]) | (w1 & wt1 & s & w2 & H)].
  cbv zeta in H.
  destruct H as (Hsw & _ & _ & Hrc1 & _ & Hemit & Hnext).
  pose proof (switch_block_aligned _ _ _ Hal Hsw) as Hal1.
  destruct s; cycle 1.
  { simpl in Hnext. discriminate. }
  assert (Hal2 : block_aligned w2).
  { eapply EmitPhysicalRecord_aligned; [exact Hal1 | | exact Hemit].
    rewrite header_size_of_legacy. unfold kHeaderSize. lia. }
  assert (Hrc2 : recycle_log_files_ w2 = false).
  { apply EmitPhysicalRecord_inv in Hemit.
    destruct Hemit as (_ & _ & _ & _ & E & _). congruence. }
  destruct (ok OK && _).
  - eapply IH; eassumption.
  - injection Hnext as <- <-. split; assumption.
Qed.

Lemma AddRecord_preserves_aligned (w w' : Writer) (slice : list Z)
    (num_entries : Z) (wt wt' : option WriteThreadWriter) :
  block_aligned w ->
  AddRecord crc32c_Extend w slice num_entries wt = Done (OK, w', wt') ->
  block_aligned w'.
Proof.
  intros Hal H. unfold AddRecord in H.
  apply bind_assert_Done in H as [Hrc H].
  apply negb_true_iff in Hrc. rewrite Hrc in H.
  apply bind_Done_inv in H as ([[s w1] wt1] & Hloop & H).
  injection H as -> <- <-.
  apply AddRecord_loop_aligned in Hloop; [| exact Hrc | exact Hal].
  destruct Hloop as [Hal1 _]. exact Hal1.
Qed.

Lemma NewWriter_aligned (faults : list bool) (log_number : Z)
    (recycle manual_flush : bool) :
  block_aligned
    (NewWriter crc32c_Value {| wf_data := []; wf_faults := faults |}
       log_number recycle manual_flush).
Proof. split; simpl; unfold kBlockSize; try reflexivity; lia. Qed.

(** Every writer reached from a new one by successful calls knows where
    it is in the file. *)
Lemma reachable_block_aligned (w : Writer) :
  reachable crc32c_Value crc32c_Extend w -> block_aligned w.
Proof.
  induction 1 as [faults ln mf | w w' slice n wt wt' _ IH Hadd].
  - apply NewWriter_aligned.
  - eapply AddRecord_preserves_aligned; eassumption.
Qed.

(** C4, as the code has it.  After every [AddRecord] that returns [OK],
    for every payload and every reachable writer, the file size is
    [block_counts_ * kBlockSize + block_offset_] and the block offset is
    at most [kBlockSize]: it is [kBlockSize] itself when the record ends
    where the block ends. *)
Theorem AddRecord_block_alignment (w w' : Writer) (slice : list Z)
    (num_entries : Z) (wt wt' : option WriteThreadWriter) :
  reachable crc32c_Value crc32c_Extend w ->
  AddRecord crc32c_Extend w slice num_entries wt = Done (OK, w', wt') ->
  GetFileSize (dest_ w') = block_counts_ w' * kBlockSize + block_offset_ w'
  /\ 0 <= block_offset_ w' <= kBlockSize.
Proof.
  intros Hreach Hadd.
  eapply AddRecord_preserves_aligned; [| exact Hadd].
  apply reachable_block_aligned. exact Hreach.
Qed.

End Alignment.

Lemma AddRecord_block_alignment_witness :
  exists w' wt',
    AddRecord crc32c_Extend_ref fresh_writer [104; 105] 1 (Some unset_wt)
    = Done (OK, w', wt')
    /\ GetFileSize (dest_ w') = block_counts_ w' * kBlockSize + block_offset_ w'
    /\ 0 <= block_offset_ w' <= kBlockSize.
Proof.
  eexists _, _. split; [vm_compute; reflexivity |].
  eapply (AddRecord_block_alignment crc32c_Value_ref crc32c_Extend_ref
            fresh_writer _ [104; 105] 1 (Some unset_wt)).
  - apply (reachable_new crc32c_Value_ref crc32c_Extend_ref [] 1 false).
  - vm_compute. reflexivity.
Defined.

(** A payload of [kBlockSize - kHeaderSize] bytes written by a new
    writer fills the first block to its end. *)
Lemma AddRecord_full_block_run :
  match AddRecord crc32c_Extend_ref fresh_writer
          (repeat 97 (Z.to_nat 32761)) 1 None with
  | Done (OK, w', _) => block_offset_ w' =? kBlockSize
  | _ => false
  end = true.
Proof. vm_compute. reflexivity. Qed.

(** C4 as stated fails: after the record of [AddRecord_full_block_run],
    [AddRecord] has returned [OK] with [block_offset_ = kBlockSize]. *)
Lemma AddRecord_block_offset_reaches_kBlockSize :
  ~ (forall (w w' : Writer) (slice : list Z) (num_entries : Z)
            (wt wt' : option WriteThreadWriter),
       reachable crc32c_Value_ref crc32c_Extend_ref w ->
       AddRecord crc32c_Extend_ref w slice num_entries wt = Done (OK, w', wt') ->
       GetFileSize (dest_ w')
       = block_counts_ w' * kBlockSize + block_offset_ w'
       /\ block_offset_ w' < kBlockSize).
Proof.
  intros H. pose proof AddRecord_full_block_run as X.
  destruct (AddRecord crc32c_Extend_ref fresh_writer
              (repeat 97 (Z.to_nat 32761)) 1 None)
    as [[[s w'] wt'] | | |] eqn:E; [| discriminate X ..].
  destruct s; [| discriminate X].
  apply Z.eqb_eq in X.
  specialize (H fresh_writer w' _ _ _ _
                (reachable_new crc32c_Value_ref crc32c_Extend_ref [] 1 false) E).
  lia.
Qed.

(** ** The recorded offset *)

Lemma record_offset_in_order (w : Writer) (avail : Z)
    (wt wt1 : option WriteThreadWriter) :
  offset_in_order wt ->
  record_offset w kHeaderSize avail wt = Done wt1 ->
  offset_in_order wt1.
Proof.
  intros (t & -> & Ht) H. apply record_offset_inv in H.
  destruct (wal_offset_of_wb_content_ t =? kUnsetOffset).
  - destruct H as (off & -> & _ & Hleg). eexists. split; [reflexivity |].
    right. exact Hleg.
  - subst wt1. exists t. auto.
Qed.

Section RecordedOffset.

Variable crc32c_Value : list Z -> Z.
Variable crc32c_Extend : Z -> list Z -> Z.

Lemma AddRecord_loop_offset_in_order (fuel : nat) :
  forall (w : Writer) (wt : option WriteThreadWriter) (rest : list Z)
         (begin : bool) (s : Status) (w' : Writer)
         (wt' : option WriteThreadWriter),
    recycle_log_files_ w = false ->
    0 <= block_offset_ w <= kBlockSize ->
    offset_in_order wt ->
    AddRecord_loop crc32c_Extend fuel kHeaderSize w wt rest begin
    = Done (s, w', wt') ->
    offset_in_order wt'.
Proof.
  induction fuel as [| fuel IH]; intros w wt rest begin s w' wt' Hrc Hbo Hwt H;
    [discriminate |].
  apply AddRecord_loop_step in H; [| exact Hbo | exact Hrc].
  destruct H as [(w1 & _ & [= _ _ <-]) | (w1 & wt1 & s1 & w2 & H)];
    [exact Hwt |].
  cbv zeta in H.
  destruct H as (Hsw & Hlo & Hav & Hrc1 & Hrec & Hemit & Hnext).
  pose proof (record_offset_in_order _ _ _ _ Hwt Hrec) as Hwt1.
  apply EmitPhysicalRecord_inv in Hemit.
  destruct Hemit as (Hbo2 & Hfit & _ & _ & Hrc2 & _).
  rewrite header_size_of_legacy in *.
  destruct (ok s1 && _).
  - eapply IH; [| | exact Hwt1 | exact Hnext].
    + congruence.
    + unfold kHeaderSize in *. lia.
  - injection Hnext as _ _ <-. exact Hwt1.
Qed.

(** C5. Whatever offset [AddRecord] records into the handle of a write
    thread whose offset was unset lies at least [kHeaderSize] bytes into
    its block. *)
Theorem AddRecord_recorded_offset_legal (w w' : Writer) (slice : list Z)
    (num_entries : Z) (t : WriteThreadWriter) (s : Status)
    (wt' : option WriteThreadWriter) :
  reachable crc32c_Value crc32c_Extend w ->
  wal_offset_of_wb_content_ t = kUnsetOffset ->
  AddRecord crc32c_Extend w slice num_entries (Some t) = Done (s, w', wt') ->
  exists t',
    wt' = Some t'
    /\ (wal_offset_of_wb_content_ t' <> kUnsetOffset ->
        kHeaderSize <= wal_offset_of_wb_content_ t' mod kBlockSize).
Proof.
  intros Hreach Hunset H.
  apply reachable_block_aligned in Hreach. destruct Hreach as [_ Hbo].
  unfold AddRecord in H.
  apply bind_assert_Done in H as [Hrc H].
  apply negb_true_iff in Hrc. rewrite Hrc in H.
  apply bind_Done_inv in H as ([[s1 w1] wt1] & Hloop & H).
  injection H as <- <- <-.
  apply AddRecord_loop_offset_in_order in Hloop; [| exact Hrc | exact Hbo |].
  - destruct Hloop as (t' & -> & [E | Hleg]); exists t';
      (split; [reflexivity | intros Hset]); [contradiction | exact Hleg].
  - eexists. split; [reflexivity |]. left. exact Hunset.
Qed.

End RecordedOffset.

Lemma AddRecord_recorded_offset_legal_witness :
  exists w' t',
    AddRecord crc32c_Extend_ref fresh_writer [104; 105] 1 (Some unset_wt)
    = Done (OK, w', Some t')
    /\ wal_offset_of_wb_content_ t' = 7
    /\ (wal_offset_of_wb_content_ t' <> kUnsetOffset ->
        kHeaderSize <= wal_offset_of_wb_content_ t' mod kBlockSize).
Proof.
  eexists _, _. split; [vm_compute; reflexivity |].
  split; [reflexivity |].
  destruct (AddRecord_recorded_offset_legal crc32c_Value_ref crc32c_Extend_ref
              fresh_writer _ [104; 105] 1 unset_wt OK _
              (reachable_new crc32c_Value_ref crc32c_Extend_ref [] 1 false)
              eq_refl ltac:(vm_compute; reflexivity))
    as (t' & E & Hleg).
  injection E as <-. exact Hleg.
Defined.

Lemma switch_block_break (w w1 : Writer) (hs : Z) (s : Status) :
  switch_block w hs = Done (inl (s, w1)) ->
  block_offset_ w1 = block_offset_ w /\ block_counts_ w1 = block_counts_ w.
Proof.
  unfold switch_block. intros H. apply bind_assert_Done in H as [_ H].
  destruct (_ <? hs); [| discriminate].
  destruct (0 <? _); [| discriminate].
  apply bind_assert_Done in H as [_ H].
  destruct (Append _ _) as [s0 d0]. destruct (ok s0); [discriminate |].
  injection H as <- <-. split; reflexivity.
Qed.

(** ** Errors in the middle of a record *)

Lemma round_length_min (w1 : Writer) (rest : list Z) :
  0 <= block_offset_ w1 ->
  0 <= kBlockSize - block_offset_ w1 - kHeaderSize ->
  round_length w1 rest
  = Z.min (Z.of_nat (length rest))
      (kBlockSize - block_offset_ w1 - kHeaderSize).
Proof.
  intros Hlo Hav. unfold round_length.
  rewrite wrap64_small by (unfold kBlockSize, kHeaderSize in *; lia).
  destruct (Z.ltb_spec (Z.of_nat (length rest))
              (kBlockSize - block_offset_ w1 - kHeaderSize)); lia.
Qed.

Lemma switch_block_position (w w1 : Writer) :
  0 <= block_offset_ w <= kBlockSize ->
  switch_block w kHeaderSize = Done (inr w1) ->
  position w <= position w1.
Proof.
  intros Hbo H. apply switch_block_inv in H; [| exact Hbo].
  destruct H as (_ & _ & [[_ ->] | (_ & Hb & Hc & _)]); [lia |].
  unfold position. rewrite Hb, Hc. unfold kBlockSize in *. lia.
Qed.

Section ErrorPath.

Variable crc32c_Value : list Z -> Z.
Variable crc32c_Extend : Z -> list Z -> Z.

Lemma AddRecord_loop_exit (fuel : nat) :
  forall (w : Writer) (wt : option WriteThreadWriter) (rest : list Z)
         (begin : bool) (s : Status) (w' : Writer)
         (wt' : option WriteThreadWriter),
    recycle_log_files_ w = false ->
    0 <= block_offset_ w <= kBlockSize ->
    AddRecord_loop crc32c_Extend fuel kHeaderSize w wt rest begin
    = Done (s, w', wt') ->
    num_entries_ w' = num_entries_ w
    /\ (s = IOError -> left_at_error crc32c_Extend w').
Proof.
  induction fuel as [| fuel IH]; intros w wt rest begin s w' wt' Hrc Hbo H;
    [discriminate |].
  apply AddRecord_loop_step in H; [| exact Hbo | exact Hrc].
  destruct H as [(w1 & Hsw & [= <- <- <-]) | (w1 & wt1 & s1 & w2 & H)].
  - pose proof (switch_block_inv _ _ _ Hbo Hsw) as (_ & _ & _ & _ & Hn).
    split; [exact Hn |]. intros _. left. eauto.
  - cbv zeta in H.
    destruct H as (Hsw & Hlo & Hav & Hrc1 & Hrec & Hemit & Hnext).
    pose proof (switch_block_inv _ _ _ Hbo Hsw) as (Hn1 & _).
    pose proof (EmitPhysicalRecord_inv _ _ _ _ _ _ Hemit)
      as (Hbo2 & Hfit & _ & Hn2 & Hrc2 & _).
    rewrite header_size_of_legacy in *.
    destruct (ok s1 && _) eqn:Hgo.
    + apply IH in Hnext; [| congruence | unfold kHeaderSize in *; lia].
      destruct Hnext as [Hn Herr]. split; [congruence | exact Herr].
    + injection Hnext as <- <- <-. split; [congruence |].
      intros ->. right. eexists _, _, _. split; [| exact Hemit].
      apply header_size_of_legacy.
Qed.

(** A loop that ends with an error has gone through some rounds without
    one, and its writer is the one the refused step of the next round
    has left. *)
Lemma AddRecord_loop_refused (fuel : nat) :
  forall (w : Writer) (wt : option WriteThreadWriter) (rest : list Z)
         (begin : bool) (w' : Writer) (wt' : option WriteThreadWriter),
    recycle_log_files_ w = false ->
    0 <= block_offset_ w <= kBlockSize ->
    AddRecord_loop crc32c_Extend fuel kHeaderSize w wt rest begin
    = Done (IOError, w', wt') ->
    exists (k : nat) (wk : Writer) (rest' : list Z) (begin' : bool),
      after_rounds crc32c_Extend k w rest begin = Some (wk, rest', begin')
      /\ position w <= position wk
      /\ (switch_block wk kHeaderSize = Done (inl (IOError, w'))
          \/ exists w1,
               switch_block wk kHeaderSize = Done (inr w1)
               /\ position wk <= position w1
               /\ recycle_log_files_ w1 = false
               /\ 0 <= round_length w1 rest' <= Z.of_nat (length rest')
               /\ EmitPhysicalRecord crc32c_Extend w1
                    (round_type w1 rest' begin')
                    (firstn (Z.to_nat (round_length w1 rest')) rest')
                  = Done (IOError, w')).
Proof.
  induction fuel as [| fuel IH]; intros w wt rest begin w' wt' Hrc Hbo H;
    [discriminate H |].
  apply AddRecord_loop_step in H; [| exact Hbo | exact Hrc].
  destruct H as [(w1 & Hsw & [= <- <-]) | (w1 & wt1 & s1 & w2 & H)].
  - exists 0%nat, w, rest, begin. split; [reflexivity |].
    split; [lia |]. left. exact Hsw.
  - cbv zeta in H.
    destruct H as (Hsw & Hlo & Hav & Hrc1 & Hrec & Hemit & Hnext).
    pose proof (round_length_min w1 rest Hlo Hav) as Hlen.
    pose proof (switch_block_position _ _ Hbo Hsw) as Hpos1.
    assert (Hty : round_type w1 rest begin
                  = fragment_type false begin
                      (Z.of_nat (length rest)
                       =? Z.min (Z.of_nat (length rest))
                            (kBlockSize - block_offset_ w1 - kHeaderSize))).
    { unfold round_type. rewrite Hrc1, Hlen. reflexivity. }
    pose proof (EmitPhysicalRecord_inv _ _ _ _ _ _ Hemit)
      as (Hbo2 & Hfit & Hc2 & _ & Hrc2 & _).
    rewrite header_size_of_legacy in Hbo2, Hfit.
    destruct (ok s1 && _) eqn:Hgo.
    + apply andb_true_iff in Hgo as [Hs1 Hmore].
      destruct s1; [| discriminate Hs1].
      apply IH in Hnext; [| congruence | unfold kHeaderSize in *; lia].
      destruct Hnext as (k & wk & rest' & begin' & Hk & Hposk & Hend).
      exists (S k), wk, rest', begin'. split.
      * cbn [after_rounds]. rewrite Hsw, Hty, Hlen, Hemit, Hmore. exact Hk.
      * split; [| exact Hend].
        assert (position w1 <= position w2).
        { unfold position. rewrite Hbo2, Hc2. unfold kHeaderSize. lia. }
        lia.
    + injection Hnext as -> <- <-.
      exists 0%nat, w, rest, begin. split; [reflexivity |].
      split; [lia |]. right. exists w1. split; [exact Hsw |].
      split; [exact Hpos1 |]. split; [exact Hrc1 |].
      split; [rewrite Hlen; lia |].
      rewrite Hty, Hlen. exact Hemit.
Qed.

(** C10. [AddRecord] does not undo anything when it returns an error.
    [num_entries_] has grown by [num_entries] whatever the status.  After
    an error the loop has gone through [k] rounds without one, from [w]
    and [slice] to a writer [wk] with [rest] still to write, and the
    writer returned is the one the refused step of the next round has
    left, with the entries counted: when the padding of the block was
    refused, the block offset and the block count are those of [wk]; when
    a call for the fragment was refused, the block offset lies past the
    header and the payload of that fragment, and the writer takes the end
    of the file to be at least a header further on than before the
    call. *)
Theorem AddRecord_error_not_rolled_back (w w' : Writer) (slice : list Z)
    (num_entries : Z) (wt wt' : option WriteThreadWriter) (s : Status) :
  reachable crc32c_Value crc32c_Extend w ->
  AddRecord crc32c_Extend w slice num_entries wt = Done (s, w', wt') ->
  num_entries_ w' = wrap64 (num_entries_ w + num_entries)
  /\ (s = IOError ->
      exists (k : nat) (wk : Writer) (rest : list Z) (begin : bool),
        after_rounds crc32c_Extend k w slice true = Some (wk, rest, begin)
        /\ ((exists wE,
               switch_block wk kHeaderSize = Done (inl (IOError, wE))
               /\ w' = set_num_entries wE
                         (wrap64 (num_entries_ w + num_entries))
               /\ block_offset_ w' = block_offset_ wk
               /\ block_counts_ w' = block_counts_ wk
               /\ position w <= position w')
            \/ (exists w1 wE,
                  switch_block wk kHeaderSize = Done (inr w1)
                  /\ EmitPhysicalRecord crc32c_Extend w1
                       (round_type w1 rest begin)
                       (firstn (Z.to_nat (round_length w1 rest)) rest)
                     = Done (IOError, wE)
                  /\ w' = set_num_entries wE
                            (wrap64 (num_entries_ w + num_entries))
                  /\ block_offset_ w'
                     = block_offset_ w1 + kHeaderSize + round_length w1 rest
                  /\ block_counts_ w' = block_counts_ w1
                  /\ position w + kHeaderSize <= position w'))).
Proof.
  intros Hreach H.
  apply reachable_block_aligned in Hreach. destruct Hreach as [_ Hbo].
  unfold AddRecord in H.
  apply bind_assert_Done in H as [Hrc H].
  apply negb_true_iff in Hrc. rewrite Hrc in H.
  apply bind_Done_inv in H as ([[s1 w1] wt1] & Hloop & H).
  injection H as <- <- <-.
  pose proof (AddRecord_loop_exit _ _ _ _ _ _ _ _ Hrc Hbo Hloop)
    as [Hn _].
  cbn [num_entries_ set_num_entries]. split; [congruence |].
  intros ->. rewrite Hn.
  apply AddRecord_loop_refused in Hloop; [| exact Hrc | exact Hbo].
  destruct Hloop as (k & wk & rest & begin & Hk & Hposk & Hend).
  exists k, wk, rest, begin. split; [exact Hk |].
  destruct Hend as [Hsw | (wa & Hsw & Hposa & Hrca & Hlen & Hemit)].
  - left. exists w1. split; [exact Hsw |]. split; [reflexivity |].
    apply switch_block_break in Hsw. destruct Hsw as [E1 E2].
    cbn [block_offset_ block_counts_ set_num_entries].
    split; [exact E1 |]. split; [exact E2 |].
    unfold position in *. cbn [block_offset_ block_counts_ set_num_entries].
    rewrite E1, E2. lia.
  - right. exists wa, w1. split; [exact Hsw |]. split; [exact Hemit |].
    split; [reflexivity |].
    apply EmitPhysicalRecord_inv in Hemit.
    destruct Hemit as (E1 & _ & E2 & _).
    unfold round_type in E1.
    rewrite Hrca, header_size_of_legacy in E1.
    assert (Hfl : Z.of_nat (length (firstn (Z.to_nat (round_length wa rest))
                                      rest))
                  = round_length wa rest)
      by (rewrite length_firstn; lia).
    rewrite Hfl in E1.
    cbn [block_offset_ block_counts_ set_num_entries].
    split; [exact E1 |]. split; [exact E2 |].
    unfold position in *. cbn [block_offset_ block_counts_ set_num_entries].
    rewrite E1, E2. unfold kHeaderSize in *. lia.
Qed.

End ErrorPath.

(** A header that the file refuses: nothing is written, yet the block
    offset is 9 and two entries are counted. *)
Lemma AddRecord_error_not_rolled_back_witness :
  exists w',
    AddRecord crc32c_Extend_ref refused_writer [104; 105] 2 None
    = Done (IOError, w', None)
    /\ wf_data (dest_ w') = []
    /\ block_offset_ w' = 9
    /\ num_entries_ w' = wrap64 (num_entries_ refused_writer + 2)
    /\ (IOError = IOError ->
        exists (k : nat) (wk : Writer) (rest : list Z) (begin : bool),
          after_rounds crc32c_Extend_ref k refused_writer [104; 105] true
          = Some (wk, rest, begin)
          /\ ((exists wE,
                 switch_block wk kHeaderSize = Done (inl (IOError, wE))
                 /\ w' = set_num_entries wE
                           (wrap64 (num_entries_ refused_writer + 2))
                 /\ block_offset_ w' = block_offset_ wk
                 /\ block_counts_ w' = block_counts_ wk
                 /\ position refused_writer <= position w')
              \/ (exists w1 wE,
                    switch_block wk kHeaderSize = Done (inr w1)
                    /\ EmitPhysicalRecord crc32c_Extend_ref w1
                         (round_type w1 rest begin)
                         (firstn (Z.to_nat (round_length w1 rest)) rest)
                       = Done (IOError, wE)
                    /\ w' = set_num_entries wE
                              (wrap64 (num_entries_ refused_writer + 2))
                    /\ block_offset_ w'
                       = block_offset_ w1 + kHeaderSize
                         + round_length w1 rest
                    /\ block_counts_ w' = block_counts_ w1
                    /\ position refused_writer + kHeaderSize
                       <= position w'))).
Proof.
  eexists. split; [vm_compute; reflexivity |].
  split; [reflexivity |]. split; [reflexivity |].
  apply (AddRecord_error_not_rolled_back crc32c_Value_ref crc32c_Extend_ref
           refused_writer _ [104; 105] 2 None None IOError).
  - apply (reachable_new crc32c_Value_ref crc32c_Extend_ref [true] 1 false).
  - vm_compute. reflexivity.
Defined.

(** ** The loop when the file refuses nothing *)

Lemma set_dest_same (w : Writer) : set_dest w (dest_ w) = w.
Proof. destruct w; reflexivity. Qed.

Lemma switch_block_padded (w : Writer) :
  0 <= block_offset_ w <= kBlockSize ->
  wf_faults (dest_ w) = [] ->
  switch_block w kHeaderSize = Done (inr (padded w))
  /\ wf_faults (dest_ (padded w)) = []
  /\ 0 <= block_offset_ (padded w)
  /\ block_offset_ (padded w) + kHeaderSize <= kBlockSize
  /\ recycle_log_files_ (padded w) = recycle_log_files_ w
  /\ (block_aligned w -> block_aligned (padded w)).
Proof.
  intros Hbo Hnf. unfold switch_block, padded.
  rewrite to_int64_small by (unfold kBlockSize in *; lia).
  rewrite bind_assert_true by (apply Z.leb_le; lia).
  destruct (Z.ltb_spec (kBlockSize - block_offset_ w) kHeaderSize)
    as [Hlt | Hge].
  - assert (Hal : block_aligned w ->
                  block_aligned
                    (set_block
                       (with_data w
                          (wf_data (dest_ w)
                           ++ repeat 0 (Z.to_nat (kBlockSize - block_offset_ w))))
                       0 (block_counts_ w + 1))).
    { intros [Hsz _]. unfold block_aligned, GetFileSize in *. simpl.
      rewrite length_app, repeat_length. unfold kBlockSize in *. lia. }
    destruct (Z.ltb_spec 0 (kBlockSize - block_offset_ w)) as [Hpos | Hz].
    + rewrite bind_assert_true by reflexivity.
      rewrite Append_no_fault by exact Hnf. simpl.
      split_and!; try reflexivity; try (unfold kHeaderSize, kBlockSize; lia).
      exact Hal.
    + assert (Hend : block_offset_ w = kBlockSize) by lia.
      clear Hal.
      replace (kBlockSize - block_offset_ w) with 0 by lia.
      simpl. rewrite app_nil_r.
      assert (E : with_data w (wf_data (dest_ w)) = w).
      { unfold with_data. rewrite <- (set_dest_same w) at 3. f_equal.
        destruct (dest_ w) as [d f]. simpl in *. subst f. reflexivity. }
      rewrite E. simpl.
      split_and!; try reflexivity; try (unfold kHeaderSize, kBlockSize; lia);
        try exact Hnf.
      intros [Hsz _]. unfold block_aligned, GetFileSize in *. simpl.
      unfold kBlockSize in *. lia.
  - split_and!; try assumption; try reflexivity; try lia; auto.
Qed.

Lemma record_offset_recorded (w : Writer) (wt : option WriteThreadWriter) :
  block_aligned w ->
  GetFileSize (dest_ w) < 2 ^ 64 ->
  block_offset_ w + kHeaderSize <= kBlockSize ->
  record_offset w kHeaderSize (kBlockSize - block_offset_ w - kHeaderSize) wt
  = Done (recorded w (kBlockSize - block_offset_ w - kHeaderSize) wt).
Proof.
  intros [Hsz Hbo] Hlt Hfit. unfold record_offset, recorded.
  destruct wt as [t |]; [| reflexivity].
  destruct (wal_offset_of_wb_content_ t =? kUnsetOffset); [| reflexivity].
  assert (Hfs : 0 <= GetFileSize (dest_ w)) by (unfold GetFileSize; lia).
  rewrite bind_assert_true.
  - rewrite bind_assert_true; [reflexivity |].
    apply Z.leb_le. apply GetFirstEntryPhysicalOffset_legal.
    + exact Hfs.
    + unfold kHeaderSize, kBlockSize. lia.
    + rewrite Hsz.
      replace (block_counts_ w * kBlockSize + block_offset_ w)
        with (block_offset_ w + block_counts_ w * kBlockSize) by lia.
      rewrite Z.mod_add by (unfold kBlockSize; lia).
      rewrite Z.mod_small; unfold kHeaderSize, kBlockSize in *; lia.
  - apply Z.eqb_eq. rewrite <- Hsz. symmetry. apply wrap64_small. lia.
Qed.

Lemma EmitPhysicalRecord_emitted (crc32c_Extend : Z -> list Z -> Z)
    (w : Writer) (begin end_ : bool) (data : list Z) :
  wf_faults (dest_ w) = [] ->
  block_offset_ w + kHeaderSize + Z.of_nat (length data) <= kBlockSize ->
  0 <= block_offset_ w ->
  EmitPhysicalRecord crc32c_Extend w (fragment_type false begin end_) data
  = Done (OK, emitted crc32c_Extend w (fragment_type false begin end_) data).
Proof.
  intros Hnf Hfit Hbo. unfold EmitPhysicalRecord.
  rewrite bind_assert_true
    by (apply Z.leb_le; unfold kBlockSize, kHeaderSize in *; lia).
  assert (Hleg : (type_code (fragment_type false begin end_)
                  <? type_code kRecyclableFullType) = true)
    by (destruct begin, end_; reflexivity).
  rewrite Hleg.
  rewrite bind_assert_true by (apply Z.leb_le; exact Hfit).
  obind. cbv beta iota.
  rewrite app_nil_r.
  rewrite Append_no_fault by exact Hnf. cbn [ok].
  rewrite Append_no_fault by reflexivity. cbn [ok wf_data].
  unfold emitted, with_data, legacy_header.
  destruct (negb (manual_flush_ w)).
  - rewrite Flush_no_fault by reflexivity.
    rewrite <- !app_assoc. reflexivity.
  - rewrite <- !app_assoc. reflexivity.
Qed.

Lemma padded_file_size (w : Writer) :
  0 <= block_offset_ w <= kBlockSize ->
  GetFileSize (dest_ w) <= GetFileSize (dest_ (padded w))
                        < GetFileSize (dest_ w) + kHeaderSize.
Proof.
  intros Hbo. unfold padded, GetFileSize.
  destruct (Z.ltb_spec (kBlockSize - block_offset_ w) kHeaderSize).
  - simpl. rewrite length_app, repeat_length. unfold kHeaderSize in *. lia.
  - unfold kHeaderSize. lia.
Qed.

Section FaultFree.

Variable crc32c_Extend : Z -> list Z -> Z.

(** One round of the loop when no call on the file fails. *)
Lemma AddRecord_loop_run (fuel : nat) (w : Writer)
    (wt : option WriteThreadWriter) (rest : list Z) (begin : bool) :
  block_aligned w ->
  wf_faults (dest_ w) = [] ->
  recycle_log_files_ w = false ->
  GetFileSize (dest_ w) + kBlockSize < 2 ^ 64 ->
  AddRecord_loop crc32c_Extend (S fuel) kHeaderSize w wt rest begin
  = let w1 := padded w in
    let avail := kBlockSize - block_offset_ w1 - kHeaderSize in
    let frag := Z.min (Z.of_nat (length rest)) avail in
    let wt1 := recorded w1 avail wt in
    let w2 :=
      emitted crc32c_Extend w1
        (fragment_type false begin (Z.of_nat (length rest) =? frag))
        (firstn (Z.to_nat frag) rest) in
    if 0 <? Z.of_nat (length (skipn (Z.to_nat frag) rest))
    then AddRecord_loop crc32c_Extend fuel kHeaderSize w2 wt1
           (skipn (Z.to_nat frag) rest) false
    else Done (OK, w2, wt1).
Proof.
  intros Hal Hnf Hrc Hsz. cbn [AddRecord_loop].
  destruct (switch_block_padded w (proj2 Hal) Hnf)
    as (Hsw & Hnf1 & Hlo & Hhi & Hrc1 & Hal1).
  specialize (Hal1 Hal). rewrite Hrc in Hrc1.
  pose proof (padded_file_size w (proj2 Hal)) as Hpf.
  rewrite Hsw. obind. cbv beta iota.
  rewrite to_int64_small by (unfold kBlockSize, kHeaderSize in *; lia).
  replace (kHeaderSize <=? kBlockSize - block_offset_ (padded w)) with true
    by (symmetry; apply Z.leb_le; lia).
  cbn [assert].
  rewrite (wrap64_small (kBlockSize - block_offset_ (padded w) - kHeaderSize))
    by (unfold kBlockSize, kHeaderSize in *; lia).
  set (avail := kBlockSize - block_offset_ (padded w) - kHeaderSize).
  assert (Hfrag : (if Z.of_nat (length rest) <? avail
                   then Z.of_nat (length rest) else avail)
                  = Z.min (Z.of_nat (length rest)) avail).
  { destruct (Z.ltb_spec (Z.of_nat (length rest)) avail); lia. }
  rewrite Hfrag, Hrc1.
  subst avail.
  rewrite record_offset_recorded;
    [| exact Hal1 | unfold kHeaderSize, kBlockSize in *; lia | exact Hhi].
  set (avail := kBlockSize - block_offset_ (padded w) - kHeaderSize).
  rewrite EmitPhysicalRecord_emitted; [reflexivity | exact Hnf1 | | exact Hlo].
  rewrite length_take. subst avail. lia.
Qed.

Lemma emitted_facts (w : Writer) (t : RecordType) (data : list Z) :
  block_aligned w ->
  block_offset_ w + kHeaderSize + Z.of_nat (length data) <= kBlockSize ->
  block_aligned (emitted crc32c_Extend w t data)
  /\ wf_faults (dest_ (emitted crc32c_Extend w t data)) = []
  /\ recycle_log_files_ (emitted crc32c_Extend w t data)
     = recycle_log_files_ w
  /\ GetFileSize (dest_ (emitted crc32c_Extend w t data))
     = GetFileSize (dest_ w) + kHeaderSize + Z.of_nat (length data).
Proof.
  intros [Hsz Hbo] Hfit. unfold block_aligned, emitted, GetFileSize in *.
  simpl. rewrite !length_app. simpl.
  unfold kHeaderSize in *. split_and!; try reflexivity; lia.
Qed.

End FaultFree.

(** ** The writer on an empty record *)

Section EmptyRecord.

Variable crc32c_Value : list Z -> Z.
Variable crc32c_Extend : Z -> list Z -> Z.

(** Extending the checksum of the type byte by no bytes leaves it as it
    is. *)
Hypothesis Extend_nil :
  crc32c_Extend (crc32c_Value [type_code kFullType]) []
  = crc32c_Value [type_code kFullType].

(** C6. From a new writer (block offset 0, legacy header of 7 bytes),
    [AddRecord] of the empty payload succeeds and emits exactly the seven
    bytes of one header: the masked checksum of the type byte alone,
    length 0 and type FULL; the block offset is then 7. *)
Theorem AddRecord_empty_payload
    (log_number num_entries : Z) (manual_flush : bool)
    (wt : option WriteThreadWriter) :
  exists w' wt',
    AddRecord crc32c_Extend
      (NewWriter crc32c_Value empty_file log_number false manual_flush)
      [] num_entries wt = Done (OK, w', wt')
    /\ wf_data (dest_ w')
       = EncodeFixed32 (Mask (crc32c_Value [type_code kFullType]))
         ++ [0; 0; type_code kFullType]
    /\ GetFileSize (dest_ w') = 7
    /\ block_offset_ w' = 7.
Proof.
  set (w := NewWriter crc32c_Value empty_file log_number false manual_flush).
  assert (Hal : block_aligned w) by apply NewWriter_aligned.
  unfold AddRecord.
  change (recycle_log_files_ w) with false. cbn [negb assert].
  obind. cbv beta iota.
  rewrite AddRecord_loop_run;
    [| exact Hal | reflexivity | reflexivity | vm_compute; reflexivity].
  change (padded w) with w.
  change (block_offset_ w) with 0.
  cbv zeta. cbn [length Z.of_nat].
  change (Z.min 0 (kBlockSize - 0 - kHeaderSize)) with 0.
  cbn [Z.to_nat take drop length Z.of_nat Z.ltb Z.compare Z.eqb fragment_type
       andb].
  eexists _, _. split; [reflexivity |].
  cbn [dest_ set_num_entries emitted set_block with_data set_dest wf_data
       block_offset_].
  unfold legacy_header.
  match goal with
  | |- context [crc32c_Extend ?a ?b] =>
      change (crc32c_Extend a b)
        with (crc32c_Extend (crc32c_Value [type_code kFullType]) [])
  end.
  rewrite Extend_nil.
  split_and!; reflexivity.
Qed.

End EmptyRecord.

Lemma AddRecord_empty_payload_witness :
  crc32c_Extend_ref (crc32c_Value_ref [type_code kFullType]) []
  = crc32c_Value_ref [type_code kFullType]
  /\ exists w' wt',
       AddRecord crc32c_Extend_ref
         (NewWriter crc32c_Value_ref empty_file 1 false false)
         [] 1 (Some unset_wt) = Done (OK, w', wt')
       /\ wf_data (dest_ w')
          = EncodeFixed32 (Mask (crc32c_Value_ref [type_code kFullType]))
            ++ [0; 0; type_code kFullType]
       /\ GetFileSize (dest_ w') = 7
       /\ block_offset_ w' = 7.
Proof.
  split; [vm_compute; reflexivity |].
  apply (AddRecord_empty_payload crc32c_Value_ref crc32c_Extend_ref).
  vm_compute. reflexivity.
Defined.

(** ** Looking up a column family in the directory *)

Lemma scan_directory_absent (todo : nat) :
  forall (buf : list Z) (footer cf_id i : Z) (st res : bool * Z * Z),
    (forall (j : Z) (wci : WalCfIndex),
       i <= j < i + Z.of_nat todo ->
       load_WalCfIndex buf (footer + j * sizeof_WalCfIndex) = Some wci ->
       id_ wci <> cf_id) ->
    scan_directory todo buf footer cf_id i st = Done res -> res = st.
Proof.
  induction todo as [| todo IH]; intros buf footer cf_id i st res Habs H.
  - injection H as <-. reflexivity.
  - cbn [scan_directory] in H.
    destruct (load_WalCfIndex buf (footer + i * sizeof_WalCfIndex))
      as [wci |] eqn:E; [| discriminate].
    assert (Hne : id_ wci <> cf_id) by (apply (Habs i); [lia | exact E]).
    apply Z.eqb_neq in Hne. rewrite Hne in H.
    apply IH in H; [exact H |].
    intros j wcj Hj. apply Habs. lia.
Qed.

Lemma scan_directory_in_file (todo : nat) :
  forall (buf : list Z) (footer cf_id i : Z) (st : bool * Z * Z),
    0 <= footer + i * sizeof_WalCfIndex ->
    footer + (i + Z.of_nat todo) * sizeof_WalCfIndex
    <= Z.of_nat (length buf) ->
    0 <= i ->
    exists res, scan_directory todo buf footer cf_id i st = Done res.
Proof.
  induction todo as [| todo IH]; intros buf footer cf_id i st Hlo Hhi Hi.
  - eexists. reflexivity.
  - cbn [scan_directory]. unfold load_WalCfIndex, in_buffer.
    unfold sizeof_WalCfIndex in *.
    destruct (Z.leb_spec 0 (footer + i * 24)); [| lia].
    destruct (Z.leb_spec (footer + i * 24 + 24) (Z.of_nat (length buf)));
      [| lia].
    cbn [andb]. apply IH; lia.
Qed.

(** C7, as the code has it.  When [cf_id] matches no entry of the
    directory, [NewIteratorWithCF] returns the empty iterator (offset 0, no
    entries) if the footer counts no entry; otherwise the assertion
    [find || count == 0] fails: no iterator and no error status comes
    back. *)
Theorem NewIteratorWithCF_absent_cf (r r1 : WalBlobReader) (env : IndexEnv)
    (cf_id count : Z) :
  map_index_file r env = (OK, r1) ->
  load_footer_count (default [] (index_file_data_ r1)) = Some count ->
  directory_in_file (default [] (index_file_data_ r1)) count ->
  cf_absent (default [] (index_file_data_ r1)) count cf_id ->
  NewIteratorWithCF r env cf_id
  = if count =? 0 then Done (WalBlobIterator 0 0, r1) else Abort.
Proof.
  intros Hmap Hcount (Hc0 & Hfit32 & Hfit) Habs.
  unfold NewIteratorWithCF. rewrite Hmap. cbn [ok negb].
  set (buf := default [] (index_file_data_ r1)) in *.
  unfold GetCFWalTupleOffsets. rewrite Hcount.
  fold (directory_start buf count).
  assert (Hstart : directory_start buf count
                   = Z.of_nat (length buf) - sizeof_WalIndexFooter
                     - count * sizeof_WalCfIndex).
  { unfold directory_start. rewrite wrap32_small; [reflexivity |].
    unfold sizeof_WalCfIndex in *. lia. }
  destruct (scan_directory_in_file (Z.to_nat count) buf
              (directory_start buf count) cf_id 0 (false, 0, 0))
    as [res Hres].
  - rewrite Hstart. unfold sizeof_WalIndexFooter, sizeof_WalCfIndex in *. lia.
  - rewrite Hstart, Z2Nat.id by lia.
    unfold sizeof_WalIndexFooter, sizeof_WalCfIndex in *. lia.
  - lia.
  - assert (E : res = (false, 0, 0)).
    { eapply scan_directory_absent; [| exact Hres].
      intros j wci Hj. apply Habs. rewrite Z2Nat.id in Hj by lia. lia. }
    rewrite Hres, E. obind. cbv beta iota. cbn [orb].
    destruct (count =? 0); reflexivity.
Qed.

Lemma NewIteratorWithCF_absent_cf_witness :
  exists r1,
    map_index_file (open_reader []) one_cf_env = (OK, r1)
    /\ load_footer_count (default [] (index_file_data_ r1)) = Some 1
    /\ NewIteratorWithCF (open_reader []) one_cf_env 2
       = if 1 =? 0 then Done (WalBlobIterator 0 0, r1) else Abort.
Proof.
  eexists. split; [reflexivity |]. split; [reflexivity |].
  apply (NewIteratorWithCF_absent_cf (open_reader []) _ one_cf_env 2 1).
  - reflexivity.
  - reflexivity.
  - unfold directory_in_file. split_and!; by vm_compute.
  - intros j wci Hj. assert (j = 0) as -> by lia.
    intros [= <-]. discriminate.
Defined.

(** C7 as stated fails: asked for the column family 2, which the
    directory of [one_cf_index] does not list, [NewIteratorWithCF] stops
    at the assertion; it hands no error to its caller. *)
Lemma NewIteratorWithCF_absent_cf_no_error :
  NewIteratorWithCF (open_reader []) one_cf_env 2 = Abort
  /\ ~ (exists (s : Status) (r' : WalBlobReader),
          NewIteratorWithCF (open_reader []) one_cf_env 2
          = Done (ErrorInternalIterator s, r')).
Proof.
  assert (E : NewIteratorWithCF (open_reader []) one_cf_env 2 = Abort)
    by (vm_compute; reflexivity).
  split; [exact E |]. rewrite E. intros (s & r' & [=]).
Qed.

(** ** The checks of [GetBlob] on the edges of a record *)

Lemma blob_sizes_no_tail (h : DefaultLogHandle) (hs hd tl : Z) :
  blob_sizes h hs = Done (hd, tl) ->
  Handle.length h <= hd -> tl = 0.
Proof.
  unfold blob_sizes, GetPhysicalLength.
  set (avail_first := kBlockSize - Handle.offset h mod kBlockSize).
  assert (Hav : 0 < avail_first <= kBlockSize).
  { pose proof (Z.mod_pos_bound (Handle.offset h) kBlockSize eq_refl).
    subst avail_first. lia. }
  destruct (Z.leb_spec (Handle.length h) avail_first) as [Hle | Hgt].
  - rewrite Z.ltb_irrefl. intros [= <- <-]. reflexivity.
  - destruct (Z.ltb_spec (Handle.length h)
                (avail_first
                 + (Handle.length h - avail_first) / (kBlockSize - hs)
                   * kBlockSize
                 + (if (Handle.length h - avail_first) mod (kBlockSize - hs)
                       =? 0
                    then 0
                    else hs + (Handle.length h - avail_first)
                              mod (kBlockSize - hs)))) as [Hlt | Hge].
    + intros H. apply bind_assert_Done in H as [_ H].
      injection H as <- <-.
      rewrite wrap64_small by (unfold kBlockSize in *; lia). lia.
    + intros [= <- <-]. reflexivity.
Qed.

Section EdgeChecks.

Variable crc32c_Value : list Z -> Z.
Variable Crc16c_update : Z -> list Z -> Z.

(** C3. When [GetBlob] does not find the handle in the cache and returns
    [OK], the bytes it read passed the checks on the edges: with
    [head_size > 0] the CRC16C of the first [head_size] bytes is the
    [head_crc] of the handle, with [tail_size > 0] the CRC16C of the last
    [tail_size] bytes is its [tail_crc]; so a mismatch never ends in [OK].
    A handle with [length <= head_size] has [tail_size = 0], hence no
    check of the tail. *)
Theorem GetBlob_edge_checks (r r' : WalBlobReader) (h : DefaultLogHandle)
    (payload : list Z) :
  blob_cache_ r !! GenerateCacheUniqueId r h = None ->
  GetBlob crc32c_Value Crc16c_update r h = Done (OK, payload, r') ->
  exists head_size tail_size,
    blob_sizes h (wal_header_size_ r) = Done (head_size, tail_size)
    /\ let data :=
         bytes_at (ra_data (src_ r)) (Handle.offset h)
           (GetPhysicalLength (Handle.length h) (Handle.offset h)
              (wal_header_size_ r)) in
       (head_size <> 0 ->
        Crc16c_update 0 (bytes_at data 0 head_size) = Handle.head_crc h)
       /\ (tail_size <> 0 ->
           Crc16c_update 0
             (bytes_at data (Z.of_nat (length data) - tail_size) tail_size)
           = Handle.tail_crc h)
       /\ (Handle.length h <= head_size -> tail_size = 0).
Proof.
  intros Hmiss H. unfold GetBlob in H. rewrite Hmiss in H.
  apply bind_Done_inv in H as ([hd tl] & Hsizes & H).
  exists hd, tl. split; [exact Hsizes |].
  unfold Read in H. destruct (ra_healthy (src_ r)); cycle 1.
  { cbn [ok] in H. apply bind_assert_Done in H as [? _]. discriminate. }
  cbn [slice_] in H.
  apply bind_assert_Done in H as [_ H].
  apply bind_assert_Done in H as [_ H].
  apply bind_Done_inv in H as ([] & Hhead & H).
  apply bind_Done_inv in H as ([] & Htail & _).
  cbv zeta. split_and!.
  - intros Hhd. apply Z.eqb_neq in Hhd. rewrite Hhd in Hhead.
    cbn [negb] in Hhead.
    destruct (Z.eqb_spec (Handle.head_crc h)
                (Crc16c_update 0
                   (bytes_at
                      (bytes_at (ra_data (src_ r)) (Handle.offset h)
                         (GetPhysicalLength (Handle.length h) (Handle.offset h)
                            (wal_header_size_ r))) 0 hd))) as [E | NE];
      [symmetry; exact E | discriminate].
  - intros Htl. apply Z.eqb_neq in Htl. rewrite Htl in Htail.
    cbn [negb] in Htail.
    match type of Htail with
    | (if negb (?a =? ?b) then _ else _) = _ =>
        destruct (Z.eqb_spec a b) as [E | NE]; [exact E | discriminate]
    end.
  - apply (blob_sizes_no_tail _ _ _ _ Hsizes).
Qed.

End EdgeChecks.

Lemma GetBlob_edge_checks_witness :
  exists r',
    blob_cache_ (open_reader hi_file)
      !! GenerateCacheUniqueId (open_reader hi_file) hi_handle = None
    /\ GetBlob crc32c_Value_ref Crc16c_update_ref (open_reader hi_file)
         hi_handle = Done (OK, [104; 105], r')
    /\ exists head_size tail_size,
         blob_sizes hi_handle (wal_header_size_ (open_reader hi_file))
         = Done (head_size, tail_size)
         /\ let data :=
              bytes_at (ra_data (src_ (open_reader hi_file)))
                (Handle.offset hi_handle)
                (GetPhysicalLength (Handle.length hi_handle)
                   (Handle.offset hi_handle)
                   (wal_header_size_ (open_reader hi_file))) in
            (head_size <> 0 ->
             Crc16c_update_ref 0 (bytes_at data 0 head_size)
             = Handle.head_crc hi_handle)
            /\ (tail_size <> 0 ->
                Crc16c_update_ref 0
                  (bytes_at data (Z.of_nat (length data) - tail_size)
                     tail_size)
                = Handle.tail_crc hi_handle)
            /\ (Handle.length hi_handle <= head_size -> tail_size = 0).
Proof.
  eexists. split; [reflexivity |].
  split; [vm_compute; reflexivity |].
  eapply (GetBlob_edge_checks crc32c_Value_ref Crc16c_update_ref
            (open_reader hi_file)).
  - reflexivity.
  - vm_compute. reflexivity.
Defined.

(** One byte of the payload of "hi" changed in the file: the check of the
    head stops [GetBlob]. *)
Example GetBlob_corrupt_payload_aborts :
  GetBlob crc32c_Value_ref Crc16c_update_ref
    (open_reader (firstn 8 hi_file ++ [106])) hi_handle = Abort.
Proof. vm_compute. reflexivity. Qed.

(** ** Reading the same handle twice *)

Section Idempotence.

Variable crc32c_Value : list Z -> Z.
Variable Crc16c_update : Z -> list Z -> Z.

Lemma GetBlob_key_stable (r r' : WalBlobReader) (h : DefaultLogHandle)
    (payload : list Z) :
  GetBlob crc32c_Value Crc16c_update r h = Done (OK, payload, r') ->
  GenerateCacheUniqueId r' h = GenerateCacheUniqueId r h
  /\ exists b, blob_cache_ r' !! GenerateCacheUniqueId r h = Some b
               /\ slice_ b = payload.
Proof.
  unfold GetBlob.
  destruct (blob_cache_ r !! GenerateCacheUniqueId r h) as [b |] eqn:Hc.
  - intros [= <- <-]. split; [reflexivity |]. eauto.
  - intros H.
    apply bind_Done_inv in H as ([hd tl] & _ & H).
    unfold Read in H. destruct (ra_healthy (src_ r)); cycle 1.
    { cbn [ok] in H. apply bind_assert_Done in H as [? _]. discriminate. }
    apply bind_assert_Done in H as [_ H].
    apply bind_assert_Done in H as [_ H].
    apply bind_Done_inv in H as ([] & _ & H).
    apply bind_Done_inv in H as ([] & _ & H).
    apply bind_Done_inv in H as ([] & _ & H).
    apply bind_Done_inv in H as (blob' & _ & H).
    injection H as <- <-. split; [reflexivity |].
    exists blob'. split; [| reflexivity].
    cbn [blob_cache_ set_cache]. apply lookup_insert_eq.
Qed.

(** C9. A second [GetBlob] for the same handle, right after a first one
    that returned [OK], returns the same bytes, leaves the reader as it
    is and reads nothing from the file: the cache the first call filled
    answers it.  The first call itself read the file at most once. *)
Theorem GetBlob_twice (r r1 : WalBlobReader) (h : DefaultLogHandle)
    (payload : list Z) :
  GetBlob crc32c_Value Crc16c_update r h = Done (OK, payload, r1) ->
  GetBlob crc32c_Value Crc16c_update r1 h = Done (OK, payload, r1)
  /\ (ra_reads (src_ r1) <= S (ra_reads (src_ r)))%nat.
Proof.
  intros H. pose proof (GetBlob_key_stable _ _ _ _ H) as (Hkey & b & Hb & Hp).
  split.
  - unfold GetBlob. rewrite Hkey, Hb, Hp. reflexivity.
  - revert H. unfold GetBlob.
    destruct (blob_cache_ r !! GenerateCacheUniqueId r h) as [b0 |].
    + intros [= _ <-]. lia.
    + intros H.
      apply bind_Done_inv in H as ([hd tl] & _ & H).
      unfold Read in H. destruct (ra_healthy (src_ r)); cycle 1.
      { cbn [ok] in H. apply bind_assert_Done in H as [? _]. discriminate. }
      apply bind_assert_Done in H as [_ H].
      apply bind_assert_Done in H as [_ H].
      apply bind_Done_inv in H as ([] & _ & H).
      apply bind_Done_inv in H as ([] & _ & H).
      apply bind_Done_inv in H as ([] & _ & H).
      apply bind_Done_inv in H as (blob' & _ & H).
      injection H as _ <-. simpl. lia.
Qed.

End Idempotence.

Lemma GetBlob_twice_witness :
  exists r1,
    GetBlob crc32c_Value_ref Crc16c_update_ref (open_reader hi_file) hi_handle
    = Done (OK, [104; 105], r1)
    /\ ra_reads (src_ r1) = 1%nat
    /\ GetBlob crc32c_Value_ref Crc16c_update_ref r1 hi_handle
       = Done (OK, [104; 105], r1)
    /\ (ra_reads (src_ r1) <= S (ra_reads (src_ (open_reader hi_file))))%nat.
Proof.
  eexists. split; [vm_compute; reflexivity |].
  split; [reflexivity |].
  eapply (GetBlob_twice crc32c_Value_ref Crc16c_update_ref
            (open_reader hi_file)).
  vm_compute. reflexivity.
Defined.

(** ** The scan of the interior fragments *)

(** The loop of [GetBlob] over the interior fragments compares [header],
    at least the start of the buffer, with [tailer - kBlockSize], which
    lies before it: its body never runs. *)
Lemma check_middle_never_runs (crc32c_Value : list Z -> Z) (fuel : nat)
    (wal_header_size : Z) (data : list Z) (header tailer : Z) :
  0 <= header -> tailer <= 0 ->
  check_middle crc32c_Value fuel wal_header_size data header tailer = Done tt.
Proof.
  intros Hh Ht.
  assert (E : (header <=? tailer - kBlockSize) = false)
    by (apply Z.leb_gt; unfold kBlockSize; lia).
  destruct fuel; simpl; rewrite E; reflexivity.
Qed.

(** The interior fragment of [long_file] starts at the second block: its
    type byte says MIDDLE, and its stored checksum is the masked CRC32C of
    the type byte and the payload. *)
Example long_file_middle_header :
  nth (Z.to_nat (32768 + 6)) long_file 0 = type_code kMiddleType
  /\ Unmask (DecodeFixed32 long_file 32768)
     = crc32c_Value_ref (bytes_at long_file (32768 + 6) (32761 + 1)).
Proof. vm_compute. split; reflexivity. Qed.

(** C2 fails on the code.  With the type byte of the interior fragment
    changed from MIDDLE to LAST, or with a byte of its payload changed,
    [GetBlob] still returns [OK]: the scan that should look at the
    fragment does not run. *)
Theorem GetBlob_accepts_corrupt_middle :
  (match GetBlob crc32c_Value_ref Crc16c_update_ref
           (open_reader (poke long_file (32768 + 6) (type_code kLastType)))
           long_handle with
   | Done (OK, _, _) => true
   | _ => false
   end = true)
  /\ (match GetBlob crc32c_Value_ref Crc16c_update_ref
              (open_reader (poke long_file (32768 + 100) 255))
              long_handle with
      | Done (OK, _, _) => true
      | _ => false
      end = true).
Proof. split; vm_compute; reflexivity. Qed.

(** ** Ranges of bytes *)

Lemma bytes_at_middle (pre mid suf : list Z) (p n : Z) :
  Z.of_nat (length pre) = p -> Z.of_nat (length mid) = n ->
  bytes_at (pre ++ mid ++ suf) p n = mid.
Proof.
  intros <- <-. unfold bytes_at. rewrite !Nat2Z.id.
  rewrite drop_app_length, take_app_length. reflexivity.
Qed.

Lemma bytes_at_prefix (a b : list Z) (n : Z) :
  Z.of_nat (length a) = n -> bytes_at (a ++ b) 0 n = a.
Proof. intros H. apply (bytes_at_middle [] a b 0 n); [reflexivity | exact H]. Qed.

Lemma bytes_at_all (a : list Z) (n : Z) :
  Z.of_nat (length a) = n -> bytes_at a 0 n = a.
Proof.
  intros H. rewrite <- (app_nil_r a) at 1. apply bytes_at_prefix. exact H.
Qed.

Lemma bytes_at_suffix (a b : list Z) (p n : Z) :
  Z.of_nat (length a) = p -> Z.of_nat (length b) = n ->
  bytes_at (a ++ b) p n = b.
Proof.
  intros Hp Hn. rewrite <- (app_nil_r b) at 1.
  apply bytes_at_middle; assumption.
Qed.

(** ** Reading back a record of one fragment *)

Section ReadBack.

Variable crc32c_Value : list Z -> Z.
Variable Crc16c_update : Z -> list Z -> Z.

Lemma GetBlob_single_fragment (r : WalBlobReader) (pre P suf : list Z)
    (off : Z) :
  ra_data (src_ r) = pre ++ P ++ suf ->
  ra_healthy (src_ r) = true ->
  Z.of_nat (length pre) = off ->
  P <> [] ->
  Z.of_nat (length P) <= kBlockSize - off mod kBlockSize ->
  blob_cache_ r
    !! GenerateCacheUniqueId r
         (make_handle Crc16c_update (wal_header_size_ r) off P) = None ->
  exists r',
    GetBlob crc32c_Value Crc16c_update r
      (make_handle Crc16c_update (wal_header_size_ r) off P)
    = Done (OK, P, r').
Proof.
  intros Hdata Hok Hoff Hne Hfit Hmiss.
  set (h := make_handle Crc16c_update (wal_header_size_ r) off P) in *.
  assert (Hlen : 0 < Z.of_nat (length P)) by (destruct P; [congruence | simpl; lia]).
  assert (Hh : Handle.length h = Z.of_nat (length P)) by reflexivity.
  assert (Ho : Handle.offset h = off) by reflexivity.
  assert (Hphys : GetPhysicalLength (Handle.length h) (Handle.offset h)
                    (wal_header_size_ r) = Z.of_nat (length P)).
  { unfold GetPhysicalLength. rewrite Hh, Ho.
    destruct (Z.leb_spec (Z.of_nat (length P)) (kBlockSize - off mod kBlockSize));
      [reflexivity | lia]. }
  assert (Hsizes : blob_sizes h (wal_header_size_ r)
                   = Done (Z.of_nat (length P), 0)).
  { unfold blob_sizes. rewrite Hphys, Hh, Z.ltb_irrefl. reflexivity. }
  assert (Hcrc : Handle.head_crc h = Crc16c_update 0 P).
  { unfold h, make_handle. cbn [Handle.head_crc].
    destruct (Z.leb_spec (Z.of_nat (length P)) (kBlockSize - off mod kBlockSize));
      [| lia].
    rewrite bytes_at_all by reflexivity. reflexivity. }
  unfold GetBlob. rewrite Hmiss, Hphys, Hsizes. obind. cbv beta iota.
  unfold Read. rewrite Hok, Hdata, Ho.
  rewrite (bytes_at_middle pre P suf off _ Hoff eq_refl).
  cbn [ok assert slice_].
  replace (Z.of_nat (length P) =? 0) with false by (symmetry; apply Z.eqb_neq; lia).
  rewrite Z.eqb_refl. cbn [negb andb assert].
  rewrite bytes_at_all by reflexivity.
  rewrite Hcrc, Z.eqb_refl. cbn [negb].
  rewrite check_middle_never_runs by lia.
  rewrite ?Hh, ?Z.eqb_refl. cbn [negb slice_].
  eexists. reflexivity.
Qed.

End ReadBack.

(** ** Reading back a record of two fragments *)

(** [ShrinkVal] on a head, one header and a tail that leaves room in its
    block for a header more: the header goes, the payload stays. *)
Lemma ShrinkVal_two_fragments (P1 hdr P2 junk : list Z) :
  Z.of_nat (length hdr) = kHeaderSize ->
  0 < Z.of_nat (length P1) <= kBlockSize ->
  0 < Z.of_nat (length P2) <= kBlockSize - 2 * kHeaderSize ->
  exists b,
    ShrinkVal
      {| slice_ := P1 ++ hdr ++ P2;
         buf_ := (P1 ++ hdr ++ P2) ++ junk;
         size_ := Z.of_nat (length (P1 ++ hdr ++ P2)) |}
      (Z.of_nat (length P1)) kHeaderSize = Done b
    /\ slice_ b = P1 ++ P2.
Proof.
  intros Hh H1 H2. unfold ShrinkVal. cbn [size_ slice_ buf_].
  set (a := Z.of_nat (length P1)) in *.
  set (t := Z.of_nat (length P2)) in *.
  assert (Hlen : Z.of_nat (length (P1 ++ hdr ++ P2)) = a + kHeaderSize + t).
  { rewrite !length_app. subst a t. lia. }
  rewrite Hlen, Z.eqb_refl.
  replace (a =? 0) with false by (symmetry; apply Z.eqb_neq; lia).
  cbn [negb andb assert]. obind. cbv beta iota.
  replace (a + kHeaderSize + t - a) with (kHeaderSize + t) by lia.
  rewrite (wrap64_small (kHeaderSize + t))
    by (unfold kHeaderSize, kBlockSize in *; lia).
  rewrite (wrap64_small (kBlockSize - kHeaderSize))
    by (unfold kHeaderSize, kBlockSize; lia).
  destruct (Z.to_nat (kHeaderSize + t)) as [| fuel] eqn:Hfuel;
    [unfold kHeaderSize in *; lia |].
  cbn [ShrinkVal_loop].
  replace (0 <? kHeaderSize + t) with true
    by (symmetry; apply Z.ltb_lt; unfold kHeaderSize; lia).
  replace (kBlockSize - kHeaderSize <? kHeaderSize + t) with false
    by (symmetry; apply Z.ltb_ge; unfold kHeaderSize, kBlockSize in *; lia).
  replace (kHeaderSize + t - kHeaderSize) with t by lia.
  rewrite (wrap64_small t) by (unfold kHeaderSize, kBlockSize in *; lia).
  unfold memmove.
  replace (t =? 0) with false by (symmetry; apply Z.eqb_neq; lia).
  rewrite length_app, Nat2Z.inj_add, Hlen.
  replace ((0 <=? a) && (0 <=? a + kHeaderSize) && (0 <? t)
           && (a + t <=? a + kHeaderSize + t + Z.of_nat (length junk))
           && (a + kHeaderSize + t
               <=? a + kHeaderSize + t + Z.of_nat (length junk)))
    with true.
  2:{ symmetry. rewrite !andb_true_iff.
      rewrite !Z.leb_le, Z.ltb_lt. unfold kHeaderSize. lia. }
  replace (kHeaderSize + t - (kHeaderSize + t)) with 0 by lia.
  assert (Hstop : forall f buf cur,
            ShrinkVal_loop f kHeaderSize (kBlockSize - kHeaderSize) buf cur 0
            = Done (buf, cur)) by (intros [] ? ?; reflexivity).
  rewrite Hstop. eexists. split; [reflexivity |]. cbn [slice_].
  assert (E1 : take (Z.to_nat a) ((P1 ++ hdr ++ P2) ++ junk) = P1).
  { subst a. rewrite Nat2Z.id, <- !app_assoc. apply take_app_length. }
  assert (E2 : bytes_at ((P1 ++ hdr ++ P2) ++ junk) (a + kHeaderSize) t = P2).
  { replace ((P1 ++ hdr ++ P2) ++ junk) with ((P1 ++ hdr) ++ P2 ++ junk)
      by (rewrite <- !app_assoc; reflexivity).
    apply bytes_at_middle; [rewrite length_app; subst a; lia | reflexivity]. }
  rewrite E1, E2.
  replace (Z.to_nat (a + t)) with (length (P1 ++ P2))
    by (rewrite length_app; subst a t; lia).
  rewrite app_assoc. apply take_app_length.
Qed.

Section ReadBackTwo.

Variable crc32c_Value : list Z -> Z.
Variable Crc16c_update : Z -> list Z -> Z.

Lemma GetBlob_two_fragments (r : WalBlobReader)
    (pre P1 hdr P2 suf : list Z) (off : Z) :
  ra_data (src_ r) = pre ++ (P1 ++ hdr ++ P2) ++ suf ->
  ra_healthy (src_ r) = true ->
  wal_header_size_ r = kHeaderSize ->
  Z.of_nat (length pre) = off ->
  kHeaderSize <= off mod kBlockSize ->
  Z.of_nat (length P1) = kBlockSize - off mod kBlockSize ->
  Z.of_nat (length hdr) = kHeaderSize ->
  0 < Z.of_nat (length P2) <= kBlockSize - 2 * kHeaderSize ->
  blob_cache_ r
    !! GenerateCacheUniqueId r
         (make_handle Crc16c_update kHeaderSize off (P1 ++ P2)) = None ->
  exists r',
    GetBlob crc32c_Value Crc16c_update r
      (make_handle Crc16c_update kHeaderSize off (P1 ++ P2))
    = Done (OK, P1 ++ P2, r').
Proof.
  intros Hdata Hok Hhs Hoff Hmod H1 Hh H2 Hmiss.
  set (h := make_handle Crc16c_update kHeaderSize off (P1 ++ P2)) in *.
  set (a := Z.of_nat (length P1)) in *.
  set (t := Z.of_nat (length P2)) in *.
  pose proof (Z.mod_pos_bound off kBlockSize eq_refl) as Hm.
  assert (Ha : 0 < a < kBlockSize) by (unfold kHeaderSize in *; lia).
  assert (Hlen : Handle.length h = a + t).
  { unfold h, make_handle. cbn [Handle.length]. rewrite length_app.
    subst a t. lia. }
  assert (Ho : Handle.offset h = off) by reflexivity.
  assert (Hdiv : t / (kBlockSize - kHeaderSize) = 0)
    by (apply Z.div_small; unfold kHeaderSize, kBlockSize in *; lia).
  assert (Hrem : t mod (kBlockSize - kHeaderSize) = t)
    by (apply Z.mod_small; unfold kHeaderSize, kBlockSize in *; lia).
  assert (Hphys : GetPhysicalLength (Handle.length h) (Handle.offset h)
                    kHeaderSize = a + kHeaderSize + t).
  { unfold GetPhysicalLength. rewrite Hlen, Ho, <- H1.
    destruct (Z.leb_spec (a + t) a); [lia |].
    replace (a + t - a) with t by lia. rewrite Hdiv, Hrem.
    destruct (Z.eqb_spec t 0); lia. }
  assert (Hsizes : blob_sizes h kHeaderSize = Done (a, t)).
  { unfold blob_sizes. rewrite Hphys, Hlen, Ho, <- H1.
    replace (a + t <? a + kHeaderSize + t) with true
      by (symmetry; apply Z.ltb_lt; unfold kHeaderSize; lia).
    rewrite (wrap64_small a) by (unfold kBlockSize in *; lia).
    replace (a =? 0) with false by (symmetry; apply Z.eqb_neq; lia).
    replace (a =? kBlockSize) with false by (symmetry; apply Z.eqb_neq; lia).
    cbn [negb andb assert]. obind. cbv beta iota.
    replace (a + t - a) with t by lia.
    rewrite (wrap64_small t) by (unfold kHeaderSize, kBlockSize in *; lia).
    rewrite (wrap64_small (kBlockSize - kHeaderSize))
      by (unfold kHeaderSize, kBlockSize; lia).
    rewrite Hrem. reflexivity. }
  assert (Hhead : Handle.head_crc h = Crc16c_update 0 P1).
  { unfold h, make_handle. cbn [Handle.head_crc]. rewrite <- H1.
    replace (Z.of_nat (length (P1 ++ P2))) with (a + t)
      by (rewrite length_app; subst a t; lia).
    destruct (Z.leb_spec (a + t) a); [lia |].
    rewrite bytes_at_prefix by reflexivity. reflexivity. }
  assert (Htail : Handle.tail_crc h = Crc16c_update 0 P2).
  { unfold h, make_handle. cbn [Handle.tail_crc]. rewrite <- H1.
    replace (Z.of_nat (length (P1 ++ P2))) with (a + t)
      by (rewrite length_app; subst a t; lia).
    destruct (Z.leb_spec (a + t) a); [lia |].
    replace (a + t - a) with t by lia. rewrite Hrem.
    rewrite bytes_at_suffix; [reflexivity | subst a; lia | reflexivity]. }
  assert (Hdlen : Z.of_nat (length (P1 ++ hdr ++ P2)) = a + kHeaderSize + t).
  { rewrite !length_app. subst a t. lia. }
  unfold GetBlob. rewrite Hmiss, Hhs, Hphys, Hsizes. obind. cbv beta iota.
  unfold Read. rewrite Hok, Hdata, Ho.
  rewrite (bytes_at_middle pre (P1 ++ hdr ++ P2) suf off _ Hoff Hdlen).
  cbn [ok assert slice_].
  rewrite Hdlen.
  replace (a + kHeaderSize + t =? 0) with false
    by (symmetry; apply Z.eqb_neq; unfold kHeaderSize; lia).
  rewrite Z.eqb_refl. cbn [negb andb assert].
  replace (a =? 0) with false by (symmetry; apply Z.eqb_neq; lia).
  cbn [negb].
  rewrite (bytes_at_prefix P1 (hdr ++ P2) a eq_refl).
  rewrite Hhead, Z.eqb_refl. cbn [negb].
  replace (t =? 0) with false by (symmetry; apply Z.eqb_neq; lia).
  cbn [negb].
  replace (a + kHeaderSize + t - t) with (a + kHeaderSize) by lia.
  assert (Etail : bytes_at (P1 ++ hdr ++ P2) (a + kHeaderSize) t = P2).
  { rewrite app_assoc. apply bytes_at_suffix;
      [rewrite length_app; subst a; lia | reflexivity]. }
  rewrite Etail, Htail, Z.eqb_refl. cbn [negb].
  rewrite check_middle_never_runs by lia.
  rewrite Hlen.
  replace (a =? a + t) with false by (symmetry; apply Z.eqb_neq; lia).
  cbn [negb].
  assert (Ejunk : exists junk,
            drop (length (P1 ++ hdr ++ P2))
              (buf_ (NewBlob (a + kHeaderSize + t))) = junk) by eauto.
  destruct Ejunk as [junk ->].
  change (size_ (NewBlob (a + kHeaderSize + t))) with (a + kHeaderSize + t).
  rewrite <- Hdlen.
  destruct (ShrinkVal_two_fragments P1 hdr P2 junk Hh) as (b & Hb & Hslice).
  - fold a. unfold kBlockSize in *. lia.
  - exact H2.
  - fold a in Hb. rewrite Hb. rewrite Hslice. eexists. reflexivity.
Qed.

End ReadBackTwo.

(** ** Writing a record of at most two fragments *)

Lemma legacy_header_length (crc32c_Extend : Z -> list Z -> Z) (w : Writer)
    (t : RecordType) (data : list Z) :
  Z.of_nat (length (legacy_header crc32c_Extend w t data)) = kHeaderSize.
Proof. reflexivity. Qed.

Lemma aligned_offset_mod (w : Writer) (k : Z) :
  block_aligned w -> 0 <= k -> block_offset_ w + k < kBlockSize ->
  (GetFileSize (dest_ w) + k) mod kBlockSize = block_offset_ w + k.
Proof.
  intros [Hsz Hbo] Hk Hlt. rewrite Hsz.
  replace (block_counts_ w * kBlockSize + block_offset_ w + k)
    with (block_offset_ w + k + block_counts_ w * kBlockSize) by lia.
  rewrite Z.mod_add by (unfold kBlockSize; lia).
  apply Z.mod_small. lia.
Qed.

Section WriteTwo.

Variable crc32c_Extend : Z -> list Z -> Z.

Lemma AddRecord_at_most_two_fragments (w : Writer) (P : list Z)
    (num_entries : Z) (t : WriteThreadWriter) :
  block_aligned w ->
  wf_faults (dest_ w) = [] ->
  recycle_log_files_ w = false ->
  GetFileSize (dest_ w) + 2 * kBlockSize < 2 ^ 63 ->
  wal_offset_of_wb_content_ t = kUnsetOffset ->
  kHeaderSize <= first_avail w ->
  0 < Z.of_nat (length P)
    <= first_avail w + (kBlockSize - 2 * kHeaderSize) ->
  exists w' t' pre hdr,
    AddRecord crc32c_Extend w P num_entries (Some t) = Done (OK, w', Some t')
    /\ Z.of_nat (length pre) = wal_offset_of_wb_content_ t'
    /\ wal_offset_of_wb_content_ t' mod kBlockSize
       = kBlockSize - first_avail w
    /\ Z.of_nat (length hdr) = kHeaderSize
    /\ wf_data (dest_ w')
       = pre ++ (if Z.of_nat (length P) <=? first_avail w then P
                 else firstn (Z.to_nat (first_avail w)) P ++ hdr
                      ++ skipn (Z.to_nat (first_avail w)) P).
Proof.
  intros Hal Hnf Hrc Hsz Hunset Hroom HP.
  destruct (switch_block_padded w (proj2 Hal) Hnf)
    as (_ & Hnf1 & Hlo1 & Hhi1 & Hrc1 & Hal1).
  specialize (Hal1 Hal). rewrite Hrc in Hrc1.
  pose proof (padded_file_size w (proj2 Hal)) as Hpf.
  unfold AddRecord. rewrite Hrc. cbn [negb assert]. obind. cbv beta iota.
  rewrite AddRecord_loop_run;
    [| exact Hal | exact Hnf | exact Hrc | unfold kBlockSize in *; lia].
  cbv zeta. fold (first_avail w).
  set (w1 := padded w) in *. set (avail := first_avail w) in *.
  assert (Havail : avail = kBlockSize - block_offset_ w1 - kHeaderSize)
    by reflexivity.
  assert (Hwt1 : recorded w1 avail
                   (Some {| is_recycle := false;
                            wal_offset_of_wb_content_ :=
                              wal_offset_of_wb_content_ t |})
                 = Some {| is_recycle := false;
                           wal_offset_of_wb_content_ :=
                             GetFileSize (dest_ w1) + kHeaderSize |}).
  { unfold recorded. cbn [wal_offset_of_wb_content_ is_recycle].
    rewrite Hunset, Z.eqb_refl. unfold GetFirstEntryPhysicalOffset.
    destruct (Z.leb_spec kHeaderSize avail); [reflexivity | lia]. }
  rewrite Hwt1.
  assert (Hmod : (GetFileSize (dest_ w1) + kHeaderSize) mod kBlockSize
                 = kBlockSize - avail).
  { rewrite aligned_offset_mod; [lia | exact Hal1 | unfold kHeaderSize; lia |].
    unfold kHeaderSize in *. lia. }
  destruct (Z.leb_spec (Z.of_nat (length P)) avail) as [Hone | Htwo].
  - (* one fragment *)
    rewrite Z.min_l by lia. rewrite Nat2Z.id, take_ge, drop_ge by lia.
    cbn [length Z.of_nat Z.ltb Z.compare].
    eexists _, _, (wf_data (dest_ w1)
                   ++ legacy_header crc32c_Extend w1 _ P), (repeat 0 7).
    split; [reflexivity |].
    cbn [wal_offset_of_wb_content_ dest_ set_num_entries].
    split_and!.
    + rewrite length_app, Nat2Z.inj_add, legacy_header_length. reflexivity.
    + exact Hmod.
    + reflexivity.
    + unfold emitted, with_data. cbn [dest_ set_block set_dest wf_data].
      rewrite <- app_assoc. reflexivity.
  - (* two fragments *)
    rewrite Z.min_r by lia.
    set (P1 := take (Z.to_nat avail) P). set (P2 := drop (Z.to_nat avail) P).
    assert (HP1 : Z.of_nat (length P1) = avail)
      by (subst P1; rewrite length_take; unfold kHeaderSize in *; lia).
    assert (HP2 : Z.of_nat (length P2) = Z.of_nat (length P) - avail)
      by (subst P2; rewrite length_drop; unfold kHeaderSize in *; lia).
    replace (0 <? Z.of_nat (length P2)) with true
      by (symmetry; apply Z.ltb_lt; lia).
    set (ty1 := fragment_type false true (Z.of_nat (length P) =? avail)).
    set (w2 := emitted crc32c_Extend w1 ty1 P1).
    destruct (emitted_facts crc32c_Extend w1 ty1 P1 Hal1)
      as (Hal2 & Hnf2 & Hrc2 & Hsz2); [lia |].
    fold w2 in Hal2, Hnf2, Hrc2, Hsz2.
    assert (Hbo2 : block_offset_ w2 = kBlockSize)
      by (subst w2; unfold emitted; cbn [block_offset_ set_block]; lia).
    destruct (length P) as [| fuel] eqn:HlenP; [lia |].
    rewrite AddRecord_loop_run;
      [| exact Hal2 | exact Hnf2 | congruence
       | unfold kBlockSize, kHeaderSize in *; lia].
    cbv zeta.
    assert (Hpad2 : padded w2
                    = set_block (with_data w2 (wf_data (dest_ w2))) 0
                        (block_counts_ w2 + 1)).
    { unfold padded. rewrite Hbo2. cbn. rewrite app_nil_r. reflexivity. }
    rewrite Hpad2. cbn [block_offset_ set_block].
    replace (kBlockSize - 0 - kHeaderSize) with (kBlockSize - kHeaderSize)
      by lia.
    rewrite Z.min_l by (unfold kHeaderSize in *; lia).
    rewrite Nat2Z.id, take_ge, drop_ge by lia.
    cbn [length Z.of_nat Z.ltb Z.compare].
    assert (Hkeep : recorded
                      (set_block (with_data w2 (wf_data (dest_ w2))) 0
                         (block_counts_ w2 + 1))
                      (kBlockSize - kHeaderSize)
                      (Some {| is_recycle := false;
                               wal_offset_of_wb_content_ :=
                                 GetFileSize (dest_ w1) + kHeaderSize |})
                    = Some {| is_recycle := false;
                              wal_offset_of_wb_content_ :=
                                GetFileSize (dest_ w1) + kHeaderSize |}).
    { unfold recorded. cbn [wal_offset_of_wb_content_].
      replace (GetFileSize (dest_ w1) + kHeaderSize =? kUnsetOffset)
        with false; [reflexivity |].
      symmetry. apply Z.eqb_neq. unfold kUnsetOffset, kHeaderSize, kBlockSize in *.
      lia. }
    rewrite Hkeep.
    eexists _, _, (wf_data (dest_ w1) ++ legacy_header crc32c_Extend w1 ty1 P1),
      (legacy_header crc32c_Extend
         (set_block (with_data w2 (wf_data (dest_ w2))) 0 (block_counts_ w2 + 1))
         (fragment_type false false (Z.of_nat (length P2) =? Z.of_nat (length P2)))
         P2).
    split; [reflexivity |].
    cbn [wal_offset_of_wb_content_ dest_ set_num_entries].
    split_and!.
    + rewrite length_app, Nat2Z.inj_add, legacy_header_length. reflexivity.
    + exact Hmod.
    + reflexivity.
    + unfold emitted, with_data.
      cbn [dest_ set_block set_dest wf_data].
      subst w2. unfold emitted, with_data.
      cbn [dest_ set_block set_dest wf_data].
      rewrite <- !app_assoc. reflexivity.
Qed.

End WriteTwo.

(** ** Round trip *)

Section RoundTrip.

Variable crc32c_Value : list Z -> Z.
Variable crc32c_Extend : Z -> list Z -> Z.
Variable Crc16c_update : Z -> list Z -> Z.

Lemma reachable_legacy (w : Writer) :
  reachable crc32c_Value crc32c_Extend w -> recycle_log_files_ w = false.
Proof.
  induction 1 as [faults ln mf | w w' slice n wt wt' Hreach IH Hadd].
  - reflexivity.
  - apply reachable_block_aligned in Hreach.
    unfold AddRecord in Hadd. rewrite IH in Hadd.
    cbn [negb assert] in Hadd.
    apply bind_Done_inv in Hadd as (_ & _ & Hadd).
    apply bind_Done_inv in Hadd as ([[s w1] wt1] & Hloop & Hadd).
    injection Hadd as -> <- <-.
    apply AddRecord_loop_aligned in Hloop; [| exact IH | exact Hreach].
    destruct Hloop as [_ Hrc]. exact Hrc.
Qed.

(** C1, as the code has it.  For a reachable writer whose file refuses
    nothing, with room for at least [kHeaderSize] bytes of payload in the
    block the record starts in, and for a payload [P] that is not empty
    and needs at most two fragments, the second of at most
    [kBlockSize - 2 * kHeaderSize] bytes: [AddRecord] returns [OK] and
    records an offset, and [GetBlob] on the file written, for the handle
    made of that offset, the length of [P] and the CRC16Cs of the head and
    the tail of [P], returns exactly [P]. *)
Theorem AddRecord_GetBlob_round_trip (w : Writer) (P : list Z)
    (num_entries : Z) (t : WriteThreadWriter) :
  reachable crc32c_Value crc32c_Extend w ->
  wf_faults (dest_ w) = [] ->
  GetFileSize (dest_ w) + 2 * kBlockSize < 2 ^ 63 ->
  wal_offset_of_wb_content_ t = kUnsetOffset ->
  kHeaderSize <= first_avail w ->
  0 < Z.of_nat (length P)
    <= first_avail w + (kBlockSize - 2 * kHeaderSize) ->
  exists w' t',
    AddRecord crc32c_Extend w P num_entries (Some t) = Done (OK, w', Some t')
    /\ forall r : WalBlobReader,
         ra_data (src_ r) = wf_data (dest_ w') ->
         ra_healthy (src_ r) = true ->
         wal_header_size_ r = kHeaderSize ->
         blob_cache_ r
           !! GenerateCacheUniqueId r
                (make_handle Crc16c_update kHeaderSize
                   (wal_offset_of_wb_content_ t') P) = None ->
         exists r',
           GetBlob crc32c_Value Crc16c_update r
             (make_handle Crc16c_update kHeaderSize
                (wal_offset_of_wb_content_ t') P)
           = Done (OK, P, r').
Proof.
  intros Hreach Hnf Hsz Hunset Hroom HP.
  pose proof (reachable_legacy w Hreach) as Hrc.
  pose proof (reachable_block_aligned _ _ _ Hreach) as Hal.
  destruct (switch_block_padded w (proj2 Hal) Hnf) as (_ & _ & Hlo1 & _).
  destruct (AddRecord_at_most_two_fragments crc32c_Extend w P num_entries t
              Hal Hnf Hrc Hsz Hunset Hroom HP)
    as (w' & t' & pre & hdr & Hadd & Hpre & Hmod & Hhdr & Hfile).
  exists w', t'. split; [exact Hadd |].
  intros r Hdata Hok Hhs Hmiss.
  set (off := wal_offset_of_wb_content_ t') in *.
  assert (Havail : first_avail w <= kBlockSize - kHeaderSize)
    by (unfold first_avail; lia).
  destruct (Z.leb_spec (Z.of_nat (length P)) (first_avail w)) as [Hone | Htwo].
  - rewrite <- Hhs in Hmiss |- *.
    apply (GetBlob_single_fragment crc32c_Value Crc16c_update r pre P [] off).
    + rewrite Hdata, Hfile, app_nil_r. reflexivity.
    + exact Hok.
    + exact Hpre.
    + destruct P; [simpl in HP; lia | discriminate].
    + rewrite Hmod. lia.
    + exact Hmiss.
  - remember (take (Z.to_nat (first_avail w)) P) as P1 eqn:EP1.
    remember (drop (Z.to_nat (first_avail w)) P) as P2 eqn:EP2.
    assert (H1 : Z.of_nat (length P1) = first_avail w)
      by (subst P1; rewrite length_take; unfold kHeaderSize in *; lia).
    assert (H2 : Z.of_nat (length P2) = Z.of_nat (length P) - first_avail w)
      by (subst P2; rewrite length_drop; unfold kHeaderSize in *; lia).
    assert (EP : P = P1 ++ P2) by (subst P1 P2; symmetry; apply take_drop).
    rewrite EP in Hmiss |- *.
    apply (GetBlob_two_fragments crc32c_Value Crc16c_update r pre
             P1 hdr P2 [] off).
    + rewrite Hdata, Hfile, app_nil_r. reflexivity.
    + exact Hok.
    + exact Hhs.
    + exact Hpre.
    + rewrite Hmod. lia.
    + rewrite Hmod, H1. lia.
    + exact Hhdr.
    + rewrite H2. unfold kHeaderSize in *. lia.
    + exact Hmiss.
Qed.

End RoundTrip.

Lemma AddRecord_GetBlob_round_trip_witness :
  exists w' t',
    AddRecord crc32c_Extend_ref fresh_writer [104; 105] 1 (Some unset_wt)
    = Done (OK, w', Some t')
    /\ forall r : WalBlobReader,
         ra_data (src_ r) = wf_data (dest_ w') ->
         ra_healthy (src_ r) = true ->
         wal_header_size_ r = kHeaderSize ->
         blob_cache_ r
           !! GenerateCacheUniqueId r
                (make_handle Crc16c_update_ref kHeaderSize
                   (wal_offset_of_wb_content_ t') [104; 105]) = None ->
         exists r',
           GetBlob crc32c_Value_ref Crc16c_update_ref r
             (make_handle Crc16c_update_ref kHeaderSize
                (wal_offset_of_wb_content_ t') [104; 105])
           = Done (OK, [104; 105], r').
Proof.
  apply (AddRecord_GetBlob_round_trip crc32c_Value_ref crc32c_Extend_ref
           Crc16c_update_ref fresh_writer [104; 105] 1 unset_wt).
  - apply (reachable_new crc32c_Value_ref crc32c_Extend_ref [] 1 false).
  - reflexivity.
  - by vm_compute.
  - reflexivity.
  - by vm_compute.
  - split; by vm_compute.
Defined.

(** A record of two fragments, run through the writer and the reader. *)
Example round_trip_two_fragments :
  round_trip_ok fresh_writer (ramp (Z.to_nat (32761 + 100)) 0) = true.
Proof. vm_compute. reflexivity. Qed.

(** C1 as stated fails on the empty payload: the writer emits the empty
    record and records the offset 7, and [GetBlob] on its handle stops at
    the assertion that the bytes read are not empty. *)
Lemma round_trip_empty_payload_aborts :
  exists w' t',
    AddRecord crc32c_Extend_ref fresh_writer [] 1 (Some unset_wt)
    = Done (OK, w', Some t')
    /\ GetBlob crc32c_Value_ref Crc16c_update_ref
         (open_reader (wf_data (dest_ w')))
         (make_handle Crc16c_update_ref kHeaderSize
            (wal_offset_of_wb_content_ t') [])
       = Abort.
Proof.
  eexists _, _. split; [vm_compute; reflexivity |].
  vm_compute. reflexivity.
Qed.

(** Beyond two fragments [ShrinkVal] goes wrong: it takes
    [kBlockSize - record_header_size] bytes for a block where
    [kBlockSize] bytes lie, and it always reads [record_header_size]
    bytes past what it writes, so the headers of later fragments stay
    in the payload.  For the record of three fragments [GetBlob] returns
    [OK] with bytes that are not the payload. *)
Example long_handle_is_made :
  long_handle = make_handle Crc16c_update_ref kHeaderSize 7 long_payload.
Proof. vm_compute. reflexivity. Qed.

Example round_trip_three_fragments_differs :
  round_trip_ok fresh_writer long_payload = false
  /\ match GetBlob crc32c_Value_ref Crc16c_update_ref (open_reader long_file)
             long_handle with
     | Done (OK, out, _) =>
         (Z.of_nat (length out) =? Z.of_nat (length long_payload))
         && negb (bytes_eqb out long_payload)
     | _ => false
     end = true.
Proof. split; vm_compute; reflexivity. Qed.

(** * Further properties of the code *)

(** ** [AddRecord] always returns *)

Lemma first_avail_eq (w : Writer) :
  first_avail w
  = if kBlockSize - block_offset_ w <? kHeaderSize
    then kBlockSize - kHeaderSize
    else kBlockSize - block_offset_ w - kHeaderSize.
Proof.
  unfold first_avail, padded.
  destruct (kBlockSize - block_offset_ w <? kHeaderSize); simpl; lia.
Qed.

Lemma switch_block_returns (w : Writer) :
  0 <= block_offset_ w <= kBlockSize ->
  exists r, switch_block w kHeaderSize = Done r.
Proof.
  intros Hbo. unfold switch_block.
  rewrite to_int64_small by (unfold kBlockSize in *; lia).
  rewrite bind_assert_true by (apply Z.leb_le; lia).
  destruct (_ <? kHeaderSize); [| eauto].
  destruct (0 <? _); [| eauto].
  rewrite bind_assert_true by reflexivity.
  destruct (Append _ _) as [s d]. destruct (ok s); eauto.
Qed.

Lemma switch_block_first_avail (w w1 : Writer) :
  0 <= block_offset_ w <= kBlockSize ->
  switch_block w kHeaderSize = Done (inr w1) ->
  kBlockSize - block_offset_ w1 - kHeaderSize = first_avail w.
Proof.
  intros Hbo H. rewrite first_avail_eq.
  apply switch_block_inv in H; [| exact Hbo].
  destruct H as (_ & _ & [[Hfit ->] | (Hlt & -> & _)]).
  - destruct (Z.ltb_spec (kBlockSize - block_offset_ w) kHeaderSize); lia.
  - destruct (Z.ltb_spec (kBlockSize - block_offset_ w) kHeaderSize); lia.
Qed.

Lemma switch_block_file_size (w w1 : Writer) :
  0 <= block_offset_ w <= kBlockSize ->
  switch_block w kHeaderSize = Done (inr w1) ->
  GetFileSize (dest_ w) <= GetFileSize (dest_ w1)
                        < GetFileSize (dest_ w) + kHeaderSize.
Proof.
  intros Hbo H. apply switch_block_inv in H; [| exact Hbo].
  destruct H as (_ & _ & [[Hfit ->] | (Hlt & _ & _ & E)]).
  - unfold kHeaderSize. lia.
  - unfold GetFileSize. rewrite E, length_app, repeat_length.
    unfold kHeaderSize in *. lia.
Qed.

Section Returns.

Variable crc32c_Extend : Z -> list Z -> Z.

Lemma EmitPhysicalRecord_returns (w : Writer) (t : RecordType)
    (data : list Z) :
  0 <= block_offset_ w ->
  block_offset_ w + kRecyclableHeaderSize + Z.of_nat (length data)
  <= kBlockSize
  \/ (header_size_of t = kHeaderSize
      /\ block_offset_ w + kHeaderSize + Z.of_nat (length data) <= kBlockSize) ->
  exists s w2, EmitPhysicalRecord crc32c_Extend w t data = Done (s, w2).
Proof.
  intros Hbo Hfit. unfold EmitPhysicalRecord.
  rewrite bind_assert_true
    by (apply Z.leb_le; unfold kBlockSize, kHeaderSize, kRecyclableHeaderSize in *;
        lia).
  unfold header_size_of in Hfit.
  destruct (type_code t <? type_code kRecyclableFullType).
  - rewrite bind_assert_true
      by (apply Z.leb_le; unfold kHeaderSize, kRecyclableHeaderSize in *; lia).
    unfold mbind, Outcome_bind, bind. cbv beta iota.
    destruct (Append (dest_ w) _) as [s1 d1].
    destruct (ok s1); [| eauto].
    destruct (Append d1 data) as [s2 d2].
    destruct (ok s2); [| eauto].
    destruct (negb (manual_flush_ w)); [| eauto].
    destruct (Flush d2) as [s3 d3]. eauto.
  - rewrite bind_assert_true
      by (apply Z.leb_le; destruct Hfit as [H | [H _]];
          [exact H | unfold kHeaderSize, kRecyclableHeaderSize in H; lia]).
    unfold mbind, Outcome_bind, bind. cbv beta iota.
    destruct (Append (dest_ w) _) as [s1 d1].
    destruct (ok s1); [| eauto].
    destruct (Append d1 data) as [s2 d2].
    destruct (ok s2); [| eauto].
    destruct (negb (manual_flush_ w)); [| eauto].
    destruct (Flush d2) as [s3 d3]. eauto.
Qed.

Lemma AddRecord_loop_returns (fuel : nat) :
  forall (w : Writer) (wt : option WriteThreadWriter) (rest : list Z)
         (begin : bool),
    recycle_log_files_ w = false ->
    block_aligned w ->
    GetFileSize (dest_ w) + Z.of_nat fuel * (2 * kBlockSize) < 2 ^ 64 ->
    Z.of_nat (length rest) + 1 <= Z.of_nat fuel ->
    0 < first_avail w \/ Z.of_nat (length rest) + 2 <= Z.of_nat fuel ->
    exists s w' wt',
      AddRecord_loop crc32c_Extend fuel kHeaderSize w wt rest begin
      = Done (s, w', wt').
Proof.
  induction fuel as [| fuel IH]; intros w wt rest begin Hrc Hal Hsz Hf1 Hf2;
    [lia |].
  cbn [AddRecord_loop].
  destruct (switch_block_returns w (proj2 Hal)) as [r Hsw]. rewrite Hsw.
  unfold mbind at 1, Outcome_bind at 1, bind at 1.
  destruct r as [[s0 w0] | w1]; [eauto |].
  pose proof (switch_block_aligned _ _ _ Hal Hsw) as Hal1.
  pose proof (switch_block_first_avail _ _ (proj2 Hal) Hsw) as Hav.
  pose proof (switch_block_file_size _ _ (proj2 Hal) Hsw) as Hfs.
  assert (Hhs : 0 <= kHeaderSize <= kBlockSize)
    by (unfold kHeaderSize, kBlockSize; lia).
  pose proof (switch_block_offset _ _ _ (proj2 Hal) Hhs Hsw) as [Hlo Hhi].
  pose proof (switch_block_inv _ _ _ (proj2 Hal) Hsw) as (_ & Hrc1 & _).
  rewrite Hrc in Hrc1.
  rewrite to_int64_small by (unfold kBlockSize, kHeaderSize in *; lia).
  rewrite bind_assert_true by (apply Z.leb_le; lia).
  rewrite (wrap64_small (kBlockSize - block_offset_ w1 - kHeaderSize))
    by (unfold kBlockSize, kHeaderSize in *; lia).
  set (avail := kBlockSize - block_offset_ w1 - kHeaderSize) in *.
  assert (Hfrag : (if Z.of_nat (length rest) <? avail
                   then Z.of_nat (length rest) else avail)
                  = Z.min (Z.of_nat (length rest)) avail).
  { destruct (Z.ltb_spec (Z.of_nat (length rest)) avail); lia. }
  rewrite Hfrag, Hrc1.
  subst avail.
  rewrite record_offset_recorded;
    [| exact Hal1 | unfold kHeaderSize, kBlockSize in *; lia | exact Hhi].
  set (avail := kBlockSize - block_offset_ w1 - kHeaderSize) in *.
  unfold mbind at 1, Outcome_bind at 1, bind at 1.
  set (frag := Z.min (Z.of_nat (length rest)) avail).
  assert (Hfr : 0 <= frag <= avail) by (subst frag avail; lia).
  set (ty := fragment_type false begin (Z.of_nat (length rest) =? frag)).
  assert (Hlen : Z.of_nat (length (take (Z.to_nat frag) rest)) = frag)
    by (rewrite length_take; subst frag; lia).
  destruct (EmitPhysicalRecord_returns w1 ty (take (Z.to_nat frag) rest) Hlo)
    as (s & w2 & Hemit).
  { right. split; [apply header_size_of_legacy | subst avail; lia]. }
  rewrite Hemit. unfold mbind, Outcome_bind, bind.
  destruct s; cbn [ok andb]; [| eauto].
  destruct (Z.ltb_spec 0 (Z.of_nat (length (drop (Z.to_nat frag) rest))))
    as [Hmore | Hdone]; [| eauto].
  rewrite length_drop in Hmore.
  pose proof (EmitPhysicalRecord_aligned _ _ _ _ _ Hal1
                ltac:(rewrite header_size_of_legacy; unfold kHeaderSize; lia)
                Hemit) as Hal2.
  pose proof (EmitPhysicalRecord_inv _ _ _ _ _ _ Hemit)
    as (Hbo2 & _ & _ & _ & Hrc2 & Hdata).
  destruct (Hdata eq_refl) as (hdr & Hhdr & Edata).
  assert (Hty : header_size_of ty = kHeaderSize)
    by apply header_size_of_legacy.
  rewrite Hty in *.
  assert (Hfrag_av : frag = avail) by (subst frag; lia).
  assert (Hend : block_offset_ w2 = kBlockSize) by (subst avail; lia).
  apply IH.
  - congruence.
  - exact Hal2.
  - unfold GetFileSize in *. rewrite Edata, !length_app.
    unfold kHeaderSize, kBlockSize in *. lia.
  - rewrite length_drop.
    destruct (Z.eq_dec (first_avail w) 0); lia.
  - left. rewrite first_avail_eq, Hend.
    unfold kBlockSize, kHeaderSize. simpl. lia.
Qed.

(** X1. [AddRecord] on a writer of the legacy format that knows where it
    is in the file always returns: its loop ends within two rounds more
    than there are bytes, and none of its assertions fails, whatever
    calls the file refuses. *)
Theorem AddRecord_returns (w : Writer) (slice : list Z) (num_entries : Z)
    (wt : option WriteThreadWriter) :
  block_aligned w ->
  recycle_log_files_ w = false ->
  GetFileSize (dest_ w) + (Z.of_nat (length slice) + 2) * (2 * kBlockSize)
  < 2 ^ 64 ->
  exists s w' wt',
    AddRecord crc32c_Extend w slice num_entries wt = Done (s, w', wt').
Proof.
  intros Hal Hrc Hsz. unfold AddRecord. rewrite Hrc.
  cbn [negb assert]. unfold mbind at 1, Outcome_bind at 1, bind at 1.
  destruct (AddRecord_loop_returns (S (S (length slice))) w
              (match wt with
               | Some t => Some {| is_recycle := false;
                                   wal_offset_of_wb_content_ :=
                                     wal_offset_of_wb_content_ t |}
               | None => None
               end) slice true Hrc Hal) as (s & w' & wt' & H).
  - lia.
  - lia.
  - right. lia.
  - rewrite H. unfold mbind, Outcome_bind, bind. eauto.
Qed.

End Returns.

Lemma AddRecord_returns_witness :
  exists s w' wt',
    AddRecord crc32c_Extend_ref refusing_writer [104; 105] 1 (Some unset_wt)
    = Done (s, w', wt').
Proof.
  apply (AddRecord_returns crc32c_Extend_ref refusing_writer [104; 105] 1
           (Some unset_wt)).
  - apply NewWriter_aligned.
  - reflexivity.
  - by vm_compute.
Defined.

(** ** [AddRecord] only appends *)

Lemma Append_grows (f f' : WritableFileWriter) (bytes : list Z) (s : Status) :
  Append f bytes = (s, f') -> exists added, wf_data f' = wf_data f ++ added.
Proof.
  intros H. apply Append_spec in H as [[_ E] | (_ & E & _)].
  - eauto.
  - exists []. rewrite app_nil_r. exact E.
Qed.

Lemma switch_block_grows (w : Writer) (r : Status * Writer + Writer) :
  switch_block w kHeaderSize = Done r ->
  let w1 := match r with inl (_, w1) => w1 | inr w1 => w1 end in
  (exists added, wf_data (dest_ w1) = wf_data (dest_ w) ++ added)
  /\ block_counts_ w <= block_counts_ w1.
Proof.
  unfold switch_block. intros H. apply bind_assert_Done in H as [_ H].
  destruct (_ <? kHeaderSize).
  - destruct (0 <? _).
    + apply bind_assert_Done in H as [_ H].
      destruct (Append _ _) as [s d] eqn:A. apply Append_grows in A.
      destruct (ok s); injection H as <-; simpl; split; try lia; exact A.
    + injection H as <-. simpl. split; [| lia].
      exists []. rewrite app_nil_r. reflexivity.
  - injection H as <-. simpl. split; [| lia].
    exists []. rewrite app_nil_r. reflexivity.
Qed.

Section AppendOnly.

Variable crc32c_Extend : Z -> list Z -> Z.

Lemma EmitPhysicalRecord_grows (w w2 : Writer) (t : RecordType)
    (data : list Z) (s : Status) :
  EmitPhysicalRecord crc32c_Extend w t data = Done (s, w2) ->
  exists added, wf_data (dest_ w2) = wf_data (dest_ w) ++ added.
Proof.
  unfold EmitPhysicalRecord. intros H.
  apply bind_assert_Done in H as [_ H].
  apply bind_Done_inv in H as ([[hs crc1] log_no] & _ & H).
  destruct (Append (dest_ w) _) as [s1 d1] eqn:A1.
  apply Append_grows in A1 as [a1 E1].
  destruct (ok s1).
  - destruct (Append d1 data) as [s2 d2] eqn:A2.
    apply Append_grows in A2 as [a2 E2].
    destruct (ok s2).
    + destruct (negb (manual_flush_ w)).
      * destruct (Flush d2) as [s3 d3] eqn:F3. apply Flush_spec in F3.
        injection H as _ <-. simpl. exists (a1 ++ a2).
        rewrite F3, E2, E1, app_assoc. reflexivity.
      * injection H as _ <-. simpl. exists (a1 ++ a2).
        rewrite E2, E1, app_assoc. reflexivity.
    + injection H as _ <-. simpl. exists (a1 ++ a2).
      rewrite E2, E1, app_assoc. reflexivity.
  - injection H as _ <-. simpl. eauto.
Qed.

Lemma AddRecord_loop_grows (fuel : nat) :
  forall (w : Writer) (wt : option WriteThreadWriter) (rest : list Z)
         (begin : bool) (s : Status) (w' : Writer)
         (wt' : option WriteThreadWriter),
    recycle_log_files_ w = false ->
    0 <= block_offset_ w <= kBlockSize ->
    AddRecord_loop crc32c_Extend fuel kHeaderSize w wt rest begin
    = Done (s, w', wt') ->
    (exists added, wf_data (dest_ w') = wf_data (dest_ w) ++ added)
    /\ block_counts_ w <= block_counts_ w'.
Proof.
  induction fuel as [| fuel IH]; intros w wt rest begin s w' wt' Hrc Hbo H;
    [discriminate |].
  apply AddRecord_loop_step in H; [| exact Hbo | exact Hrc].
  destruct H as [(w1 & Hsw & [= -> -> ->]) | (w1 & wt1 & s1 & w2 & H)].
  - apply (switch_block_grows w _ Hsw).
  - cbv zeta in H.
    destruct H as (Hsw & Hlo & Hav & Hrc1 & Hrec & Hemit & Hnext).
    pose proof (switch_block_grows w _ Hsw) as [[a1 E1] Hc1].
    cbv zeta in E1, Hc1.
    pose proof (EmitPhysicalRecord_grows _ _ _ _ _ Hemit) as [a2 E2].
    pose proof (EmitPhysicalRecord_inv _ _ _ _ _ _ Hemit)
      as (Hbo2 & Hfit & Hc2 & _ & Hrc2 & _).
    rewrite header_size_of_legacy in *.
    assert (Hgoal : (exists added,
                       wf_data (dest_ w2) = wf_data (dest_ w) ++ added)
                    /\ block_counts_ w <= block_counts_ w2).
    { split; [| lia]. exists (a1 ++ a2). rewrite E2, E1, app_assoc.
      reflexivity. }
    destruct (ok s1 && _).
    + apply IH in Hnext; [| congruence | unfold kHeaderSize in *; lia].
      destruct Hnext as [[a3 E3] Hc3]. destruct Hgoal as [[a E] Hc].
      split; [| lia]. exists (a ++ a3). rewrite E3, E, app_assoc.
      reflexivity.
    + injection Hnext as <- <- <-. exact Hgoal.
Qed.

(** X2. [AddRecord] only appends: whatever status it returns, the file
    afterwards starts with the bytes it held before, and the count of
    blocks left behind has not gone down. *)
Theorem AddRecord_append_only (w w' : Writer) (slice : list Z)
    (num_entries : Z) (wt wt' : option WriteThreadWriter) (s : Status) :
  0 <= block_offset_ w <= kBlockSize ->
  AddRecord crc32c_Extend w slice num_entries wt = Done (s, w', wt') ->
  (exists added, wf_data (dest_ w') = wf_data (dest_ w) ++ added)
  /\ block_counts_ w <= block_counts_ w'.
Proof.
  intros Hbo H. unfold AddRecord in H.
  apply bind_assert_Done in H as [Hrc H].
  apply negb_true_iff in Hrc. rewrite Hrc in H.
  apply bind_Done_inv in H as ([[s1 w1] wt1] & Hloop & H).
  injection H as <- <- <-.
  apply AddRecord_loop_grows in Hloop; [| exact Hrc | exact Hbo].
  exact Hloop.
Qed.

End AppendOnly.

Lemma AddRecord_append_only_witness :
  exists w' wt',
    AddRecord crc32c_Extend_ref refusing_writer [104; 105] 1 None
    = Done (IOError, w', wt')
    /\ (exists added,
          wf_data (dest_ w') = wf_data (dest_ refusing_writer) ++ added)
    /\ block_counts_ refusing_writer <= block_counts_ w'.
Proof.
  eexists _, _. split; [vm_compute; reflexivity |].
  apply (AddRecord_append_only crc32c_Extend_ref refusing_writer
           _ [104; 105] 1 None None IOError).
  - by vm_compute.
  - vm_compute. reflexivity.
Defined.

(** ** The bytes a record takes in the file *)

Lemma recorded_settled (w : Writer) (avail : Z)
    (wt : option WriteThreadWriter) :
  wt_settled wt -> recorded w avail wt = wt.
Proof.
  destruct wt as [t |]; [| reflexivity]. simpl. intros H.
  apply Z.eqb_neq in H. rewrite H. reflexivity.
Qed.

Lemma padded_at_block_end (w : Writer) :
  block_offset_ w = kBlockSize ->
  block_offset_ (padded w) = 0
  /\ GetFileSize (dest_ (padded w)) = GetFileSize (dest_ w).
Proof.
  intros Hbo. unfold padded, GetFileSize. rewrite Hbo. cbn.
  rewrite app_nil_r. split; reflexivity.
Qed.

(** When the block a record starts in has room for [kHeaderSize] bytes
    of payload behind the header. *)
Lemma first_avail_room (w : Writer) :
  0 <= block_offset_ w <= kBlockSize ->
  kHeaderSize <= first_avail w
  <-> (kBlockSize - block_offset_ w < kHeaderSize
       \/ 2 * kHeaderSize <= kBlockSize - block_offset_ w).
Proof.
  intros Hbo. unfold first_avail, padded.
  destruct (Z.ltb_spec (kBlockSize - block_offset_ w) kHeaderSize);
    cbn [block_offset_ set_block]; unfold kBlockSize, kHeaderSize in *; lia.
Qed.

Section PhysicalLength.

Variable crc32c_Extend : Z -> list Z -> Z.

(** The rounds after the first: from the end of a block, the rest of a
    record takes a whole block for every [kBlockSize - kHeaderSize] bytes
    and a header and the remainder for what is left. *)
Lemma AddRecord_loop_tail (fuel : nat) :
  forall (w : Writer) (wt : option WriteThreadWriter) (rest : list Z),
    block_aligned w ->
    wf_faults (dest_ w) = [] ->
    recycle_log_files_ w = false ->
    block_offset_ w = kBlockSize ->
    0 < Z.of_nat (length rest) <= Z.of_nat fuel ->
    GetFileSize (dest_ w) + Z.of_nat fuel * (2 * kBlockSize) < 2 ^ 64 ->
    wt_settled wt ->
    exists w',
      AddRecord_loop crc32c_Extend fuel kHeaderSize w wt rest false
      = Done (OK, w', wt)
      /\ GetFileSize (dest_ w')
         = GetFileSize (dest_ w)
           + Z.of_nat (length rest) / (kBlockSize - kHeaderSize) * kBlockSize
           + (if Z.of_nat (length rest) mod (kBlockSize - kHeaderSize) =? 0
              then 0
              else kHeaderSize
                   + Z.of_nat (length rest) mod (kBlockSize - kHeaderSize)).
Proof.
  induction fuel as [| fuel IH]; intros w wt rest Hal Hnf Hrc Hbo Hlen Hsz Hwt;
    [lia |].
  rewrite AddRecord_loop_run;
    [| exact Hal | exact Hnf | exact Hrc | unfold kBlockSize in *; lia].
  cbv zeta.
  destruct (switch_block_padded w (proj2 Hal) Hnf)
    as (_ & Hnf1 & _ & _ & Hrc1 & Hal1).
  specialize (Hal1 Hal). rewrite Hrc in Hrc1.
  destruct (padded_at_block_end w Hbo) as [Hbo1 Hfs1].
  set (w1 := padded w) in *. rewrite Hbo1.
  replace (kBlockSize - 0 - kHeaderSize) with (kBlockSize - kHeaderSize) by lia.
  set (pb := kBlockSize - kHeaderSize) in *.
  assert (Hpb : pb = 32761) by reflexivity.
  rewrite recorded_settled by exact Hwt.
  set (n := Z.of_nat (length rest)) in *.
  destruct (Z_le_gt_dec n pb) as [Hle | Hgt].
  - rewrite Z.min_l by lia. subst n.
    rewrite Nat2Z.id, take_ge, drop_ge by lia.
    cbn [length Z.of_nat Z.ltb Z.compare].
    eexists. split; [reflexivity |].
    destruct (emitted_facts crc32c_Extend w1
                (fragment_type false false
                   (Z.of_nat (length rest) =? Z.of_nat (length rest)))
                rest Hal1) as (_ & _ & _ & E).
    { rewrite Hbo1. unfold kHeaderSize, kBlockSize in *. lia. }
    rewrite E, Hfs1.
    destruct (Z.eq_dec (Z.of_nat (length rest)) pb) as [Heq | Hne].
    + rewrite Heq, Z.div_same, Z.mod_same by lia. cbn [Z.eqb].
      unfold kHeaderSize, kBlockSize in *. lia.
    + rewrite Z.div_small, Z.mod_small by lia.
      destruct (Z.eqb_spec (Z.of_nat (length rest)) 0); lia.
  - rewrite Z.min_r by lia.
    set (P1 := take (Z.to_nat pb) rest). set (P2 := drop (Z.to_nat pb) rest).
    assert (HP1 : Z.of_nat (length P1) = pb)
      by (subst P1; rewrite length_take; lia).
    assert (HP2 : Z.of_nat (length P2) = n - pb)
      by (subst P2 n; rewrite length_drop; lia).
    replace (0 <? Z.of_nat (length P2)) with true
      by (symmetry; apply Z.ltb_lt; lia).
    set (ty := fragment_type false false (n =? pb)).
    destruct (emitted_facts crc32c_Extend w1 ty P1 Hal1)
      as (Hal2 & Hnf2 & Hrc2 & Hsz2).
    { rewrite Hbo1. unfold kHeaderSize, kBlockSize in *. lia. }
    set (w2 := emitted crc32c_Extend w1 ty P1) in *.
    assert (Hbo2 : block_offset_ w2 = kBlockSize).
    { subst w2. unfold emitted. cbn [block_offset_ set_block].
      rewrite Hbo1, HP1. unfold kHeaderSize, kBlockSize in *. lia. }
    destruct (IH w2 wt P2 Hal2 Hnf2) as (w' & Hrun & Hsize).
    + congruence.
    + exact Hbo2.
    + lia.
    + rewrite Hsz2, Hfs1, HP1. unfold kHeaderSize, kBlockSize in *. lia.
    + exact Hwt.
    + exists w'. split; [exact Hrun |].
      rewrite Hsize, Hsz2, Hfs1, HP1, HP2.
      assert (Hq : n / pb = (n - pb) / pb + 1).
      { replace n with (n - pb + 1 * pb) at 1 by lia.
        apply Z.div_add. lia. }
      assert (Hm : n mod pb = (n - pb) mod pb).
      { replace n with (n - pb + 1 * pb) at 1 by lia.
        apply Z.mod_add. lia. }
      rewrite Hq, Hm.
      destruct ((n - pb) mod pb =? 0);
        unfold kHeaderSize, kBlockSize in *; lia.
Qed.

(** X3. Take a writer of the legacy format that knows where it is in the
    file, a file that refuses nothing and a handle whose offset is unset,
    and let the block the record starts in have room, behind the header,
    for at least [kHeaderSize] bytes of payload: the current block has
    fewer than [kHeaderSize] bytes left, so that the record starts the
    next block, or at least twice [kHeaderSize].  Then [AddRecord]
    returns [OK], and the record takes in the file, from the offset
    recorded in the handle to the end of the file, exactly
    [GetPhysicalLength] bytes, however many fragments it needs: the
    number of bytes [GetBlob] will read for its handle. *)
Theorem AddRecord_physical_length (w : Writer) (P : list Z) (num_entries : Z)
    (t : WriteThreadWriter) :
  block_aligned w ->
  wf_faults (dest_ w) = [] ->
  recycle_log_files_ w = false ->
  wal_offset_of_wb_content_ t = kUnsetOffset ->
  kHeaderSize <= first_avail w ->
  GetFileSize (dest_ w) + (Z.of_nat (length P) + 2) * (2 * kBlockSize)
  < 2 ^ 63 ->
  exists w' t',
    AddRecord crc32c_Extend w P num_entries (Some t) = Done (OK, w', Some t')
    /\ GetFileSize (dest_ w') - wal_offset_of_wb_content_ t'
       = GetPhysicalLength (Z.of_nat (length P))
           (wal_offset_of_wb_content_ t') kHeaderSize.
Proof.
  intros Hal Hnf Hrc Hunset Hroom Hsz.
  destruct (switch_block_padded w (proj2 Hal) Hnf)
    as (_ & Hnf1 & Hlo1 & Hhi1 & Hrc1 & Hal1).
  specialize (Hal1 Hal). rewrite Hrc in Hrc1.
  pose proof (padded_file_size w (proj2 Hal)) as Hpf.
  unfold AddRecord. rewrite Hrc. cbn [negb assert].
  unfold mbind at 1, Outcome_bind at 1, bind at 1.
  rewrite AddRecord_loop_run;
    [| exact Hal | exact Hnf | exact Hrc | unfold kBlockSize in *; lia].
  cbv zeta. fold (first_avail w).
  set (w1 := padded w) in *. set (avail := first_avail w) in *.
  assert (Havail : avail = kBlockSize - block_offset_ w1 - kHeaderSize)
    by reflexivity.
  set (off := GetFileSize (dest_ w1) + kHeaderSize).
  assert (Hfs1 : 0 <= GetFileSize (dest_ w1)) by (unfold GetFileSize; lia).
  assert (Hwt1 : recorded w1 avail
                   (Some {| is_recycle := false;
                            wal_offset_of_wb_content_ :=
                              wal_offset_of_wb_content_ t |})
                 = Some {| is_recycle := false;
                           wal_offset_of_wb_content_ := off |}).
  { unfold recorded. cbn [wal_offset_of_wb_content_ is_recycle].
    rewrite Hunset, Z.eqb_refl. unfold GetFirstEntryPhysicalOffset.
    destruct (Z.leb_spec kHeaderSize avail); [reflexivity | lia]. }
  rewrite Hwt1.
  assert (Hmod : off mod kBlockSize = kBlockSize - avail).
  { subst off.
    rewrite aligned_offset_mod; [lia | exact Hal1 | unfold kHeaderSize; lia |].
    unfold kHeaderSize in *. lia. }
  assert (Hphys : GetPhysicalLength (Z.of_nat (length P)) off kHeaderSize
                  = if Z.of_nat (length P) <=? avail then Z.of_nat (length P)
                    else avail
                         + (Z.of_nat (length P) - avail)
                           / (kBlockSize - kHeaderSize) * kBlockSize
                         + (if (Z.of_nat (length P) - avail)
                               mod (kBlockSize - kHeaderSize) =? 0
                            then 0
                            else kHeaderSize
                                 + (Z.of_nat (length P) - avail)
                                   mod (kBlockSize - kHeaderSize))).
  { unfold GetPhysicalLength. rewrite Hmod.
    replace (kBlockSize - (kBlockSize - avail)) with avail by lia.
    reflexivity. }
  destruct (Z.leb_spec (Z.of_nat (length P)) avail) as [Hone | Hmany].
  - rewrite Z.min_l by lia. rewrite Nat2Z.id, take_ge, drop_ge by lia.
    cbn [length Z.of_nat Z.ltb Z.compare].
    unfold mbind, Outcome_bind, bind.
    eexists _, _. split; [reflexivity |].
    cbn [wal_offset_of_wb_content_ dest_ set_num_entries]. rewrite Hphys.
    destruct (emitted_facts crc32c_Extend w1
                (fragment_type false true
                   (Z.of_nat (length P) =? Z.of_nat (length P))) P Hal1)
      as (_ & _ & _ & E); [lia |].
    rewrite E. subst off. lia.
  - rewrite Z.min_r by lia.
    set (P1 := take (Z.to_nat avail) P). set (P2 := drop (Z.to_nat avail) P).
    assert (HP1 : Z.of_nat (length P1) = avail)
      by (subst P1; rewrite length_take; unfold kHeaderSize in *; lia).
    assert (HP2 : Z.of_nat (length P2) = Z.of_nat (length P) - avail)
      by (subst P2; rewrite length_drop; unfold kHeaderSize in *; lia).
    replace (0 <? Z.of_nat (length P2)) with true
      by (symmetry; apply Z.ltb_lt; lia).
    set (ty1 := fragment_type false true (Z.of_nat (length P) =? avail)).
    destruct (emitted_facts crc32c_Extend w1 ty1 P1 Hal1)
      as (Hal2 & Hnf2 & Hrc2 & Hsz2); [lia |].
    set (w2 := emitted crc32c_Extend w1 ty1 P1) in *.
    assert (Hbo2 : block_offset_ w2 = kBlockSize)
      by (subst w2; unfold emitted; cbn [block_offset_ set_block]; lia).
    destruct (AddRecord_loop_tail (S (length P)) w2
                (Some {| is_recycle := false;
                         wal_offset_of_wb_content_ := off |}) P2 Hal2 Hnf2)
      as (w' & Hrun & Hsize).
    + congruence.
    + exact Hbo2.
    + lia.
    + rewrite Hsz2, HP1. unfold kHeaderSize, kBlockSize in *. lia.
    + cbn. subst off. unfold kUnsetOffset, kHeaderSize, kBlockSize in *. lia.
    + rewrite Hrun. unfold mbind, Outcome_bind, bind.
      eexists _, _. split; [reflexivity |].
      cbn [wal_offset_of_wb_content_ dest_ set_num_entries].
      rewrite Hphys, Hsize, Hsz2, HP1, HP2. subst off. lia.
Qed.

End PhysicalLength.

Lemma AddRecord_physical_length_witness :
  exists w' t',
    AddRecord crc32c_Extend_ref fresh_writer [104; 105] 1 (Some unset_wt)
    = Done (OK, w', Some t')
    /\ GetFileSize (dest_ w') - wal_offset_of_wb_content_ t'
       = GetPhysicalLength (Z.of_nat (length [104; 105]))
           (wal_offset_of_wb_content_ t') kHeaderSize.
Proof.
  apply (AddRecord_physical_length crc32c_Extend_ref fresh_writer
           [104; 105] 1 unset_wt).
  - apply NewWriter_aligned.
  - reflexivity.
  - reflexivity.
  - reflexivity.
  - by vm_compute.
  - by vm_compute.
Defined.

(** ** Fixed-width integers in a buffer *)

Lemma testbit_land_255 (x n : Z) :
  0 <= n -> Z.testbit (Z.land x 255) n = Z.testbit x n && (n <? 8).
Proof.
  intros Hn. change 255 with (Z.ones 8).
  rewrite Z.land_spec, Z.testbit_ones_nonneg by lia.
  destruct (Z.ltb_spec n 8) as [H | H].
  - replace (n <? 8) with true by (symmetry; apply Z.ltb_lt; lia). reflexivity.
  - replace (n <? 8) with false by (symmetry; apply Z.ltb_ge; lia). reflexivity.
Qed.

Lemma land_255_idem (x : Z) : Z.land (Z.land x 255) 255 = Z.land x 255.
Proof. rewrite <- Z.land_assoc. reflexivity. Qed.

Lemma land_255_range (x : Z) : 0 <= Z.land x 255 < 256.
Proof.
  change 255 with (Z.ones 8). rewrite Z.land_ones by lia.
  apply Z.mod_pos_bound. lia.
Qed.

Lemma testbit_shiftl_byte (b k n : Z) :
  0 <= k -> 0 <= n ->
  Z.testbit (Z.shiftl (Z.land b 255) k) n
  = Z.testbit b (n - k) && (k <=? n) && (n <? k + 8).
Proof.
  intros Hk Hn. destruct (Z.leb_spec k n) as [Hle | Hlt].
  - rewrite Z.shiftl_spec, testbit_land_255 by lia.
    replace (n - k <? 8) with (n <? k + 8)
      by (destruct (Z.ltb_spec n (k + 8)), (Z.ltb_spec (n - k) 8); lia).
    rewrite andb_true_r. reflexivity.
  - rewrite Z.shiftl_spec_low by lia. rewrite andb_false_r. reflexivity.
Qed.

Lemma byte_at_app_r (pre rest : list Z) (p k : Z) :
  Z.of_nat (length pre) = p -> 0 <= k ->
  byte_at (pre ++ rest) (p + k) = byte_at rest k.
Proof.
  intros <- Hk. unfold byte_at.
  destruct (Z.ltb_spec (Z.of_nat (length pre) + k) 0); [lia |].
  destruct (Z.ltb_spec k 0); [lia |].
  replace (Z.to_nat (Z.of_nat (length pre) + k))
    with (length pre + Z.to_nat k)%nat by lia.
  rewrite app_nth2_plus. reflexivity.
Qed.

Lemma byte_at_app_l (a b : list Z) (k : Z) :
  k < Z.of_nat (length a) -> byte_at (a ++ b) k = byte_at a k.
Proof.
  intros Hk. unfold byte_at. destruct (Z.ltb_spec k 0); [reflexivity |].
  rewrite app_nth1 by lia. reflexivity.
Qed.

Lemma DecodeFixed32_app_r (pre rest : list Z) (p k : Z) :
  Z.of_nat (length pre) = p -> 0 <= k ->
  DecodeFixed32 (pre ++ rest) (p + k) = DecodeFixed32 rest k.
Proof.
  intros Hp Hk. unfold DecodeFixed32.
  rewrite <- !Z.add_assoc.
  rewrite !(byte_at_app_r pre rest p) by (first [exact Hp | lia]).
  reflexivity.
Qed.

Lemma DecodeFixed32_app_l (a b : list Z) (k : Z) :
  k + 4 <= Z.of_nat (length a) ->
  DecodeFixed32 (a ++ b) k = DecodeFixed32 a k.
Proof.
  intros Hk. unfold DecodeFixed32.
  rewrite !byte_at_app_l by lia. reflexivity.
Qed.

(** Four bytes written by [EncodeFixed32] read back by [DecodeFixed32]. *)
Lemma DecodeFixed32_EncodeFixed32 (v : Z) :
  0 <= v < 2 ^ 32 -> DecodeFixed32 (EncodeFixed32 v) 0 = v.
Proof.
  intros Hv. unfold DecodeFixed32.
  change (byte_at (EncodeFixed32 v) 0) with (Z.land (Z.land v 255) 255).
  change (byte_at (EncodeFixed32 v) (0 + 1))
    with (Z.land (Z.land (Z.shiftr v 8) 255) 255).
  change (byte_at (EncodeFixed32 v) (0 + 2))
    with (Z.land (Z.land (Z.shiftr v 16) 255) 255).
  change (byte_at (EncodeFixed32 v) (0 + 3))
    with (Z.land (Z.land (Z.shiftr v 24) 255) 255).
  rewrite !land_255_idem.
  apply Z.bits_inj'. intros n Hn.
  rewrite !Z.lor_spec.
  rewrite (testbit_shiftl_byte (Z.shiftr v 8) 8 n) by lia.
  rewrite (testbit_shiftl_byte (Z.shiftr v 16) 16 n) by lia.
  rewrite (testbit_shiftl_byte (Z.shiftr v 24) 24 n) by lia.
  rewrite testbit_land_255 by lia.
  destruct (Z.leb_spec 8 n) as [H8 | H8];
    [rewrite (Z.shiftr_spec v 8 (n - 8)) by lia |];
  (destruct (Z.leb_spec 16 n) as [H16 | H16];
    [rewrite (Z.shiftr_spec v 16 (n - 16)) by lia |]);
  (destruct (Z.leb_spec 24 n) as [H24 | H24];
    [rewrite (Z.shiftr_spec v 24 (n - 24)) by lia |]);
  try lia;
  rewrite ?andb_false_r, ?andb_true_r, ?orb_false_r, ?orb_false_l.
  all: replace (n - 8 + 8) with n by lia.
  all: replace (n - 16 + 16) with n by lia.
  all: replace (n - 24 + 24) with n by lia.
  - destruct (Z.ltb_spec n 8); [lia |].
    destruct (Z.ltb_spec n (8 + 8)); [lia |].
    destruct (Z.ltb_spec n (16 + 8)); [lia |].
    destruct (Z.ltb_spec n (24 + 8)).
    + rewrite ?andb_false_r, ?andb_true_r, ?orb_false_r, ?orb_false_l.
      reflexivity.
    + rewrite ?andb_false_r, ?andb_true_r, ?orb_false_r, ?orb_false_l.
      symmetry. apply testbit_high_32; lia.
  - destruct (Z.ltb_spec n 8); [lia |].
    destruct (Z.ltb_spec n (8 + 8)); [lia |].
    destruct (Z.ltb_spec n (16 + 8)); [| lia].
    rewrite ?andb_false_r, ?andb_true_r, ?orb_false_r, ?orb_false_l.
    reflexivity.
  - destruct (Z.ltb_spec n 8); [lia |].
    destruct (Z.ltb_spec n (8 + 8)); [| lia].
    rewrite ?andb_false_r, ?andb_true_r, ?orb_false_r, ?orb_false_l.
    reflexivity.
  - destruct (Z.ltb_spec n 8); [| lia].
    rewrite ?andb_false_r, ?andb_true_r, ?orb_false_r, ?orb_false_l.
    reflexivity.
Qed.

(** The two length bytes of a header give the length back. *)
Lemma length_bytes_decode (n : Z) :
  0 <= n <= 0xffff ->
  Z.lor (Z.land (Z.land n 255) 255)
    (wrap32 (Z.shiftl (Z.land (Z.land (Z.shiftr n 8) 255) 255) 8)) = n.
Proof.
  intros Hn. rewrite !land_255_idem.
  assert (Hb : 0 <= Z.shiftl (Z.land (Z.shiftr n 8) 255) 8 < 2 ^ 32).
  { pose proof (land_255_range (Z.shiftr n 8)).
    rewrite Z.shiftl_mul_pow2 by lia. lia. }
  rewrite wrap32_small by exact Hb.
  apply Z.bits_inj'. intros k Hk.
  rewrite Z.lor_spec.
  rewrite (testbit_shiftl_byte (Z.shiftr n 8) 8 k) by lia.
  rewrite testbit_land_255 by lia.
  destruct (Z.ltb_spec k 8); [| destruct (Z.ltb_spec k (8 + 8))].
  - replace (8 <=? k) with false by (symmetry; apply Z.leb_gt; lia).
    rewrite ?andb_false_r, ?andb_true_r, ?orb_false_r. reflexivity.
  - replace (8 <=? k) with true by (symmetry; apply Z.leb_le; lia).
    rewrite Z.shiftr_spec by lia. replace (k - 8 + 8) with k by lia.
    rewrite ?andb_false_r, ?andb_true_r. reflexivity.
  - rewrite ?andb_false_r. simpl.
    symmetry. rewrite <- (Z.mod_small n (2 ^ 16)) by lia.
    apply Z.mod_pow2_bits_high. lia.
Qed.

(** The reader's [Unmask] undoes the writer's [Mask]. *)
Lemma Mask_undone (x : Z) : 0 <= x < 2 ^ 32 -> Unmask (Mask x) = x.
Proof.
  intros Hx. unfold Unmask, Mask. fold (rotr15 x).
  pose proof (rotr15_range x Hx) as Hr.
  assert (E : wrap32 (wrap32 (rotr15 x + kMaskDelta) - kMaskDelta) = rotr15 x).
  { unfold wrap32. rewrite Zminus_mod_idemp_l.
    replace (rotr15 x + kMaskDelta - kMaskDelta) with (rotr15 x) by lia.
    apply Z.mod_small. exact Hr. }
  rewrite E. fold (rotl15 (rotr15 x)). apply rotl15_rotr15. exact Hx.
Qed.

(** ** A fragment as the reader's loop would see it *)

Section FragmentCheck.

Variable crc32c_Value : list Z -> Z.
Variable crc32c_Extend : Z -> list Z -> Z.

(** What a successful [EmitPhysicalRecord] of a legacy type has added to
    the file. *)
Lemma EmitPhysicalRecord_written (w w2 : Writer) (t : RecordType)
    (data : list Z) :
  header_size_of t = kHeaderSize ->
  EmitPhysicalRecord crc32c_Extend w t data = Done (OK, w2) ->
  Z.of_nat (length data) <= 0xffff
  /\ wf_data (dest_ w2)
     = wf_data (dest_ w) ++ legacy_header crc32c_Extend w t data ++ data.
Proof.
  unfold header_size_of, EmitPhysicalRecord. intros Ht H.
  apply bind_assert_Done in H as [Hn H]. apply Z.leb_le in Hn.
  split; [exact Hn |].
  destruct (type_code t <? type_code kRecyclableFullType); [| discriminate].
  apply bind_Done_inv in H as ([[hs c] l] & H0 & H).
  apply bind_assert_Done in H0 as [_ H0]. injection H0 as <- <- <-.
  rewrite app_nil_r in H. fold (legacy_header crc32c_Extend w t data) in H.
  destruct (Append (dest_ w) _) as [s1 d1] eqn:A1. apply Append_spec in A1.
  destruct s1; cbn [ok] in H; [| discriminate].
  destruct A1 as [[_ E1] | [? _]]; [| discriminate].
  destruct (Append d1 data) as [s2 d2] eqn:A2. apply Append_spec in A2.
  destruct s2; cbn [ok] in H; [| discriminate].
  destruct A2 as [[_ E2] | [? _]]; [| discriminate].
  destruct (negb (manual_flush_ w)).
  - destruct (Flush d2) as [s3 d3] eqn:F3. apply Flush_spec in F3.
    injection H as _ <-. simpl. rewrite F3, E2, E1, <- app_assoc. reflexivity.
  - injection H as <-. simpl. rewrite E2, E1, <- app_assoc. reflexivity.
Qed.

(** X4. A MIDDLE fragment that [EmitPhysicalRecord] has written passes
    the check the loop of [GetBlob] makes on a fragment, when that loop
    is made to stand on it: the length and the type read back, and the
    stored checksum, unmasked, is the CRC32C of the type byte followed by
    the payload. *)
Theorem emitted_middle_passes_check (w w2 : Writer) (data : list Z) :
  nth (Z.to_nat (type_code kMiddleType)) (type_crc_ w) 0
  = crc32c_Value [type_code kMiddleType] ->
  crc32c_Value (type_code kMiddleType :: data)
  = crc32c_Extend (crc32c_Value [type_code kMiddleType]) data ->
  0 <= crc32c_Value (type_code kMiddleType :: data) < 2 ^ 32 ->
  EmitPhysicalRecord crc32c_Extend w kMiddleType data = Done (OK, w2) ->
  check_middle crc32c_Value 1 kHeaderSize (wf_data (dest_ w2))
    (GetFileSize (dest_ w)) (GetFileSize (dest_ w) + kBlockSize)
  = Done tt.
Proof.
  intros Htab Hext Hrange Hemit.
  apply EmitPhysicalRecord_written in Hemit as [Hn Hfile]; [| reflexivity].
  set (p := GetFileSize (dest_ w)).
  set (n := Z.of_nat (length data)) in *.
  assert (Hp : Z.of_nat (length (wf_data (dest_ w))) = p) by reflexivity.
  set (crc := crc32c_Extend
                (nth (Z.to_nat (type_code kMiddleType)) (type_crc_ w) 0) data).
  assert (Hcrc : crc = crc32c_Value (type_code kMiddleType :: data))
    by (subst crc; rewrite Htab, Hext; reflexivity).
  set (hdr := legacy_header crc32c_Extend w kMiddleType data) in *.
  assert (Hhdr : hdr = EncodeFixed32 (Mask crc)
                       ++ [Z.land n 255; Z.land (Z.shiftr n 8) 255;
                           type_code kMiddleType]) by reflexivity.
  cbn [check_middle].
  replace (p <=? p + kBlockSize - kBlockSize) with true
    by (symmetry; apply Z.leb_le; lia).
  rewrite Hfile.
  rewrite !(byte_at_app_r (wf_data (dest_ w)) _ p) by (first [exact Hp | lia]).
  rewrite !byte_at_app_l by (rewrite Hhdr; simpl; lia).
  replace (p + kBlockSize <=? p + kBlockSize - kBlockSize)
    with false by (symmetry; apply Z.leb_gt; unfold kBlockSize; lia).
  assert (Hlen : Z.lor (byte_at hdr 4) (wrap32 (Z.shiftl (byte_at hdr 5) 8))
                 = n).
  { rewrite Hhdr.
    change (byte_at (EncodeFixed32 (Mask crc) ++ _) 4)
      with (Z.land (Z.land n 255) 255).
    change (byte_at (EncodeFixed32 (Mask crc) ++ _) 5)
      with (Z.land (Z.land (Z.shiftr n 8) 255) 255).
    apply length_bytes_decode. lia. }
  rewrite Hlen.
  assert (Hty : nth (Z.to_nat (p + 6)) (wf_data (dest_ w) ++ hdr ++ data) 0
                = type_code kMiddleType).
  { replace (Z.to_nat (p + 6)) with (length (wf_data (dest_ w)) + 6)%nat
      by lia.
    rewrite app_nth2_plus, Hhdr. reflexivity. }
  rewrite Hty.
  change (char_to_uint (type_code kMiddleType) =? type_code kMiddleType)
    with true.
  cbn [assert]. unfold mbind at 1, Outcome_bind at 1, bind at 1.
  assert (Hdec : DecodeFixed32 (wf_data (dest_ w) ++ hdr ++ data) p
                 = Mask crc).
  { replace p with (p + 0) at 1 by lia.
    rewrite (DecodeFixed32_app_r _ _ p 0 Hp) by lia.
    rewrite DecodeFixed32_app_l by (rewrite Hhdr; simpl; lia).
    rewrite Hhdr, DecodeFixed32_app_l by (simpl; lia).
    apply DecodeFixed32_EncodeFixed32. apply wrap32_range. }
  rewrite Hdec, Mask_undone by (rewrite Hcrc; exact Hrange).
  assert (Hbytes : bytes_at (wf_data (dest_ w) ++ hdr ++ data) (p + 6)
                     (wrap64 (n + kHeaderSize - 6))
                   = type_code kMiddleType :: data).
  { rewrite wrap64_small by (unfold kHeaderSize; lia).
    rewrite Hhdr.
    replace (wf_data (dest_ w)
             ++ (EncodeFixed32 (Mask crc)
                 ++ [Z.land n 255; Z.land (Z.shiftr n 8) 255;
                     type_code kMiddleType]) ++ data)
      with ((wf_data (dest_ w)
             ++ EncodeFixed32 (Mask crc)
             ++ [Z.land n 255; Z.land (Z.shiftr n 8) 255])
            ++ (type_code kMiddleType :: data) ++ [])
      by (rewrite app_nil_r, <- !app_assoc; reflexivity).
    apply bytes_at_middle.
    - rewrite !length_app. simpl. lia.
    - simpl. unfold kHeaderSize. lia. }
  rewrite Hbytes, <- Hcrc, Z.eqb_refl. reflexivity.
Qed.

End FragmentCheck.

Lemma emitted_middle_passes_check_witness :
  exists w2,
    EmitPhysicalRecord crc32c_Extend_ref fresh_writer kMiddleType [1; 2; 3]
    = Done (OK, w2)
    /\ check_middle crc32c_Value_ref 1 kHeaderSize (wf_data (dest_ w2))
         (GetFileSize (dest_ fresh_writer))
         (GetFileSize (dest_ fresh_writer) + kBlockSize)
       = Done tt.
Proof.
  eexists. split; [vm_compute; reflexivity |].
  apply (emitted_middle_passes_check crc32c_Value_ref crc32c_Extend_ref
           fresh_writer _ [1; 2; 3]).
  - vm_compute. reflexivity.
  - vm_compute. reflexivity.
  - split; [apply Z.leb_le | apply Z.ltb_lt]; vm_compute; reflexivity.
  - vm_compute. reflexivity.
Defined.

(** ** What [ShrinkVal] does to a buffer *)

Lemma memmove_spec (buf buf1 : list Z) (dst src n : Z) :
  0 <= dst -> dst <= src -> 0 <= n ->
  memmove buf dst src n = Some buf1 ->
  take (Z.to_nat (dst + n)) buf1
  = take (Z.to_nat dst) buf ++ bytes_at buf src n
  /\ drop (Z.to_nat (dst + n)) buf1 = drop (Z.to_nat (dst + n)) buf
  /\ length buf1 = length buf.
Proof.
  intros Hd Hs Hn. unfold memmove.
  destruct (Z.eqb_spec n 0) as [-> | Hne].
  - intros [= <-]. unfold bytes_at. rewrite Z.add_0_r. simpl.
    rewrite app_nil_r. auto.
  - destruct ((0 <=? dst) && (0 <=? src) && (0 <? n)
              && (dst + n <=? Z.of_nat (length buf))
              && (src + n <=? Z.of_nat (length buf))) eqn:Hin;
      [| discriminate].
    rewrite !andb_true_iff, !Z.leb_le, Z.ltb_lt in Hin.
    destruct Hin as ((((_ & _) & _) & Hd2) & Hs2).
    intros [= <-].
    assert (L1 : length (take (Z.to_nat dst) buf) = Z.to_nat dst)
      by (rewrite length_take; lia).
    assert (L2 : length (bytes_at buf src n) = Z.to_nat n)
      by (unfold bytes_at; rewrite length_take, length_drop; lia).
    split_and!.
    + rewrite app_assoc.
      replace (Z.to_nat (dst + n))
        with (length (take (Z.to_nat dst) buf ++ bytes_at buf src n))
        by (rewrite length_app, L1, L2; lia).
      apply take_app_length.
    + rewrite app_assoc.
      replace (Z.to_nat (dst + n))
        with (length (take (Z.to_nat dst) buf ++ bytes_at buf src n)) at 1
        by (rewrite length_app, L1, L2; lia).
      apply drop_app_length.
    + rewrite !length_app, L1, L2, length_drop. lia.
Qed.

Lemma bytes_at_join (buf : list Z) (p a b : Z) :
  0 <= p -> 0 <= a -> 0 <= b ->
  bytes_at buf p a ++ bytes_at buf (p + a) b = bytes_at buf p (a + b).
Proof.
  intros Hp Ha Hb. unfold bytes_at.
  replace (Z.to_nat (p + a)) with (Z.to_nat p + Z.to_nat a)%nat by lia.
  replace (Z.to_nat (a + b)) with (Z.to_nat a + Z.to_nat b)%nat by lia.
  rewrite <- drop_drop. apply take_take_drop.
Qed.

Lemma bytes_at_drop_agree (buf buf1 : list Z) (c p m : Z) :
  0 <= c -> c <= p ->
  drop (Z.to_nat c) buf1 = drop (Z.to_nat c) buf ->
  bytes_at buf1 p m = bytes_at buf p m.
Proof.
  intros Hc Hp E. unfold bytes_at.
  replace (Z.to_nat p) with (Z.to_nat c + Z.to_nat (p - c))%nat by lia.
  rewrite <- !drop_drop, E. reflexivity.
Qed.

Lemma ShrinkVal_loop_shift (fuel : nat) (rhs kbas : Z) :
  0 <= rhs ->
  forall (buf buf' : list Z) (cur cur' remain : Z),
    0 <= cur ->
    ShrinkVal_loop fuel rhs kbas buf cur remain = Done (buf', cur') ->
    cur <= cur'
    /\ take (Z.to_nat cur') buf'
       = take (Z.to_nat cur) buf ++ bytes_at buf (cur + rhs) (cur' - cur).
Proof.
  intros Hrhs.
  induction fuel as [| fuel IH]; intros buf buf' cur cur' remain Hcur H.
  - cbn [ShrinkVal_loop] in H.
    destruct (0 <? remain); [discriminate |]. injection H as <- <-.
    split; [lia |]. rewrite Z.sub_diag. unfold bytes_at. simpl.
    rewrite app_nil_r. reflexivity.
  - cbn [ShrinkVal_loop] in H.
    destruct (0 <? remain); cycle 1.
    { injection H as <- <-. split; [lia |]. rewrite Z.sub_diag.
      unfold bytes_at. simpl. rewrite app_nil_r. reflexivity. }
    set (cur_size := if kbas <? remain then kbas else remain) in *.
    set (n := wrap64 (cur_size - rhs)) in *.
    assert (Hn : 0 <= n) by (subst n; apply wrap64_range).
    destruct (memmove buf cur (cur + rhs) n) as [buf1 |] eqn:Hmv;
      [| discriminate].
    apply memmove_spec in Hmv; [| lia | lia | exact Hn].
    destruct Hmv as (Htake & Hdrop & _).
    apply IH in H; [| lia]. destruct H as [Hle Hres].
    split; [lia |].
    rewrite Hres, Htake, <- app_assoc. f_equal.
    rewrite (bytes_at_drop_agree buf buf1 (cur + n) (cur + n + rhs))
      by (first [lia | exact Hdrop]).
    replace (cur + n + rhs) with (cur + rhs + n) by lia.
    rewrite bytes_at_join by lia. f_equal. lia.
Qed.

(** X5. Whenever [ShrinkVal] returns, the slice it leaves is the head of
    the buffer followed by one run of the bytes that lay
    [record_header_size] further on: the loop keeps its source that far
    ahead of its destination, so it drops the first header only, and the
    headers of later fragments stay where the payload should be. *)
Theorem ShrinkVal_shifts_once (b b' : Blob) (head_size record_header_size : Z) :
  0 <= head_size -> 0 <= record_header_size ->
  ShrinkVal b head_size record_header_size = Done b' ->
  head_size <= size_ b'
  /\ slice_ b'
     = take (Z.to_nat head_size) (buf_ b)
       ++ bytes_at (buf_ b) (head_size + record_header_size)
            (size_ b' - head_size).
Proof.
  intros Hh Hr H. unfold ShrinkVal in H.
  apply bind_assert_Done in H as [_ H].
  apply bind_Done_inv in H as ([buf cur] & Hloop & H).
  injection H as <-. cbn [size_ slice_].
  apply (ShrinkVal_loop_shift _ _ _ Hr) in Hloop; [| exact Hh].
  exact Hloop.
Qed.

Lemma ShrinkVal_shifts_once_witness :
  exists b',
    ShrinkVal {| slice_ := [1; 2; 9; 9; 3; 4];
                 buf_ := [1; 2; 9; 9; 3; 4];
                 size_ := 6 |} 2 2 = Done b'
    /\ slice_ b' = [1; 2; 3; 4]
    /\ 2 <= size_ b'
    /\ slice_ b'
       = take (Z.to_nat 2) [1; 2; 9; 9; 3; 4]
         ++ bytes_at [1; 2; 9; 9; 3; 4] (2 + 2) (size_ b' - 2).
Proof.
  eexists. split; [vm_compute; reflexivity |]. split; [reflexivity |].
  apply (ShrinkVal_shifts_once
           {| slice_ := [1; 2; 9; 9; 3; 4];
              buf_ := [1; 2; 9; 9; 3; 4];
              size_ := 6 |} _ 2 2).
  - lia.
  - lia.
  - vm_compute. reflexivity.
Defined.

(** X6. [ShrinkVal] on a buffer that holds, after the head, one chunk of
    [kBlockSize - record_header_size] bytes and then fewer bytes than a
    header: the second round subtracts the header size from that rest in
    [size_t], and [memmove] is asked for a range far outside the
    buffer. *)
Theorem ShrinkVal_runs_off (b : Blob) (head_size record_header_size k : Z) :
  0 < head_size ->
  0 < record_header_size -> 2 * record_header_size <= kBlockSize ->
  0 < k < record_header_size ->
  size_ b = Z.of_nat (length (slice_ b)) ->
  Z.of_nat (length (buf_ b)) = size_ b ->
  size_ b = head_size + (kBlockSize - record_header_size) + k ->
  size_ b < 2 ^ 63 ->
  ShrinkVal b head_size record_header_size = Fault.
Proof.
  intros Hh Hr Hr2 Hk Hsl Hbuf Hsz Hbig. unfold ShrinkVal.
  rewrite <- Hsl, Z.eqb_refl.
  replace (head_size =? 0) with false by (symmetry; apply Z.eqb_neq; lia).
  cbn [negb andb assert]. unfold mbind, Outcome_bind, bind.
  set (rhs := record_header_size) in *.
  rewrite (wrap64_small (kBlockSize - rhs)) by (unfold kBlockSize in *; lia).
  rewrite (wrap64_small (size_ b - head_size))
    by (unfold kBlockSize in *; lia).
  replace (size_ b - head_size) with (kBlockSize - rhs + k) by lia.
  destruct (Z.to_nat (kBlockSize - rhs + k)) as [| [| fuel]] eqn:Hf;
    [lia | lia |].
  cbn [ShrinkVal_loop].
  replace (0 <? kBlockSize - rhs + k) with true
    by (symmetry; apply Z.ltb_lt; lia).
  replace (kBlockSize - rhs <? kBlockSize - rhs + k) with true
    by (symmetry; apply Z.ltb_lt; lia).
  rewrite (wrap64_small (kBlockSize - rhs - rhs))
    by (unfold kBlockSize in *; lia).
  destruct (memmove (buf_ b) head_size (head_size + rhs)
              (kBlockSize - rhs - rhs)) as [buf1 |] eqn:Hmv.
  - assert (Hlen1 : length buf1 = length (buf_ b)).
    { apply memmove_spec in Hmv; [| lia | lia | lia]. apply Hmv. }
    replace (kBlockSize - rhs + k - (kBlockSize - rhs)) with k by lia.
    replace (0 <? k) with true by (symmetry; apply Z.ltb_lt; lia).
    replace (kBlockSize - rhs <? k) with false
      by (symmetry; apply Z.ltb_ge; lia).
    assert (Hw : wrap64 (k - rhs) = 2 ^ 64 + (k - rhs)).
    { unfold wrap64. symmetry. apply Z.mod_unique with (q := -1); lia. }
    rewrite Hw. unfold memmove.
    replace (2 ^ 64 + (k - rhs) =? 0) with false
      by (symmetry; apply Z.eqb_neq; unfold kBlockSize in *; lia).
    replace (head_size + (kBlockSize - rhs - rhs) + (2 ^ 64 + (k - rhs))
             <=? Z.of_nat (length buf1)) with false
      by (symmetry; apply Z.leb_gt; rewrite Hlen1; unfold kBlockSize in *; lia).
    rewrite !andb_false_r. reflexivity.
  - reflexivity.
Qed.

Lemma ShrinkVal_runs_off_witness :
  ShrinkVal {| slice_ := repeat 0 (Z.to_nat (10 + (kBlockSize - 7) + 3));
               buf_ := repeat 0 (Z.to_nat (10 + (kBlockSize - 7) + 3));
               size_ := 10 + (kBlockSize - 7) + 3 |} 10 7 = Fault.
Proof.
  apply (ShrinkVal_runs_off _ 10 7 3); try lia; by vm_compute.
Defined.

(** ** [GetBlob] and a file that cannot be read *)

Section ReadFailure.

Variable crc32c_Value : list Z -> Z.
Variable Crc16c_update : Z -> list Z -> Z.

(** X7. [GetBlob] has no error to return: whenever it returns, the status
    is [OK]. *)
Theorem GetBlob_returns_only_OK (r r' : WalBlobReader) (h : DefaultLogHandle)
    (s : Status) (payload : list Z) :
  GetBlob crc32c_Value Crc16c_update r h = Done (s, payload, r') -> s = OK.
Proof.
  unfold GetBlob.
  destruct (blob_cache_ r !! GenerateCacheUniqueId r h) as [b |].
  - intros [= <- _ _]. reflexivity.
  - intros H.
    apply bind_Done_inv in H as ([hd tl] & _ & H).
    destruct (Read _ _ _) as [[s0 data] f].
    apply bind_assert_Done in H as [_ H].
    apply bind_assert_Done in H as [_ H].
    apply bind_Done_inv in H as ([] & _ & H).
    apply bind_Done_inv in H as ([] & _ & H).
    apply bind_Done_inv in H as ([] & _ & H).
    apply bind_Done_inv in H as (blob' & _ & H).
    injection H as <- _ _. reflexivity.
Qed.

(** X8. When the handle is not in the cache and the read of the file
    fails, [GetBlob] stops at an assertion: the failure of the read does
    not reach the caller as a status. *)
Theorem GetBlob_read_failure_aborts (r : WalBlobReader)
    (h : DefaultLogHandle) :
  blob_cache_ r !! GenerateCacheUniqueId r h = None ->
  ra_healthy (src_ r) = false ->
  GetBlob crc32c_Value Crc16c_update r h = Abort.
Proof.
  intros Hmiss Hbad. unfold GetBlob. rewrite Hmiss.
  unfold blob_sizes.
  destruct (Handle.length h <? _).
  - destruct (negb _ && negb _); cbn [assert]; unfold mbind, Outcome_bind, bind;
      [| reflexivity].
    unfold Read. rewrite Hbad. reflexivity.
  - unfold mbind, Outcome_bind, bind. unfold Read. rewrite Hbad. reflexivity.
Qed.

End ReadFailure.

Lemma GetBlob_read_failure_aborts_witness :
  GetBlob crc32c_Value_ref Crc16c_update_ref unhealthy_reader hi_handle
  = Abort.
Proof.
  apply (GetBlob_read_failure_aborts crc32c_Value_ref Crc16c_update_ref
           unhealthy_reader hi_handle); reflexivity.
Defined.

Lemma GetBlob_returns_only_OK_witness :
  exists s payload r',
    GetBlob crc32c_Value_ref Crc16c_update_ref (open_reader hi_file) hi_handle
    = Done (s, payload, r')
    /\ s = OK.
Proof.
  eexists _, _, _. split; [vm_compute; reflexivity |].
  eapply (GetBlob_returns_only_OK crc32c_Value_ref Crc16c_update_ref
            (open_reader hi_file) _ hi_handle OK _).
  vm_compute. reflexivity.
Defined.

(** ** Finding a column family in the directory *)

Lemma scan_directory_last (todo : nat) :
  forall (buf : list Z) (footer cf_id i j : Z) (e : WalCfIndex)
         (st : bool * Z * Z),
    0 <= footer + i * sizeof_WalCfIndex ->
    footer + (i + Z.of_nat todo) * sizeof_WalCfIndex
    <= Z.of_nat (length buf) ->
    0 <= i <= j -> j < i + Z.of_nat todo ->
    load_WalCfIndex buf (footer + j * sizeof_WalCfIndex) = Some e ->
    id_ e = cf_id ->
    (forall (j' : Z) (e' : WalCfIndex),
       j < j' < i + Z.of_nat todo ->
       load_WalCfIndex buf (footer + j' * sizeof_WalCfIndex) = Some e' ->
       id_ e' <> cf_id) ->
    scan_directory todo buf footer cf_id i st
    = Done (true, offset_ e, count_ e).
Proof.
  induction todo as [| todo IH];
    intros buf footer cf_id i j e st Hlo Hhi Hij Hj He Hid Hlater; [lia |].
  cbn [scan_directory].
  destruct (load_WalCfIndex buf (footer + i * sizeof_WalCfIndex))
    as [wci |] eqn:Hload.
  2:{ exfalso. revert Hload. unfold load_WalCfIndex, in_buffer.
      unfold sizeof_WalCfIndex in *.
      destruct (Z.leb_spec 0 (footer + i * 24)); [| lia].
      destruct (Z.leb_spec (footer + i * 24 + 24) (Z.of_nat (length buf)));
        [discriminate | lia]. }
  destruct (Z.eq_dec i j) as [-> | Hne].
  - rewrite He in Hload. injection Hload as <-.
    rewrite Hid, Z.eqb_refl.
    destruct (scan_directory_in_file todo buf footer cf_id (j + 1)
                (true, offset_ e, count_ e)) as [res Hres].
    + unfold sizeof_WalCfIndex in *. lia.
    + unfold sizeof_WalCfIndex in *. lia.
    + lia.
    + rewrite Hres. f_equal.
      eapply scan_directory_absent; [| exact Hres].
      intros j' e' Hj'. apply Hlater. lia.
  - apply (IH buf footer cf_id (i + 1) j e); try assumption;
      unfold sizeof_WalCfIndex in *; try lia.
    intros j' e' Hj'. apply Hlater. lia.
Qed.

Lemma GetCFWalTupleOffsets_finds_last (buf : list Z)
    (count cf_id j cf_offset cf_entries : Z) (e : WalCfIndex) :
  load_footer_count buf = Some count ->
  directory_in_file buf count ->
  0 <= j < count ->
  load_WalCfIndex buf (directory_start buf count + j * sizeof_WalCfIndex)
  = Some e ->
  id_ e = cf_id ->
  (forall (j' : Z) (e' : WalCfIndex),
     j < j' < count ->
     load_WalCfIndex buf (directory_start buf count + j' * sizeof_WalCfIndex)
     = Some e' ->
     id_ e' <> cf_id) ->
  GetCFWalTupleOffsets buf cf_id cf_offset cf_entries
  = Done (offset_ e, count_ e).
Proof.
  intros Hcount (Hc0 & Hfit32 & Hfit) Hj He Hid Hlater.
  unfold GetCFWalTupleOffsets. rewrite Hcount.
  fold (directory_start buf count).
  assert (Hstart : directory_start buf count
                   = Z.of_nat (length buf) - sizeof_WalIndexFooter
                     - count * sizeof_WalCfIndex).
  { unfold directory_start. rewrite wrap32_small; [reflexivity |].
    unfold sizeof_WalCfIndex in *. lia. }
  rewrite (scan_directory_last (Z.to_nat count) buf
             (directory_start buf count) cf_id 0 j e).
  - reflexivity.
  - rewrite Hstart. unfold sizeof_WalIndexFooter, sizeof_WalCfIndex in *. lia.
  - rewrite Hstart, Z2Nat.id by lia.
    unfold sizeof_WalIndexFooter, sizeof_WalCfIndex in *. lia.
  - lia.
  - rewrite Z2Nat.id by lia. lia.
  - exact He.
  - exact Hid.
  - intros j' e' Hj'. apply Hlater. rewrite Z2Nat.id in Hj' by lia. lia.
Qed.

(** X9. [GetCFWalTupleOffsets] gives the offset and the count of the last
    entry of the directory that carries [cf_id]: the loop does not stop at
    a match, so of two entries with one id the later wins. *)
Theorem GetCFWalTupleOffsets_last_match (buf : list Z)
    (count cf_id j cf_offset cf_entries : Z) (e : WalCfIndex) :
  load_footer_count buf = Some count ->
  directory_in_file buf count ->
  0 <= j < count ->
  load_WalCfIndex buf (directory_start buf count + j * sizeof_WalCfIndex)
  = Some e ->
  id_ e = cf_id ->
  (forall (j' : Z) (e' : WalCfIndex),
     j < j' < count ->
     load_WalCfIndex buf (directory_start buf count + j' * sizeof_WalCfIndex)
     = Some e' ->
     id_ e' <> cf_id) ->
  GetCFWalTupleOffsets buf cf_id cf_offset cf_entries
  = Done (offset_ e, count_ e).
Proof. apply GetCFWalTupleOffsets_finds_last. Qed.

Lemma GetCFWalTupleOffsets_last_match_witness :
  GetCFWalTupleOffsets twice_listed_index 5 0 0 = Done (80, 2).
Proof.
  apply (GetCFWalTupleOffsets_last_match twice_listed_index 3 5 2 0 0
           {| id_ := 5; offset_ := 80; count_ := 2; crc32_ := 0 |}).
  - vm_compute. reflexivity.
  - unfold directory_in_file.
    split_and!; [apply Z.leb_le | apply Z.ltb_lt | apply Z.leb_le];
      vm_compute; reflexivity.
  - lia.
  - vm_compute. reflexivity.
  - reflexivity.
  - intros j' e' Hj'. lia.
Defined.

(** ** Sixty-four bits and directory entries in a buffer *)

Lemma EncodeFixed32_length (v : Z) : length (EncodeFixed32 v) = 4%nat.
Proof. reflexivity. Qed.

Lemma EncodeFixed64_length (v : Z) : length (EncodeFixed64 v) = 8%nat.
Proof. reflexivity. Qed.

Lemma WalCfIndex_bytes_length (e : WalCfIndex) :
  Z.of_nat (length (WalCfIndex_bytes e)) = sizeof_WalCfIndex.
Proof. reflexivity. Qed.

Lemma DecodeFixed32_at (a b : list Z) (v p : Z) :
  Z.of_nat (length a) = p -> 0 <= v < 2 ^ 32 ->
  DecodeFixed32 (a ++ EncodeFixed32 v ++ b) p = v.
Proof.
  intros Hp Hv. replace p with (p + 0) by lia.
  rewrite (DecodeFixed32_app_r a _ p 0 Hp) by lia.
  rewrite DecodeFixed32_app_l by (simpl; lia).
  apply DecodeFixed32_EncodeFixed32. exact Hv.
Qed.

Lemma split_64 (v : Z) :
  0 <= v < 2 ^ 64 ->
  0 <= Z.land v (2 ^ 32 - 1) < 2 ^ 32
  /\ 0 <= Z.shiftr v 32 < 2 ^ 32
  /\ Z.lor (Z.land v (2 ^ 32 - 1)) (Z.shiftl (Z.shiftr v 32) 32) = v.
Proof.
  intros Hv. change (2 ^ 32 - 1) with (Z.ones 32).
  rewrite Z.land_ones by lia. rewrite Z.shiftr_div_pow2 by lia.
  split_and!.
  - apply Z.mod_pos_bound. lia.
  - apply Z.mod_pos_bound. lia.
  - apply Z.div_pos; lia.
  - apply Z.div_lt_upper_bound; lia.
  - rewrite <- Z.land_ones, <- Z.shiftr_div_pow2 by lia.
    apply Z.bits_inj'. intros n Hn.
    rewrite Z.lor_spec, Z.land_spec, Z.testbit_ones_nonneg by lia.
    destruct (Z.ltb_spec n 32).
    + rewrite Z.shiftl_spec_low by lia.
      rewrite andb_true_r, orb_false_r. reflexivity.
    + rewrite Z.shiftl_spec, Z.shiftr_spec by lia.
      rewrite andb_false_r. simpl. f_equal. lia.
Qed.

Lemma DecodeFixed64_at (a b : list Z) (v p : Z) :
  Z.of_nat (length a) = p -> 0 <= v < 2 ^ 64 ->
  DecodeFixed64 (a ++ EncodeFixed64 v ++ b) p = v.
Proof.
  intros Hp Hv. destruct (split_64 v Hv) as (Hlo & Hhi & Hjoin).
  unfold DecodeFixed64, EncodeFixed64. rewrite <- !app_assoc.
  rewrite (DecodeFixed32_at a _ _ p Hp Hlo).
  replace (a ++ EncodeFixed32 (Z.land v (2 ^ 32 - 1))
             ++ EncodeFixed32 (Z.shiftr v 32) ++ b)
    with ((a ++ EncodeFixed32 (Z.land v (2 ^ 32 - 1)))
          ++ EncodeFixed32 (Z.shiftr v 32) ++ b)
    by (rewrite <- app_assoc; reflexivity).
  rewrite (DecodeFixed32_at _ _ _ (p + 4)); [exact Hjoin | | exact Hhi].
  rewrite length_app, EncodeFixed32_length. lia.
Qed.

(** A directory entry written by [WriteFooter] is the entry
    [GetCFWalTupleOffsets] loads. *)
Lemma load_WalCfIndex_bytes (a b : list Z) (e : WalCfIndex) (p : Z) :
  Z.of_nat (length a) = p -> entry_fits e ->
  load_WalCfIndex (a ++ WalCfIndex_bytes e ++ b) p = Some e.
Proof.
  intros Hp (Hid & Hoff & Hcnt & Hcrc). unfold load_WalCfIndex, in_buffer.
  replace ((0 <=? p)
           && (p + sizeof_WalCfIndex
               <=? Z.of_nat (length (a ++ WalCfIndex_bytes e ++ b))))
    with true.
  2:{ symmetry. apply andb_true_iff. rewrite !Z.leb_le.
      rewrite !length_app, !Nat2Z.inj_add, WalCfIndex_bytes_length. lia. }
  unfold WalCfIndex_bytes. rewrite <- !app_assoc.
  rewrite (DecodeFixed32_at a _ _ p Hp Hid).
  assert (E4 : DecodeFixed64
                 (a ++ EncodeFixed32 (id_ e) ++ EncodeFixed64 (offset_ e)
                    ++ EncodeFixed64 (count_ e) ++ EncodeFixed32 (crc32_ e)
                    ++ b) (p + 4) = offset_ e).
  { rewrite (app_assoc a). apply DecodeFixed64_at; [| exact Hoff].
    rewrite length_app, EncodeFixed32_length. lia. }
  assert (E12 : DecodeFixed64
                  (a ++ EncodeFixed32 (id_ e) ++ EncodeFixed64 (offset_ e)
                     ++ EncodeFixed64 (count_ e) ++ EncodeFixed32 (crc32_ e)
                     ++ b) (p + 12) = count_ e).
  { rewrite (app_assoc a), (app_assoc (a ++ _)).
    apply DecodeFixed64_at; [| exact Hcnt].
    rewrite !length_app, EncodeFixed32_length, EncodeFixed64_length. lia. }
  assert (E20 : DecodeFixed32
                  (a ++ EncodeFixed32 (id_ e) ++ EncodeFixed64 (offset_ e)
                     ++ EncodeFixed64 (count_ e) ++ EncodeFixed32 (crc32_ e)
                     ++ b) (p + 20) = crc32_ e).
  { rewrite (app_assoc a), (app_assoc (a ++ _)), (app_assoc ((a ++ _) ++ _)).
    apply DecodeFixed32_at; [| exact Hcrc].
    rewrite !length_app, EncodeFixed32_length, !EncodeFixed64_length. lia. }
  rewrite E4, E12, E20. destruct e; reflexivity.
Qed.

(** ** Writing the index file and finding a column family in it *)

Lemma directory_bytes_length (es : list WalCfIndex) :
  Z.of_nat (length (concat (map WalCfIndex_bytes es)))
  = Z.of_nat (length es) * sizeof_WalCfIndex.
Proof.
  induction es as [| e es IH]; [reflexivity |].
  cbn [map concat]. rewrite length_app, Nat2Z.inj_add, IH.
  rewrite WalCfIndex_bytes_length. cbn [length]. lia.
Qed.

Lemma directory_loads (data tail : list Z) (es : list WalCfIndex)
    (j : nat) (e : WalCfIndex) :
  Forall entry_fits es ->
  es !! j = Some e ->
  load_WalCfIndex (data ++ concat (map WalCfIndex_bytes es) ++ tail)
    (Z.of_nat (length data) + Z.of_nat j * sizeof_WalCfIndex) = Some e.
Proof.
  intros Hfit Hj.
  assert (He : entry_fits e).
  { rewrite Forall_forall in Hfit. apply Hfit.
    eapply list_elem_of_lookup_2. exact Hj. }
  assert (Hjl : (j < length es)%nat) by (eapply lookup_lt_Some; exact Hj).
  rewrite <- (take_drop_middle es j e Hj).
  rewrite map_app, concat_app. cbn [map concat]. rewrite <- !app_assoc.
  rewrite (app_assoc data).
  apply load_WalCfIndex_bytes; [| exact He].
  rewrite length_app, Nat2Z.inj_add, directory_bytes_length, length_take.
  lia.
Qed.

Section IndexRoundTrip.

Variable crc32c_Extend : Z -> list Z -> Z.

Lemma WriteFooter_loop_no_fault (es : list WalCfIndex) :
  forall (f : WritableFileWriter) (crc32 : Z),
    wf_faults f = [] ->
    exists crc',
      WriteFooter_loop crc32c_Extend f crc32 es
      = (OK,
         {| wf_data := wf_data f ++ concat (map WalCfIndex_bytes es);
            wf_faults := [] |},
         crc').
Proof.
  induction es as [| e es IH]; intros f crc32 Hnf.
  - exists crc32. cbn. rewrite app_nil_r. destruct f as [d fs].
    simpl in Hnf. subst fs. reflexivity.
  - cbn [WriteFooter_loop]. rewrite Append_no_fault by exact Hnf. cbn [ok negb].
    destruct (IH {| wf_data := wf_data f ++ WalCfIndex_bytes e;
                    wf_faults := [] |}
                (crc32c_Extend crc32 (WalCfIndex_bytes e)) eq_refl)
      as [crc' E].
    exists crc'. rewrite E. cbn [wf_data map concat].
    rewrite <- app_assoc. reflexivity.
Qed.

Lemma WriteFooter_no_fault (iw : WalIndexWriter) :
  wf_faults (index_file_ iw) = [] ->
  exists crc,
    WriteFooter crc32c_Extend iw
    = (OK,
       {| index_file_ :=
            {| wf_data :=
                 wf_data (index_file_ iw)
                 ++ concat (map WalCfIndex_bytes (cf_indexes_ iw))
                 ++ EncodeFixed32 (wrap32 (Z.of_nat (length (cf_indexes_ iw))))
                 ++ EncodeFixed32 crc;
               wf_faults := [] |};
          cf_indexes_ := cf_indexes_ iw |}).
Proof.
  intros Hnf. unfold WriteFooter.
  destruct (WriteFooter_loop_no_fault (cf_indexes_ iw) (index_file_ iw) 0 Hnf)
    as [crc' E].
  rewrite E. cbn [ok negb]. rewrite Append_no_fault by reflexivity.
  eexists. cbn [wf_data]. rewrite <- !app_assoc. reflexivity.
Qed.

(** The index file [WriteFooter] leaves, seen by the reader: the footer
    counts the entries, and an entry is found by its id. *)
Lemma written_directory_lookup (data : list Z) (es : list WalCfIndex)
    (crc cf_id : Z) (j : nat) (e : WalCfIndex) :
  Forall entry_fits es ->
  Z.of_nat (length es) * sizeof_WalCfIndex < 2 ^ 32 ->
  es !! j = Some e ->
  id_ e = cf_id ->
  (forall (j' : nat) (e' : WalCfIndex),
     (j < j')%nat -> es !! j' = Some e' -> id_ e' <> cf_id) ->
  GetCFWalTupleOffsets
    (data ++ concat (map WalCfIndex_bytes es)
       ++ EncodeFixed32 (wrap32 (Z.of_nat (length es))) ++ EncodeFixed32 crc)
    cf_id 0 0
  = Done (offset_ e, count_ e).
Proof.
  intros Hfit H32 Hj Hid Hlater.
  set (n := Z.of_nat (length es)) in *.
  assert (Hn : 0 <= n < 2 ^ 32) by (unfold sizeof_WalCfIndex in *; lia).
  rewrite (wrap32_small n) by exact Hn.
  set (file := data ++ concat (map WalCfIndex_bytes es)
                 ++ EncodeFixed32 n ++ EncodeFixed32 crc).
  assert (Hlen : Z.of_nat (length file)
                 = Z.of_nat (length data) + n * sizeof_WalCfIndex
                   + sizeof_WalIndexFooter).
  { subst file. rewrite !length_app, !Nat2Z.inj_add, directory_bytes_length.
    rewrite !EncodeFixed32_length. unfold sizeof_WalIndexFooter. lia. }
  assert (Hcount : load_footer_count file = Some n).
  { unfold load_footer_count, in_buffer. rewrite Hlen.
    replace ((0 <=? Z.of_nat (length data) + n * sizeof_WalCfIndex
                    + sizeof_WalIndexFooter - sizeof_WalIndexFooter)
             && (Z.of_nat (length data) + n * sizeof_WalCfIndex
                 + sizeof_WalIndexFooter - sizeof_WalIndexFooter
                 + sizeof_WalIndexFooter
                 <=? Z.of_nat (length data) + n * sizeof_WalCfIndex
                     + sizeof_WalIndexFooter)) with true
      by (symmetry; apply andb_true_iff; rewrite !Z.leb_le;
          unfold sizeof_WalCfIndex; lia).
    f_equal. subst file. rewrite (app_assoc data).
    apply DecodeFixed32_at; [| exact Hn].
    rewrite length_app, Nat2Z.inj_add, directory_bytes_length. lia. }
  assert (Hstart : directory_start file n = Z.of_nat (length data)).
  { unfold directory_start. rewrite Hlen, wrap32_small; [lia |].
    unfold sizeof_WalCfIndex in *. lia. }
  assert (Hjl : (j < length es)%nat) by (eapply lookup_lt_Some; exact Hj).
  apply (GetCFWalTupleOffsets_finds_last file n cf_id (Z.of_nat j) 0 0 e).
  - exact Hcount.
  - unfold directory_in_file. rewrite Hlen.
    unfold sizeof_WalCfIndex, sizeof_WalIndexFooter in *. lia.
  - lia.
  - rewrite Hstart. apply directory_loads; assumption.
  - exact Hid.
  - intros j' e' Hj' Hload. rewrite Hstart in Hload.
    assert (Hj'n : (Z.to_nat j' < length es)%nat) by lia.
    destruct (lookup_lt_is_Some_2 es (Z.to_nat j') Hj'n) as [e'' He''].
    pose proof (directory_loads data
                  (EncodeFixed32 n ++ EncodeFixed32 crc) es (Z.to_nat j') e''
                  Hfit He'') as Hl.
    rewrite Z2Nat.id in Hl by lia. fold file in Hl.
    rewrite Hl in Hload. injection Hload as <-.
    apply (Hlater (Z.to_nat j')); [lia | exact He''].
Qed.

(** X10. After [WriteFooter] on a file that refuses nothing, the reader's
    [GetCFWalTupleOffsets] finds, for an id, the offset and the count of
    the last directory entry the writer holds for it. *)
Theorem WriteFooter_then_lookup (iw : WalIndexWriter) (cf_id : Z) (j : nat)
    (e : WalCfIndex) :
  wf_faults (index_file_ iw) = [] ->
  Forall entry_fits (cf_indexes_ iw) ->
  Z.of_nat (length (cf_indexes_ iw)) * sizeof_WalCfIndex < 2 ^ 32 ->
  cf_indexes_ iw !! j = Some e ->
  id_ e = cf_id ->
  (forall (j' : nat) (e' : WalCfIndex),
     (j < j')%nat -> cf_indexes_ iw !! j' = Some e' -> id_ e' <> cf_id) ->
  exists iw',
    WriteFooter crc32c_Extend iw = (OK, iw')
    /\ cf_indexes_ iw' = cf_indexes_ iw
    /\ GetCFWalTupleOffsets (wf_data (index_file_ iw')) cf_id 0 0
       = Done (offset_ e, count_ e).
Proof.
  intros Hnf Hfit H32 Hj Hid Hlater.
  destruct (WriteFooter_no_fault iw Hnf) as [crc E].
  eexists. split; [exact E |]. split; [reflexivity |].
  cbn [index_file_ wf_data].
  apply (written_directory_lookup _ _ _ _ j e); assumption.
Qed.

End IndexRoundTrip.

Lemma WriteFooter_then_lookup_witness :
  exists iw',
    WriteFooter crc32c_Extend_ref twice_listed_writer = (OK, iw')
    /\ cf_indexes_ iw' = cf_indexes_ twice_listed_writer
    /\ GetCFWalTupleOffsets (wf_data (index_file_ iw')) 5 0 0
       = Done (80, 2).
Proof.
  apply (WriteFooter_then_lookup crc32c_Extend_ref twice_listed_writer 5 2
           {| id_ := 5; offset_ := 80; count_ := 2; crc32_ := 0 |}).
  - reflexivity.
  - repeat apply Forall_cons_2; [| | | apply Forall_nil_2];
      unfold entry_fits; cbn; lia.
  - vm_compute. reflexivity.
  - reflexivity.
  - reflexivity.
  - intros j' e' Hj' He'. apply lookup_lt_Some in He'. simpl in He'. lia.
Defined.

(** ** The reference checksum stays in 32 bits *)

Lemma lxor_range32 (a b : Z) :
  0 <= a < 2 ^ 32 -> 0 <= b < 2 ^ 32 -> 0 <= Z.lxor a b < 2 ^ 32.
Proof.
  intros Ha Hb.
  assert (H0 : 0 <= Z.lxor a b) by (apply Z.lxor_nonneg; lia).
  split; [exact H0 |].
  destruct (Z.eq_dec (Z.lxor a b) 0) as [E | NE]; [rewrite E; lia |].
  apply Z.log2_lt_pow2; [lia |].
  pose proof (Z.log2_lxor a b ltac:(lia) ltac:(lia)) as Hl.
  assert (Z.log2 a < 32).
  { destruct (Z.eq_dec a 0) as [-> | ?]; [simpl; lia |].
    apply Z.log2_lt_pow2; lia. }
  assert (Z.log2 b < 32).
  { destruct (Z.eq_dec b 0) as [-> | ?]; [simpl; lia |].
    apply Z.log2_lt_pow2; lia. }
  lia.
Qed.

Lemma crc_bits_range32 (n : nat) (poly : Z) :
  0 <= poly < 2 ^ 32 ->
  forall c, 0 <= c < 2 ^ 32 -> 0 <= crc_bits n poly c < 2 ^ 32.
Proof.
  intros Hp. induction n as [| n IH]; intros c Hc; [exact Hc |].
  cbn [crc_bits]. apply IH.
  assert (Hs : 0 <= Z.shiftr c 1 < 2 ^ 32).
  { rewrite Z.shiftr_div_pow2 by lia. split.
    - apply Z.div_pos; lia.
    - apply Z.div_lt_upper_bound; lia. }
  destruct (Z.odd c); [apply lxor_range32; assumption | exact Hs].
Qed.

Lemma crc32c_Extend_ref_range (c : Z) (d : list Z) :
  0 <= crc32c_Extend_ref c d < 2 ^ 32.
Proof.
  unfold crc32c_Extend_ref. apply lxor_range32; [| lia].
  unfold crc_bytes.
  assert (Hinit : 0 <= Z.land (Z.lxor c 4294967295) 4294967295 < 2 ^ 32).
  { replace (Z.land (Z.lxor c 4294967295) 4294967295)
      with (Z.lxor c 4294967295 mod 2 ^ 32)
      by (rewrite <- Z.land_ones by lia; reflexivity).
    apply Z.mod_pos_bound. lia. }
  revert Hinit. generalize (Z.land (Z.lxor c 4294967295) 4294967295).
  induction d as [| b d IH]; intros z Hz; [exact Hz |].
  cbn [fold_left]. apply IH. apply crc_bits_range32; [lia |].
  apply lxor_range32; [exact Hz |].
  pose proof (land_255_range b). lia.
Qed.

(** ** Writing a column family *)

Section WriteColumnFamily.

Variable crc32c_Extend : Z -> list Z -> Z.

Lemma WriteCF_loop_inv (entries : list (list Z)) :
  forall (f f' : WritableFileWriter) (crc32 crc' : Z) (s : Status),
    WriteCF_loop crc32c_Extend f crc32 entries = Done (s, f', crc') ->
    (s = OK /\ wf_data f' = wf_data f ++ concat entries)
    \/ (s = IOError
        /\ exists k, (k < length entries)%nat
                     /\ wf_data f' = wf_data f ++ concat (take k entries)).
Proof.
  induction entries as [| t rest IH]; intros f f' crc32 crc' s H.
  - injection H as <- <- <-. left. cbn. rewrite app_nil_r. auto.
  - cbn [WriteCF_loop] in H. apply bind_assert_Done in H as [_ H].
    destruct (Append f t) as [s1 f1] eqn:A. apply Append_spec in A.
    destruct s1; cbn [ok negb] in H.
    + destruct A as [[_ E] | [? _]]; [| discriminate].
      apply IH in H as [[-> E'] | (-> & k & Hk & E')].
      * left. split; [reflexivity |]. rewrite E', E, <- app_assoc. reflexivity.
      * right. split; [reflexivity |]. exists (S k). split; [simpl; lia |].
        rewrite E', E, <- app_assoc. reflexivity.
    + injection H as <- <- <-. destruct A as [[? _] | (_ & E & _)];
        [discriminate |].
      right. split; [reflexivity |]. exists 0%nat. split; [simpl; lia |].
      cbn. rewrite app_nil_r. exact E.
Qed.

(** X11. [WriteCF] records a column family in the directory only when
    every tuple was appended: with status [OK] the file has grown by the
    tuples and the directory by one entry, with the id, the offset where
    the tuples start and their number; with an error some of the tuples
    may be in the file, but the directory is as it was. *)
Theorem WriteCF_records_on_success_only (iw iw' : WalIndexWriter)
    (cf_id : Z) (entries : list (list Z)) (s : Status) :
  WriteCF crc32c_Extend iw cf_id entries = Done (s, iw') ->
  if ok s then
    wf_data (index_file_ iw')
    = wf_data (index_file_ iw) ++ concat entries
    /\ exists crc,
         cf_indexes_ iw'
         = cf_indexes_ iw
           ++ [{| id_ := cf_id;
                  offset_ := GetFileSize (index_file_ iw);
                  count_ := Z.of_nat (length entries);
                  crc32_ := crc |}]
  else
    cf_indexes_ iw' = cf_indexes_ iw
    /\ exists k, (k < length entries)%nat
                 /\ wf_data (index_file_ iw')
                    = wf_data (index_file_ iw) ++ concat (take k entries).
Proof.
  unfold WriteCF. intros H. apply bind_assert_Done in H as [_ H].
  apply bind_Done_inv in H as ([[s1 f1] crc1] & Hloop & H).
  apply WriteCF_loop_inv in Hloop.
  destruct Hloop as [[-> E] | (-> & k & Hk & E)]; cbn [ok negb] in H;
    injection H as <- <-; cbn [ok index_file_ cf_indexes_].
  - split; [exact E | eauto].
  - split; [reflexivity | eauto].
Qed.

Lemma WriteCF_loop_no_fault (entries : list (list Z)) :
  (forall c d, 0 <= crc32c_Extend c d < 2 ^ 32) ->
  Forall (fun t => tuple_handle_length t <> 0) entries ->
  forall (f : WritableFileWriter) (crc32 : Z),
    wf_faults f = [] -> 0 <= crc32 < 2 ^ 32 ->
    exists crc',
      WriteCF_loop crc32c_Extend f crc32 entries
      = Done (OK, {| wf_data := wf_data f ++ concat entries;
                     wf_faults := [] |}, crc')
      /\ 0 <= crc' < 2 ^ 32.
Proof.
  intros Hrange Hnz. induction Hnz as [| t rest Ht _ IH]; intros f crc32 Hnf Hc.
  - exists crc32. split; [| exact Hc]. cbn. rewrite app_nil_r.
    destruct f as [d fs]. simpl in Hnf. subst fs. reflexivity.
  - cbn [WriteCF_loop]. apply Z.eqb_neq in Ht. rewrite Ht. cbn [negb].
    rewrite bind_assert_true by reflexivity.
    rewrite Append_no_fault by exact Hnf. cbn [ok negb].
    destruct (IH {| wf_data := wf_data f ++ t; wf_faults := [] |}
                (crc32c_Extend crc32 t) eq_refl (Hrange _ _))
      as (crc' & E & Hc').
    exists crc'. split; [| exact Hc']. rewrite E. cbn [wf_data concat].
    rewrite <- app_assoc. reflexivity.
Qed.

Lemma map_index_file_fresh (r : WalBlobReader) (bytes : list Z) :
  index_unset (index_file_data_ r) = true ->
  map_index_file r (index_env bytes)
  = (OK, set_index_file_data r (Some bytes)).
Proof.
  intros Hun. unfold map_index_file, index_env.
  cbn [env_size_status env_file_size env_open_status env_read_status
       env_index_bytes ok andb].
  rewrite Hun. rewrite bytes_at_all by reflexivity.
  cbn [index_file_data_ set_index_file_data index_size ok andb].
  rewrite Z.eqb_refl. reflexivity.
Qed.

(** X12. A column family written by [WriteCF], with the footer written
    behind it by [WriteFooter], is what [NewIteratorWithCF] finds in the
    index file, when the file refuses nothing and its size was a multiple
    of the tuple size: the iterator starts at the offset where [WriteCF]
    began and counts the tuples written, and the tuples lie at that
    offset. *)
Theorem index_file_round_trip (iw : WalIndexWriter) (cf_id : Z)
    (entries : list (list Z)) (r : WalBlobReader) :
  (forall c d, 0 <= crc32c_Extend c d < 2 ^ 32) ->
  wf_faults (index_file_ iw) = [] ->
  Forall entry_fits (cf_indexes_ iw) ->
  (Z.of_nat (length (cf_indexes_ iw)) + 1) * sizeof_WalCfIndex < 2 ^ 32 ->
  GetFileSize (index_file_ iw) mod kWalEntrySize = 0 ->
  GetFileSize (index_file_ iw) < 2 ^ 64 ->
  0 <= cf_id < 2 ^ 32 ->
  Forall (fun t => tuple_handle_length t <> 0) entries ->
  Z.of_nat (length entries) < 2 ^ 64 ->
  index_unset (index_file_data_ r) = true ->
  exists iw1 iw2 r1,
    WriteCF crc32c_Extend iw cf_id entries = Done (OK, iw1)
    /\ WriteFooter crc32c_Extend iw1 = (OK, iw2)
    /\ NewIteratorWithCF r (index_env (wf_data (index_file_ iw2))) cf_id
       = Done (WalBlobIterator (GetFileSize (index_file_ iw))
                 (Z.of_nat (length entries)), r1)
    /\ bytes_at (wf_data (index_file_ iw2)) (GetFileSize (index_file_ iw))
         (Z.of_nat (length (concat entries)))
       = concat entries.
Proof.
  intros Hrange Hnf Hfit H32 Hmod Hsize Hid Hnz Hlen Hun.
  destruct (WriteCF_loop_no_fault entries Hrange Hnz (index_file_ iw) 0 Hnf)
    as (crc & Hloop & Hcrc); [lia |].
  set (e := {| id_ := cf_id;
               offset_ := GetFileSize (index_file_ iw);
               count_ := Z.of_nat (length entries);
               crc32_ := crc |}).
  set (f1 := {| wf_data := wf_data (index_file_ iw) ++ concat entries;
                wf_faults := [] |}) in *.
  set (iw1 := {| index_file_ := f1; cf_indexes_ := cf_indexes_ iw ++ [e] |}).
  assert (HCF : WriteCF crc32c_Extend iw cf_id entries = Done (OK, iw1)).
  { unfold WriteCF. rewrite Hmod. cbn [Z.eqb assert].
    unfold mbind at 1, Outcome_bind at 1, bind at 1.
    rewrite Hloop. reflexivity. }
  assert (Hfs : 0 <= GetFileSize (index_file_ iw))
    by (unfold GetFileSize; lia).
  assert (Hfit1 : Forall entry_fits (cf_indexes_ iw1)).
  { cbn [cf_indexes_ iw1]. apply Forall_app. split; [exact Hfit |].
    apply Forall_cons. split; [| apply Forall_nil; exact I].
    unfold entry_fits, e. cbn. lia. }
  assert (Hj : cf_indexes_ iw1 !! length (cf_indexes_ iw) = Some e).
  { cbn [cf_indexes_ iw1]. rewrite lookup_app_r by lia.
    rewrite Nat.sub_diag. reflexivity. }
  destruct (WriteFooter_no_fault crc32c_Extend iw1 eq_refl) as [crc2 HF].
  set (n1 := Z.of_nat (length (cf_indexes_ iw1))) in *.
  set (file2 := wf_data (index_file_ iw1)
                ++ concat (map WalCfIndex_bytes (cf_indexes_ iw1))
                ++ EncodeFixed32 (wrap32 n1) ++ EncodeFixed32 crc2) in *.
  assert (Hlook : GetCFWalTupleOffsets file2 cf_id 0 0
                  = Done (offset_ e, count_ e)).
  { apply (written_directory_lookup _ _ _ _ (length (cf_indexes_ iw)) e).
    - exact Hfit1.
    - subst n1. cbn [cf_indexes_ iw1]. rewrite length_app. cbn [length]. lia.
    - exact Hj.
    - reflexivity.
    - intros j' e' Hj' He'. apply lookup_lt_Some in He'.
      cbn [cf_indexes_ iw1] in He'. rewrite length_app in He'.
      cbn [length] in He'. lia. }
  eexists iw1, _, _. split; [exact HCF |]. split; [exact HF |].
  cbn [index_file_ wf_data]. fold file2. split.
  - unfold NewIteratorWithCF. rewrite map_index_file_fresh by exact Hun.
    cbn [ok negb index_file_data_ set_index_file_data from_option].
    unfold id.
    rewrite Hlook. unfold mbind, Outcome_bind, bind. cbv beta iota.
    cbn [offset_ count_ e]. rewrite Hmod. reflexivity.
  - subst file2. cbn [index_file_ iw1 wf_data f1]. rewrite <- app_assoc.
    apply bytes_at_middle; reflexivity.
Qed.

End WriteColumnFamily.

Lemma WriteCF_records_on_success_only_witness :
  exists iw',
    WriteCF crc32c_Extend_ref (new_index_writer [false; true]) 7
      [sample_tuple 3; sample_tuple 5; sample_tuple 2]
    = Done (IOError, iw')
    /\ if ok IOError then
         wf_data (index_file_ iw')
         = wf_data (index_file_ (new_index_writer [false; true]))
           ++ concat [sample_tuple 3; sample_tuple 5; sample_tuple 2]
         /\ exists crc,
              cf_indexes_ iw'
              = cf_indexes_ (new_index_writer [false; true])
                ++ [{| id_ := 7;
                       offset_ :=
                         GetFileSize
                           (index_file_ (new_index_writer [false; true]));
                       count_ :=
                         Z.of_nat
                           (length
                              [sample_tuple 3; sample_tuple 5; sample_tuple 2]);
                       crc32_ := crc |}]
       else
         cf_indexes_ iw' = cf_indexes_ (new_index_writer [false; true])
         /\ exists k,
              (k < length [sample_tuple 3; sample_tuple 5; sample_tuple 2])%nat
              /\ wf_data (index_file_ iw')
                 = wf_data (index_file_ (new_index_writer [false; true]))
                   ++ concat
                        (take k
                           [sample_tuple 3; sample_tuple 5; sample_tuple 2]).
Proof.
  eexists. split; [vm_compute; reflexivity |].
  apply (WriteCF_records_on_success_only crc32c_Extend_ref
           (new_index_writer [false; true]) _ 7
           [sample_tuple 3; sample_tuple 5; sample_tuple 2] IOError).
  vm_compute. reflexivity.
Defined.

Lemma index_file_round_trip_witness :
  exists iw1 iw2 r1,
    WriteCF crc32c_Extend_ref (new_index_writer []) 7
      [sample_tuple 3; sample_tuple 5]
    = Done (OK, iw1)
    /\ WriteFooter crc32c_Extend_ref iw1 = (OK, iw2)
    /\ NewIteratorWithCF (open_reader [])
         (index_env (wf_data (index_file_ iw2))) 7
       = Done (WalBlobIterator
                 (GetFileSize (index_file_ (new_index_writer [])))
                 (Z.of_nat (length [sample_tuple 3; sample_tuple 5])), r1)
    /\ bytes_at (wf_data (index_file_ iw2))
         (GetFileSize (index_file_ (new_index_writer [])))
         (Z.of_nat (length (concat [sample_tuple 3; sample_tuple 5])))
       = concat [sample_tuple 3; sample_tuple 5].
Proof.
  apply (index_file_round_trip crc32c_Extend_ref (new_index_writer []) 7
           [sample_tuple 3; sample_tuple 5] (open_reader [])).
  - exact crc32c_Extend_ref_range.
  - reflexivity.
  - apply Forall_nil_2.
  - vm_compute. reflexivity.
  - reflexivity.
  - vm_compute. reflexivity.
  - lia.
  - repeat apply Forall_cons_2; [| | apply Forall_nil_2];
      intros H; vm_compute in H; discriminate H.
  - vm_compute. reflexivity.
  - reflexivity.
Defined.

(** ** The index file in the reader *)

Lemma map_index_file_OK (r r1 : WalBlobReader) (env : IndexEnv) :
  map_index_file r env = (OK, r1) ->
  env_size_status env = OK
  /\ index_size (index_file_data_ r1) = env_file_size env.
Proof.
  unfold map_index_file.
  destruct (env_size_status env) eqn:Hs; cbn [ok andb].
  - destruct (index_unset (index_file_data_ r)).
    + destruct (env_open_status env); cbn [ok].
      * destruct (env_read_status env); cbn [ok andb negb].
        -- cbn [index_file_data_ set_index_file_data].
           destruct (index_size _ =? env_file_size env) eqn:E;
             cbn [negb]; intros H; [| discriminate H].
           injection H as <-. apply Z.eqb_eq in E.
           split; [reflexivity | exact E].
        -- intros H. discriminate H.
      * intros H. discriminate H.
    + cbn [ok andb].
      destruct (index_size _ =? env_file_size env) eqn:E;
        cbn [negb]; intros H; [| discriminate H].
      injection H as <-. apply Z.eqb_eq in E. split; [reflexivity | exact E].
  - intros H. discriminate H.
Qed.

Lemma map_index_file_mapped (r : WalBlobReader) (env : IndexEnv) :
  index_unset (index_file_data_ r) = false ->
  env_size_status env = OK ->
  index_size (index_file_data_ r) = env_file_size env ->
  map_index_file r env = (OK, r).
Proof.
  intros Hset Hs Hsize. unfold map_index_file.
  rewrite Hs, Hset. cbn [ok andb]. rewrite Hsize, Z.eqb_refl. reflexivity.
Qed.

Lemma GetCFWalTupleOffsets_needs_footer (buf : list Z)
    (cf_id cf_offset cf_entries : Z) (res : Z * Z) :
  GetCFWalTupleOffsets buf cf_id cf_offset cf_entries = Done res ->
  sizeof_WalIndexFooter <= Z.of_nat (length buf).
Proof.
  unfold GetCFWalTupleOffsets, load_footer_count, in_buffer.
  destruct (Z.leb_spec 0 (Z.of_nat (length buf) - sizeof_WalIndexFooter))
    as [Hle | Hlt]; cbn [andb].
  - intros _. lia.
  - intros H. discriminate H.
Qed.

(** X13. The index file is mapped once.  After a call of
    [NewIteratorWithCF] that gave an iterator, a later call for any
    column family does not depend on whether the file can still be
    opened or read, nor on its bytes, as long as the environment reports
    the same size: the call for the same column family gives the same
    iterator again and leaves the reader as it is. *)
Theorem NewIteratorWithCF_maps_index_once (r r1 : WalBlobReader)
    (env env' : IndexEnv) (cf_id cf_offset cf_entries : Z) :
  NewIteratorWithCF r env cf_id
  = Done (WalBlobIterator cf_offset cf_entries, r1) ->
  env_size_status env' = OK ->
  env_file_size env' = env_file_size env ->
  NewIteratorWithCF r1 env' cf_id
  = Done (WalBlobIterator cf_offset cf_entries, r1)
  /\ forall cf_id',
       NewIteratorWithCF r1 env' cf_id' = NewIteratorWithCF r1 env cf_id'.
Proof.
  intros H Hs' Hsize'. unfold NewIteratorWithCF in H.
  destruct (map_index_file r env) as [s r1'] eqn:M.
  destruct s; cbn [ok negb] in H; [| discriminate H].
  apply map_index_file_OK in M as [Hs Hsize].
  apply bind_Done_inv in H as ([o n] & Hget & H).
  apply bind_assert_Done in H as [Hmod H].
  injection H as -> -> ->.
  assert (Hset : index_unset (index_file_data_ r1) = false).
  { apply GetCFWalTupleOffsets_needs_footer in Hget.
    destruct (index_file_data_ r1) as [[| b l] |]; cbn in Hget |- *;
      unfold sizeof_WalIndexFooter in Hget; try lia; reflexivity. }
  assert (M' : map_index_file r1 env' = (OK, r1))
    by (apply map_index_file_mapped; [exact Hset | exact Hs' | congruence]).
  assert (M1 : map_index_file r1 env = (OK, r1))
    by (apply map_index_file_mapped; assumption).
  split.
  - unfold NewIteratorWithCF. rewrite M'. cbn [ok negb]. rewrite Hget.
    unfold mbind, Outcome_bind, bind. cbv beta iota. rewrite Hmod.
    reflexivity.
  - intros cf_id'. unfold NewIteratorWithCF. rewrite M', M1. reflexivity.
Qed.

Lemma NewIteratorWithCF_maps_index_once_witness :
  NewIteratorWithCF mapped_reader (closed_env 240) 5
  = Done (WalBlobIterator 80 2, mapped_reader)
  /\ forall cf_id',
       NewIteratorWithCF mapped_reader (closed_env 240) cf_id'
       = NewIteratorWithCF mapped_reader (index_env twice_listed_index)
           cf_id'.
Proof.
  apply (NewIteratorWithCF_maps_index_once (open_reader []) mapped_reader
           (index_env twice_listed_index) (closed_env 240) 5 80 2).
  - vm_compute. reflexivity.
  - reflexivity.
  - vm_compute. reflexivity.
Defined.

(** X14. An index file shorter than a footer is not refused: when the
    environment shows such a file, empty or of up to seven bytes,
    [NewIteratorWithCF] maps it and [GetCFWalTupleOffsets] reads the
    footer in front of the buffer. *)
Theorem NewIteratorWithCF_short_index_file (r : WalBlobReader)
    (bytes : list Z) (cf_id : Z) :
  index_unset (index_file_data_ r) = true ->
  Z.of_nat (length bytes) < sizeof_WalIndexFooter ->
  NewIteratorWithCF r (index_env bytes) cf_id = Fault.
Proof.
  intros Hun Hshort. unfold NewIteratorWithCF.
  rewrite map_index_file_fresh by exact Hun.
  cbn [ok negb index_file_data_ set_index_file_data from_option].
  unfold id, GetCFWalTupleOffsets, load_footer_count, in_buffer.
  destruct (Z.leb_spec 0 (Z.of_nat (length bytes) - sizeof_WalIndexFooter))
    as [Hle | Hlt]; [lia | reflexivity].
Qed.

Lemma NewIteratorWithCF_short_index_file_witness :
  NewIteratorWithCF (open_reader []) (index_env []) 1 = Fault.
Proof.
  apply (NewIteratorWithCF_short_index_file (open_reader []) [] 1).
  - reflexivity.
  - reflexivity.
Defined.

(** X15. The count of the footer is trusted: when it counts more
    directory entries than the file holds in front of the footer,
    [GetCFWalTupleOffsets] reads the first entry from before the start of
    the buffer. *)
Theorem GetCFWalTupleOffsets_overcounted (buf : list Z)
    (count cf_id cf_offset cf_entries : Z) :
  load_footer_count buf = Some count ->
  0 < count ->
  count * sizeof_WalCfIndex < 2 ^ 32 ->
  Z.of_nat (length buf) < sizeof_WalIndexFooter + count * sizeof_WalCfIndex ->
  GetCFWalTupleOffsets buf cf_id cf_offset cf_entries = Fault.
Proof.
  intros Hcount Hpos H32 Hshort. unfold GetCFWalTupleOffsets. rewrite Hcount.
  rewrite wrap32_small by (unfold sizeof_WalCfIndex in *; lia).
  destruct (Z.to_nat count) as [| todo] eqn:Hn; [lia |].
  cbn [scan_directory]. unfold load_WalCfIndex, in_buffer.
  destruct (Z.leb_spec 0
              (Z.of_nat (length buf) - sizeof_WalIndexFooter
               - count * sizeof_WalCfIndex + 0 * sizeof_WalCfIndex))
    as [Hle | Hlt]; [lia | reflexivity].
Qed.

Lemma GetCFWalTupleOffsets_overcounted_witness :
  GetCFWalTupleOffsets overcounted_index 5 0 0 = Fault.
Proof.
  apply (GetCFWalTupleOffsets_overcounted overcounted_index 3 5 0 0).
  - vm_compute. reflexivity.
  - lia.
  - vm_compute. reflexivity.
  - vm_compute. reflexivity.
Defined.
